(** * Audio forensic demo: a shallow embedding of the rendering and
    state-synchronisation core, and the properties of its specification.

  The TypeScript components are embedded one module per component
  (DecibelChart, SonarView, AudioRecorder, AudioAnalyzer, AudioUploader,
  ReportGenerator, App).  JavaScript numbers are idealised as real numbers:
  rounding is not modelled, and the special values NaN and the infinities
  appear explicitly (type [number]) at the places where the code can
  produce them (a division by a length, a logarithm of a mean).  Counts,
  indices, byte values and clock readings are integers.  Calls of
  [Math.random] and [Date.now] read an oracle that is an argument of the
  model.

  The properties are stated of the formulas as the code computes them; a
  range whose end a draw just below 1 can reach after rounding is given
  as a closed interval. *)

From Stdlib Require Import Reals Lra Lia ZArith List String Ascii Bool Sorted.
From Stdlib.Strings Require Import Byte.
From Stdlib Require Import DecimalString DecimalNat.
From stdpp Require Import base list sorting.
Import ListNotations.

Open Scope R_scope.

(** Comparisons of reals as decidable propositions. *)
#[global] Instance Req_decision : EqDecision R := Req_dec_T.
#[global] Instance Rlt_decision (x y : R) : Decision (x < y) := Rlt_dec x y.
#[global] Instance Rle_decision (x y : R) : Decision (x <= y) := Rle_dec x y.

(* ================================================================== *)
(** * Part I: the model *)
(* ================================================================== *)

(** ** JavaScript numbers with their special values *)

Module JS.

Inductive number : Type :=
| Fin (r : R)
| PosInf
| NegInf
| NaN.

(** [a / b] on finite operands: a zero divisor gives NaN or an infinity,
    never an exception. *)
Definition div (a b : R) : number :=
  if decide (b = 0) then
    (if decide (a = 0) then NaN
     else if decide (0 < a) then PosInf else NegInf)
  else Fin (a / b).

(** [Math.log10] on a finite operand. *)
Definition log10 (x : R) : number :=
  if decide (0 < x) then Fin (ln x / ln 10)
  else if decide (x = 0) then NegInf
  else NaN.

(** [k * x] for a finite, strictly positive constant [k]. *)
Definition scale (k : R) (x : number) : number :=
  match x with
  | Fin r => Fin (k * r)
  | other => other
  end.

(** [x + k] for a finite constant [k]. *)
Definition shift (x : number) (k : R) : number :=
  match x with
  | Fin r => Fin (r + k)
  | other => other
  end.

(** [Math.max(k, x)] for a finite constant [k]: NaN is contagious. *)
Definition max (k : R) (x : number) : number :=
  match x with
  | Fin r => Fin (Rmax k r)
  | PosInf => PosInf
  | NegInf => Fin k
  | NaN => NaN
  end.

(** [x || 0]: zero and NaN are falsy. *)
Definition or_zero (x : number) : number :=
  match x with
  | Fin r => if decide (r = 0) then Fin 0 else Fin r
  | NaN => Fin 0
  | other => other
  end.

(** [Math.max(...xs)]: minus infinity for no argument. *)
Definition maxOf (xs : list R) : number :=
  match xs with
  | [] => NegInf
  | first :: rest => Fin (fold_left Rmax rest first)
  end.

(** [Math.floor] on a finite operand. *)
Definition floor (x : R) : Z := Int_part x.

(** [Array.prototype.slice(-n)] for a positive [n]: the last [n] elements,
    the whole array when it is shorter. *)
Definition slice_last {A : Type} (n : nat) (l : list A) : list A :=
  skipn (length l - n) l.

End JS.

(** ** DecibelChart: the rolling history of loudness samples *)

Module DecibelChart.

Definition maxDataPoints : nat := 100.

(** Component state: the history, and the value of the dependency
    [currentDecibel] at the last run of the effect ([None] before the
    first render). *)
Record state : Type := mkState {
  decibelHistory : list R;
  lastDep : option R
}.

Definition initial : state := mkState [] None.

(** The updater passed to [setDecibelHistory]. *)
Definition appendSample (currentDecibel : R) (prev : list R) : list R :=
  JS.slice_last maxDataPoints (prev ++ [currentDecibel]).

(** The body of the effect. *)
Definition effect (currentDecibel : R) (history : list R) : list R :=
  if decide (0 < currentDecibel) then appendSample currentDecibel history
  else history.

(** Does the effect run at this render?  It has the dependency array
    [[currentDecibel]]: it runs after the first render and after a render
    whose [currentDecibel] differs from the previous one. *)
Definition effectRuns (st : state) (currentDecibel : R) : bool :=
  match lastDep st with
  | None => true
  | Some d => bool_decide (d <> currentDecibel)
  end.

(** One render with the prop [currentDecibel]. *)
Definition render (st : state) (currentDecibel : R) : state :=
  if effectRuns st currentDecibel
  then mkState (effect currentDecibel (decibelHistory st)) (Some currentDecibel)
  else st.

Definition run (st : state) (samples : list R) : state :=
  fold_left render samples st.

(** The samples the effect appends, in arrival order: those that are
    strictly positive and differ from the sample of the render before. *)
Fixpoint appended (dep : option R) (samples : list R) : list R :=
  match samples with
  | [] => []
  | s :: rest =>
      if bool_decide (dep <> Some s /\ 0 < s)
      then s :: appended (Some s) rest
      else appended (Some s) rest
  end.

(** The strictly positive samples, whether or not the effect saw them. *)
Definition positives (samples : list R) : list R :=
  filter (fun s => 0 < s) samples.

(** *** The redraw effect *)

Definition canvasWidth : R := 300.
Definition canvasHeight : R := 150.
Definition padding : R := 20.
Definition chartWidth : R := canvasWidth - padding * 2.
Definition chartHeight : R := canvasHeight - padding * 2.

(** The abscissa of the entry of index [index]. *)
Definition pointX (index : nat) : R :=
  padding + (INR index / (INR maxDataPoints - 1)) * chartWidth.

(** The ordinate of the level [db]. *)
Definition pointY (db : R) : R :=
  padding + ((120 - db) / 120) * chartHeight.

Inductive ChartCommand : Type :=
| ClearRect (w h : R)
| GridRow (y : R) (label : Z)
| GridColumn (x : R)
| MoveTo (x y : R)
| LineTo (x y : R)
| StrokeLine
| FillArea
| CurrentPoint (x y : R)
| HighMoveTo (x y : R)
| HighLineTo (x y : R)
| HighStroke
| HighBeginPath
| Title
| Stats (current : R) (maxDb avgDb : JS.number).

(** The eleven horizontal grid lines with their labels 120, 108, ..., 0. *)
Definition gridRows : list ChartCommand :=
  map (fun i : nat =>
         GridRow (padding + (INR i / 10) * chartHeight)
                 (120 - Z.of_nat i * 12))
      (seq 0 11).

Definition gridColumns : list ChartCommand :=
  map (fun i : nat => GridColumn (padding + (INR i / 5) * chartWidth))
      (seq 0 6).

(** The first [forEach]: the polyline through the entries. *)
Fixpoint polyline (index : nat) (history : list R) : list ChartCommand :=
  match history with
  | [] => []
  | db :: rest =>
      (if decide (index = 0%nat) then MoveTo (pointX index) (pointY db)
       else LineTo (pointX index) (pointY db))
      :: polyline (S index) rest
  end.

(** The second [forEach], with its flag [inHighZone]: the commands of the
    overlay, and the flag when the loop is over. *)
Fixpoint highZones (inHighZone : bool) (index : nat) (history : list R)
  : list ChartCommand * bool :=
  match history with
  | [] => ([], inHighZone)
  | db :: rest =>
      if decide (80 < db) then
        let '(cmds, final) := highZones true (S index) rest in
        ((if inHighZone then HighLineTo (pointX index) (pointY db)
          else HighMoveTo (pointX index) (pointY db)) :: cmds, final)
      else
        let '(cmds, final) := highZones false (S index) rest in
        ((if inHighZone then [HighStroke; HighBeginPath] else []) ++ cmds,
         final)
  end.

(** The overlay with the stroke after the loop. *)
Definition highlight (history : list R) : list ChartCommand :=
  let '(cmds, final) := highZones false 0 history in
  cmds ++ (if final then [HighStroke] else []).

(** The effect that redraws the chart; it returns at once, leaving the
    canvas as it is, when the history is empty. *)
Definition redraw (history : list R) (currentDecibel : R)
  : list ChartCommand :=
  match history with
  | [] => []
  | _ =>
      [ClearRect canvasWidth canvasHeight]
        ++ gridRows ++ gridColumns
        ++ (if decide (1 < length history)%nat then
              polyline 0 history
                ++ [StrokeLine;
                    LineTo (padding + chartWidth) (canvasHeight - padding);
                    LineTo padding (canvasHeight - padding);
                    FillArea;
                    CurrentPoint (pointX (length history - 1))
                                 (pointY currentDecibel)]
                ++ highlight history
            else [])
        ++ [Title;
            Stats currentDecibel (JS.maxOf history)
                  (JS.div (fold_left Rplus history 0)
                          (INR (length history)))]
  end.

(** The runs of the redraw effect that one render with the prop
    [currentDecibel] brings about.  The effect has the dependency array
    [[decibelHistory, currentDecibel]]: when [currentDecibel] has changed
    it runs after this render, with the history of this render; when the
    first effect has then replaced the history, the component is rendered
    again with the new history and the effect runs once more.  A run that
    returns at once draws nothing.  The second render is taken to happen
    before the prop changes again. *)
Definition redraws (st : state) (currentDecibel : R)
  : list (list ChartCommand) :=
  if effectRuns st currentDecibel then
    redraw (decibelHistory st) currentDecibel
    :: (if decide (0 < currentDecibel)
        then [redraw (effect currentDecibel (decibelHistory st))
                     currentDecibel]
        else [])
  else [].

(** What is drawn over the renders with [samples], run after run. *)
Fixpoint frames (st : state) (samples : list R)
  : list (list ChartCommand) :=
  match samples with
  | [] => []
  | s :: rest => redraws st s ++ frames (render st s) rest
  end.

End DecibelChart.

(** ** The AudioSource record, declared alike by every component *)

Inductive SourceType : Type := noise | voice | music | ambient | unknown.

#[global] Instance SourceType_eq_dec : EqDecision SourceType.
Proof. solve_decision. Defined.

Record Position : Type := mkPosition { pos_x : R; pos_y : R; pos_z : R }.

(** A display colour is a literal such as [#ff6b6b], or the template
    [hsl(h, 70%, 60%)] for a hue [h]. *)
Inductive Color : Type :=
| Hex (code : string)
| Hsl (hue : R).

Record AudioSource : Type := mkAudioSource {
  id : string;
  name : string;
  type : SourceType;
  decibel : R;
  frequency : R;
  position : Position;
  distance : R;
  visible : bool;
  color : Color
}.

(** ** Objects shared between components

  The App holds an array of references to AudioSource objects; a filtered
  array given to a child component holds the same references.  A reference
  is an index in the store. *)

Module Store.

Abbreviation ref := nat (only parsing).
Abbreviation store := (list AudioSource) (only parsing).

Definition alloc (h : store) (o : AudioSource) : ref * store :=
  (length h, h ++ [o]).

Definition read (h : store) (l : ref) : option AudioSource := h !! l.

(** Assignment to a field of the object at [l]: [f] gives the new record.
    A dangling reference leaves the store as it is. *)
Definition modify (h : store) (l : ref) (f : AudioSource -> AudioSource)
  : store :=
  match h !! l with
  | Some o => <[l := f o]> h
  | None => h
  end.

(** The objects an array of references denotes. *)
Definition resolve (h : store) (refs : list ref) : list AudioSource :=
  omap (read h) refs.

(** [refs.filter(p)]: the references whose object satisfies [p]. *)
Definition filterRefs (h : store) (p : AudioSource -> bool)
    (refs : list ref) : list ref :=
  List.filter (fun l => match read h l with
                        | Some o => p o
                        | None => false
                        end) refs.

(** The array literal of fresh objects [objs]. *)
Fixpoint allocAll (h : store) (objs : list AudioSource)
  : list ref * store :=
  match objs with
  | [] => ([], h)
  | o :: rest =>
      let '(l, h1) := alloc h o in
      let '(ls, h2) := allocAll h1 rest in
      (l :: ls, h2)
  end.

End Store.

(** ** SonarView: the radar scene and the draggable listener *)

Module SonarView.

Definition canvasWidth : R := 500.
Definition canvasHeight : R := 500.

Record Point : Type := mkPoint { x : R; y : R }.

(** What one frame puts on the canvas, in drawing order. *)
Inductive DrawCommand : Type :=
| ClearRect (w h : R)
| Background (w h : R)
| RangeCircle (center : Point) (radius : R) (metres : nat)
| Wave (at_ : Point) (radius : R) (c : Color) (i : nat)
| Marker (at_ : Point) (radius : R) (c : Color)
| Connector (from to : Point) (c : Color)
| Listener (at_ : Point)
| Pulse (center : Point) (radius alpha : R)
| Label (at_ : Point) (text : string) (c : Color) (db : R).

Record state : Type := mkState {
  listenerPosition : Point;
  isDragging : bool;
  pulseRadius : Z
}.

Definition initial : state := mkState (mkPoint 250 250) false 0.

(** *** The identifier's digits *)

Definition isDigit (c : ascii) : bool :=
  (48 <=? nat_of_ascii c)%nat && (nat_of_ascii c <=? 57)%nat.

(** [s.replace(/\D/g, '')] *)
Fixpoint stripNonDigits (s : string) : string :=
  match s with
  | EmptyString => EmptyString
  | String c rest =>
      if isDigit c then String c (stripNonDigits rest)
      else stripNonDigits rest
  end.

Fixpoint digitsValue (acc : N) (s : string) : N :=
  match s with
  | EmptyString => acc
  | String c rest =>
      digitsValue (10 * acc + (N_of_ascii c - 48))%N rest
  end.

(** [parseInt] on a string of decimal digits: [None] is NaN, the result on
    the empty string. *)
Definition parseInt (digits : string) : option N :=
  match digits with
  | EmptyString => None
  | _ => Some (digitsValue 0%N digits)
  end.

(** [n || 0] on a result of [parseInt]. *)
Definition orZero (n : option N) : N :=
  match n with
  | Some v => v
  | None => 0%N
  end.

Definition NtoR (n : N) : R := IZR (Z.of_N n).

(** *** Drawing *)

Definition drawSonarBackground (w h : R) : list DrawCommand :=
  [Background w h].

Definition drawRangeCircles (center : Point) : list DrawCommand :=
  map (fun i : nat => RangeCircle center (INR i * 50) (i * 10))
      (seq 1 5).

Definition markerAngle (source : AudioSource) : R :=
  NtoR (orZero (parseInt (stripNonDigits (id source)))) * 0.5.

Definition markerPoint (source : AudioSource) (center : Point) : Point :=
  let angle := markerAngle source in
  let distance := distance source * 5 in
  mkPoint (x center + cos angle * distance)
          (y center + sin angle * distance).

(** [drawAudioSource]: the commands drawn, and the source's [position]
    overwritten through the reference. *)
Definition drawAudioSource (h : Store.store) (l : Store.ref)
    (center : Point) : list DrawCommand * Store.store :=
  match Store.read h l with
  | None => ([], h)
  | Some source =>
      let p := markerPoint source center in
      let intensity := Rmax 0.2 (decibel source / 120) in
      let waveRadius := 10 + (decibel source / 120) * 20 in
      let waves :=
        map (fun i : nat => Wave p (waveRadius + INR i * 15) (color source) i)
            (seq 0 3) in
      (waves ++ [Marker p (8 * intensity) (color source);
                 Connector center p (color source)],
       Store.modify h l (fun s =>
         mkAudioSource (id s) (name s) (type s) (decibel s) (frequency s)
           (mkPosition (x p - x center) (y p - y center) 0)
           (distance s) (visible s) (color s)))
  end.

(** [audioSources.forEach(source => drawAudioSource(ctx, source, center))] *)
Fixpoint drawAudioSources (h : Store.store) (refs : list Store.ref)
    (center : Point) : list DrawCommand * Store.store :=
  match refs with
  | [] => ([], h)
  | l :: rest =>
      let '(cmds, h1) := drawAudioSource h l center in
      let '(cmds', h2) := drawAudioSources h1 rest center in
      (cmds ++ cmds', h2)
  end.

Definition drawListener (p : Point) : list DrawCommand := [Listener p].

Definition drawPulse (st : state) (center : Point) : list DrawCommand :=
  let alpha := (150 - IZR (pulseRadius st)) / 150 in
  [Pulse center (IZR (pulseRadius st)) alpha].

Definition labelPoint (index len : nat) (center : Point) : Point :=
  let angle := INR index / INR len * 2 * PI in
  mkPoint (x center + cos angle * 280) (y center + sin angle * 280).

(** [sources.forEach((source, index) => ...)] of [drawLabels]; [len] is
    [sources.length], read only inside the loop body. *)
Fixpoint drawLabelsFrom (index len : nat) (sources : list AudioSource)
    (center : Point) : list DrawCommand :=
  match sources with
  | [] => []
  | source :: rest =>
      Label (labelPoint index len center) (name source) (color source)
            (decibel source)
      :: drawLabelsFrom (S index) len rest center
  end.

Definition drawLabels (sources : list AudioSource) (center : Point)
  : list DrawCommand :=
  drawLabelsFrom 0 (length sources) sources center.

(** One call of [animate], for the props [audioSources] (references) and
    [isRecording]. *)
Definition animate (st : state) (h : Store.store)
    (audioSources : list Store.ref) (isRecording : bool)
  : list DrawCommand * Store.store :=
  let center := listenerPosition st in
  let '(sourceCmds, h1) := drawAudioSources h audioSources center in
  ([ClearRect canvasWidth canvasHeight]
     ++ drawSonarBackground canvasWidth canvasHeight
     ++ drawRangeCircles center
     ++ sourceCmds
     ++ drawListener center
     ++ (if isRecording then drawPulse st center else [])
     ++ drawLabels (Store.resolve h1 audioSources) center,
   h1).

(** *** Pointer interaction; coordinates are relative to the canvas *)

Inductive event : Type :=
| MouseDown (px py : R)
| MouseMove (px py : R)
| MouseUp
| MouseLeave
| PulseTick.

Definition handleMouseDown (st : state) (px py : R) : state :=
  let distance :=
    sqrt ((px - x (listenerPosition st)) ^ 2
          + (py - y (listenerPosition st)) ^ 2) in
  if decide (distance <= 15)
  then mkState (listenerPosition st) true (pulseRadius st)
  else st.

Definition handleMouseMove (st : state) (px py : R) : state :=
  if negb (isDragging st) then st
  else
    let clampedX := Rmax 20 (Rmin px (canvasWidth - 20)) in
    let clampedY := Rmax 20 (Rmin py (canvasHeight - 20)) in
    mkState (mkPoint clampedX clampedY) (isDragging st) (pulseRadius st).

Definition handleMouseUp (st : state) : state :=
  mkState (listenerPosition st) false (pulseRadius st).

(** The interval callback while recording. *)
Definition pulseTick (st : state) : state :=
  mkState (listenerPosition st) (isDragging st)
          ((pulseRadius st + 5) mod 150)%Z.

Definition step (st : state) (e : event) : state :=
  match e with
  | MouseDown px py => handleMouseDown st px py
  | MouseMove px py => handleMouseMove st px py
  | MouseUp => handleMouseUp st
  | MouseLeave => handleMouseUp st
  | PulseTick => pulseTick st
  end.

Definition run (st : state) (events : list event) : state :=
  fold_left step events st.

(** The states passed through, one per event. *)
Fixpoint trace (st : state) (events : list event) : list state :=
  match events with
  | [] => []
  | e :: rest => step st e :: trace (step st e) rest
  end.

End SonarView.

(** ** Math.random as an oracle

  The [i]-th call of [Math.random] returns [rnd i]; a computation that
  draws random numbers threads the index of the next call.  A computation
  may also fail: an array literal indexed outside its bounds gives
  [undefined], which is no value of the field's type. *)

Module Random.

Definition oracle : Type := nat -> R.

(** What [Math.random] promises. *)
Definition valid (rnd : oracle) : Prop := forall i, 0 <= rnd i < 1.

Definition Gen (A : Type) : Type := oracle -> nat -> option (A * nat).

Definition ret {A : Type} (a : A) : Gen A := fun _ i => Some (a, i).

Definition bind {A B : Type} (c : Gen A) (k : A -> Gen B) : Gen B :=
  fun rnd i =>
    match c rnd i with
    | Some (a, j) => k a rnd j
    | None => None
    end.

Definition random : Gen R := fun rnd i => Some (rnd i, S i).

Definition lift {A : Type} (o : option A) : Gen A :=
  fun _ i => match o with Some a => Some (a, i) | None => None end.

(** [Array.from({ length: n }, (_, k) => f k)], for [k] from [start]. *)
Fixpoint tabulate {A : Type} (n : nat) (start : nat) (f : nat -> Gen A)
  : Gen (list A) :=
  match n with
  | O => ret []
  | S n' =>
      bind (f start) (fun a =>
      bind (tabulate n' (S start) f) (fun rest =>
      ret (a :: rest)))
  end.

(** [xs.flatMap((x, k) => f x k)], for [k] from [start]. *)
Fixpoint flatMap {A B : Type} (xs : list A) (start : nat)
    (f : A -> nat -> Gen (list B)) : Gen (list B) :=
  match xs with
  | [] => ret []
  | x :: rest =>
      bind (f x start) (fun ys =>
      bind (flatMap rest (S start) f) (fun zs =>
      ret (ys ++ zs)))
  end.

Definition run {A : Type} (c : Gen A) (rnd : oracle) : option A :=
  match c rnd O with
  | Some (a, _) => Some a
  | None => None
  end.

End Random.

Notation "'let*' x ':=' c 'in' k" := (Random.bind c (fun x => k))
(at level 10, x name, c at level 100, k at level 200, only parsing).

(** ** AudioRecorder: the loudness of a tick, and the recorder's mock
     sources *)

Module AudioRecorder.

(** [dataArray.reduce((acc, val) => acc + val, 0)] over a Uint8Array *)
Definition sum (dataArray : list byte) : Z :=
  fold_left (fun acc val => (acc + Z.of_N (Byte.to_N val))%Z) dataArray 0%Z.

(** [Math.log10] of a quotient that may be NaN. *)
Definition log10 (q : JS.number) : JS.number :=
  match q with
  | JS.Fin r => JS.log10 r
  | JS.PosInf => JS.PosInf
  | JS.NegInf => JS.NaN
  | JS.NaN => JS.NaN
  end.

(** [x / k] for a finite, strictly positive constant [k]. *)
Definition over (q : JS.number) (k : R) : JS.number :=
  match q with
  | JS.Fin r => JS.Fin (r / k)
  | other => other
  end.

(** The value [analyze] passes to [onDecibelUpdate] for one reading of the
    analyser's byte frequency data. *)
Definition analyze (dataArray : list byte) : JS.number :=
  let bufferLength := length dataArray in
  let average := JS.div (IZR (sum dataArray)) (INR bufferLength) in
  let decibel :=
    JS.shift (JS.scale 20 (log10 (over average 255))) 100 in
  JS.max 0 decibel.

(** [analyzeRecordedAudio]: three sources with fixed categories; the blob
    is not read. *)
Definition analyzeRecordedAudio : Random.Gen (list AudioSource) :=
  let* d1 := Random.random in let* f1 := Random.random in
  let* x1 := Random.random in let* y1 := Random.random in let* z1 := Random.random in
  let* r1 := Random.random in
  let* d2 := Random.random in let* f2 := Random.random in
  let* x2 := Random.random in let* y2 := Random.random in let* z2 := Random.random in
  let* r2 := Random.random in
  let* d3 := Random.random in let* f3 := Random.random in
  let* x3 := Random.random in let* y3 := Random.random in let* z3 := Random.random in
  let* r3 := Random.random in
  Random.ret
    [ mkAudioSource "source-1" "Background Noise" noise
        (45 + d1 * 20) (200 + f1 * 400)
        (mkPosition (x1 * 100) (y1 * 100) (z1 * 50))
        (5 + r1 * 15) true (Hex "#ff6b6b");
      mkAudioSource "source-2" "Voice Activity" voice
        (60 + d2 * 25) (300 + f2 * 500)
        (mkPosition (x2 * 100) (y2 * 100) (z2 * 50))
        (2 + r2 * 8) true (Hex "#4ecdc4");
      mkAudioSource "source-3" "Ambient Sound" ambient
        (35 + d3 * 15) (100 + f3 * 300)
        (mkPosition (x3 * 100) (y3 * 100) (z3 * 50))
        (10 + r3 * 20) true (Hex "#45b7d1") ].

End AudioRecorder.

(** ** AudioUploader: file selection and the uploader's mock sources *)

Module AudioUploader.

Record File : Type := mkFile {
  file_name : string;
  file_type : string;
  file_size : N
}.

Definition lower (c : ascii) : ascii :=
  let n := nat_of_ascii c in
  if (65 <=? n)%nat && (n <=? 90)%nat then ascii_of_nat (n + 32) else c.

Fixpoint lowercase (s : string) : string :=
  match s with
  | EmptyString => EmptyString
  | String c rest => String (lower c) (lowercase rest)
  end.

Definition endsWith (suffix s : string) : bool :=
  let n := String.length s in
  let k := String.length suffix in
  (k <=? n)%nat && String.eqb (substring (n - k) k s) suffix.

Definition audioExtensions : list string :=
  [".mp3"%string; ".wav"%string; ".ogg"%string; ".m4a"%string;
   ".aac"%string; ".flac"%string].

(** The predicate of [handleFileSelect]'s filter. *)
Definition isAudio (file : File) : bool :=
  String.prefix "audio/" (file_type file)
  || existsb (fun ext => endsWith ext (lowercase (file_name file)))
             audioExtensions.

(** [s.split('.')[0]] *)
Fixpoint beforeDot (s : string) : string :=
  match s with
  | EmptyString => EmptyString
  | String c rest =>
      if Ascii.eqb c "."%char then EmptyString
      else String c (beforeDot rest)
  end.

Definition decimal (n : nat) : string :=
  NilEmpty.string_of_uint (Nat.to_uint n).

Definition categories : list SourceType :=
  [noise; voice; music; ambient; unknown].

(** [categories[k]] for the integer [k]. *)
Definition category (k : Z) : option SourceType :=
  if decide (0 <= k)%Z then categories !! Z.to_nat k else None.

(** The object one call of the inner arrow function of [analyzeFiles]
    builds. *)
Definition mockSource (file : File) (fileIndex sourceIndex : nat)
  : Random.Gen AudioSource :=
  let* t := Random.random in
  let* ty := Random.lift (category (JS.floor (t * 5))) in
  let* d := Random.random in
  let* f := Random.random in
  let* px := Random.random in let* py := Random.random in let* pz := Random.random in
  let* r := Random.random in
  let* hue := Random.random in
  Random.ret
    (mkAudioSource
       ("file-" ++ decimal fileIndex ++ "-source-"
          ++ decimal sourceIndex)%string
       (beforeDot (file_name file) ++ " - Source "
          ++ decimal (sourceIndex + 1))%string
       ty
       (30 + d * 60)
       (100 + f * 1000)
       (mkPosition (px * 100) (py * 100) (pz * 50))
       (1 + r * 25)
       true
       (Hsl (hue * 360))).

Definition sourcesOfFile (file : File) (fileIndex : nat)
  : Random.Gen (list AudioSource) :=
  let* n := Random.random in
  let numSources := (2 + JS.floor (n * 3))%Z in
  Random.tabulate (Z.to_nat numSources) 0 (mockSource file fileIndex).

(** The list [analyzeFiles] passes to [onAudioAnalysis] once its timer has
    fired. *)
Definition analyzeFiles (files : list File)
  : Random.Gen (list AudioSource) :=
  Random.flatMap files 0 sourcesOfFile.

(** The sum of the sizes over [1024 * 1024]. *)
Definition totalSize (files : list File) : R :=
  IZR (Z.of_N (fold_left (fun acc file => (acc + file_size file)%N)
                         files 0%N))
  / (1024 * 1024).

(** What [handleFileSelect] does with a FileList that is not null: the new
    [uploadedFiles], the size given to [onDatasetSizeChange], and the files
    given to [analyzeFiles] when a file was added. *)
Record selection : Type := mkSelection {
  newUploadedFiles : list File;
  reportedSize : R;
  toAnalyze : option (list File)
}.

Definition handleFileSelect (uploadedFiles files : list File) : selection :=
  let audioFiles := List.filter isAudio files in
  let all := uploadedFiles ++ audioFiles in
  mkSelection all (totalSize all)
    (match audioFiles with
     | [] => None
     | _ => Some all
     end).

(** [files.filter((_, i) => i !== index)], for [i] from [start]. *)
Fixpoint withoutIndex (start index : nat) (files : list File) : list File :=
  match files with
  | [] => []
  | file :: rest =>
      if decide (start = index) then withoutIndex (S start) index rest
      else file :: withoutIndex (S start) index rest
  end.

(** What [removeFile] does: the new [uploadedFiles], the size given to
    [onDatasetSizeChange], and the files given to [analyzeFiles]; [None]
    when no file is left and [onAudioAnalysis([])] is called instead. *)
Record removal : Type := mkRemoval {
  remainingFiles : list File;
  remainingSize : R;
  reanalyze : option (list File)
}.

Definition removeFile (uploadedFiles : list File) (index : nat) : removal :=
  let newFiles := withoutIndex 0 index uploadedFiles in
  mkRemoval newFiles (totalSize newFiles)
    (match newFiles with
     | [] => None
     | _ => Some newFiles
     end).

End AudioUploader.

(** ** AudioAnalyzer: the staged progress bar and the result record *)

Module AudioAnalyzer.

Record Stage : Type := mkStage { stage_name : string; duration : Z }.

Definition analysisStages : list Stage :=
  [ mkStage "Preprocessing Audio" 1000;
    mkStage "CRNN Feature Extraction" 1500;
    mkStage "Deep Learning Classification" 2000;
    mkStage "KNN Distance Calculation" 1200;
    mkStage "Noise Pattern Recognition" 800;
    mkStage "Generating Report" 500 ].

(** [stages.reduce((sum, stage) => sum + stage.duration, 0)] *)
Definition totalDuration (stages : list Stage) : Z :=
  fold_left (fun sum stage => (sum + duration stage)%Z) stages 0%Z.

(** A call of [setAnalysisProgress]: the value, and the reading of
    [Date.now] it was computed from ([None] for the reset to 0 at the
    start). *)
Definition report : Type := (option Z * R)%type.

(** The clock is the list of the values the successive calls of [Date.now]
    return; a run is observed as far as the list reaches.

    [poll] is the [while] loop of one stage: the reports it makes, and the
    readings left when the loop has exited ([None] when the observation
    ends inside the loop). *)
Fixpoint poll (startTime : Z) (stage : Stage)
    (totalProgress totalDur : R) (clock : list Z)
  : list report * option (list Z) :=
  match clock with
  | [] => ([], None)
  | now :: clock1 =>
      if decide (now < startTime + duration stage)%Z then
        match clock1 with
        | [] => ([], None)
        | now' :: clock2 =>
            let elapsed := (now' - startTime)%Z in
            let stageProgress :=
              Rmin (IZR elapsed / IZR (duration stage)) 1 in
            let currentStageWeight := IZR (duration stage) / totalDur in
            let '(reports, remaining) :=
              poll startTime stage totalProgress totalDur clock2 in
            ((Some now',
              totalProgress + stageProgress * currentStageWeight * 100)
               :: reports, remaining)
        end
      else ([], Some clock1)
  end.

(** The [for] loop over the stages. *)
Fixpoint runStages (stages : list Stage) (totalProgress totalDur : R)
    (clock : list Z) : list report :=
  match stages with
  | [] => []
  | stage :: rest =>
      match clock with
      | [] => []
      | startTime :: clock1 =>
          let '(reports, remaining) :=
            poll startTime stage totalProgress totalDur clock1 in
          match remaining with
          | None => reports
          | Some clock2 =>
              reports ++
              runStages rest
                (totalProgress + IZR (duration stage) / totalDur * 100)
                totalDur clock2
          end
      end
  end.

(** The values [startAnalysis] gives to [setAnalysisProgress], in order. *)
Definition startAnalysis (clock : list Z) : list report :=
  (None, 0) ::
  runStages analysisStages 0 (IZR (totalDuration analysisStages)) clock.

Record Distribution : Type := mkDistribution {
  d_noise : nat; d_voice : nat; d_music : nat;
  d_ambient : nat; d_unknown : nat
}.

Record AnalysisResults : Type := mkResults {
  totalSources : nat;
  noiseLevel : JS.number;
  dominantFrequency : JS.number;
  peakDecibel : JS.number;
  sourceDistribution : Distribution;
  mlConfidence : R;
  anomalies : Z
}.

Definition countType (t : SourceType) (audioSources : list AudioSource)
  : nat :=
  length (filter (fun s => type s = t) audioSources).

(** [audioSources.reduce((sum, s) =>
      sum + (s.type === 'ambient' ? s.decibel : 0), 0)] *)
Definition backgroundNoise (audioSources : list AudioSource) : R :=
  fold_left
    (fun sum s => sum + (if decide (type s = ambient) then decibel s else 0))
    audioSources 0.

Definition generateAnalysisResults (audioSources : list AudioSource)
  : Random.Gen AnalysisResults :=
  let* c := Random.random in
  let* a := Random.random in
  Random.ret
    (mkResults
       (length audioSources)
       (JS.or_zero
          (JS.div (backgroundNoise audioSources)
                  (INR (length audioSources))))
       (JS.maxOf (map frequency audioSources))
       (JS.maxOf (map decibel audioSources))
       (mkDistribution
          (countType noise audioSources)
          (countType voice audioSources)
          (countType music audioSources)
          (countType ambient audioSources)
          (countType unknown audioSources))
       (85 + c * 10)
       (JS.floor (a * 3))).

End AudioAnalyzer.

(** ** ReportGenerator: the report view *)

Module ReportGenerator.

Record Row : Type := mkRow {
  row_name : string;
  row_color : Color;
  row_type : SourceType;
  row_level : R;
  row_frequency : R;
  row_distance : R
}.

Record Report : Type := mkReport {
  sourcesDetected : nat;
  datasetMB : R;
  highestDb : JS.number;
  averageDb : JS.number;
  noisySources : nat;
  rows : list Row;
  technical : option AudioAnalyzer.AnalysisResults
}.

Inductive view : Type :=
| NoAnalysisDataAvailable
| Rendered (r : Report).

Definition rowOf (source : AudioSource) : Row :=
  mkRow (name source) (color source) (type source) (decibel source)
        (frequency source) (distance source).

Definition render (audioSources : list AudioSource)
    (analysisData : option AudioAnalyzer.AnalysisResults)
    (datasetSize : R) : view :=
  if decide (length audioSources = 0%nat) then NoAnalysisDataAvailable
  else
    Rendered
      (mkReport
         (length audioSources)
         datasetSize
         (JS.maxOf (map decibel audioSources))
         (JS.div (fold_left (fun sum s => sum + decibel s) audioSources 0)
                 (INR (length audioSources)))
         (length (filter (fun s => 70 < decibel s) audioSources))
         (map rowOf audioSources)
         analysisData).

End ReportGenerator.

(** ** App: the state the components share *)

Module App.

Record state : Type := mkState {
  audioSources : list Store.ref;
  store : Store.store;
  datasetSize : R;
  analysisData : option AudioAnalyzer.AnalysisResults;
  isRecording : bool;
  showSonar : bool;
  sonar : SonarView.state
}.

Definition initial : state :=
  mkState [] [] 0 None false true SonarView.initial.

(** The source objects of the current list. *)
Definition sources (st : state) : list AudioSource :=
  Store.resolve (store st) (audioSources st).

(** [handleAudioAnalysis]: the list is replaced by the new objects and the
    dataset size is recomputed from their frequencies. *)
Definition handleAudioAnalysis (st : state) (objs : list AudioSource)
  : state :=
  let '(refs, h) := Store.allocAll (store st) objs in
  let totalSize :=
    fold_left (fun acc source => acc + frequency source * 0.001) objs 0 in
  mkState refs h totalSize (analysisData st) (isRecording st)
          (showSonar st) (sonar st).

Definition setDatasetSize (st : state) (size : R) : state :=
  mkState (audioSources st) (store st) size (analysisData st)
          (isRecording st) (showSonar st) (sonar st).

(** [prev.map(source => source.id === soundId
      ? { ...source, visible: !source.visible } : source)]:
    a matching source is copied into a new object, the others are kept by
    reference. *)
Fixpoint toggleRefs (h : Store.store) (refs : list Store.ref)
    (soundId : string) : list Store.ref * Store.store :=
  match refs with
  | [] => ([], h)
  | l :: rest =>
      let '(l', h1) :=
        match Store.read h l with
        | Some source =>
            if String.eqb (id source) soundId then
              Store.alloc h
                (mkAudioSource (id source) (name source) (type source)
                   (decibel source) (frequency source) (position source)
                   (distance source) (negb (visible source))
                   (color source))
            else (l, h)
        | None => (l, h)
        end in
      let '(ls, h2) := toggleRefs h1 rest soundId in
      (l' :: ls, h2)
  end.

Definition toggleSoundVisibility (st : state) (soundId : string) : state :=
  let '(refs, h) := toggleRefs (store st) (audioSources st) soundId in
  mkState refs h (datasetSize st) (analysisData st) (isRecording st)
          (showSonar st) (sonar st).

(** The references the SonarView receives. *)
Definition visibleRefs (st : state) : list Store.ref :=
  Store.filterRefs (store st) visible (audioSources st).

(** One animation frame of the SonarView, when it is mounted. *)
Definition sonarFrame (st : state)
  : list SonarView.DrawCommand * state :=
  if showSonar st then
    let '(frame, h) :=
      SonarView.animate (sonar st) (store st) (visibleRefs st)
                        (isRecording st) in
    (frame,
     mkState (audioSources st) h (datasetSize st) (analysisData st)
             (isRecording st) (showSonar st) (sonar st))
  else ([], st).

(** The report view, when it is the one shown. *)
Definition reportView (st : state) : ReportGenerator.view :=
  ReportGenerator.render (sources st) (analysisData st) (datasetSize st).

(** What happens to the state between two replacements of the list. *)
Inductive update : Type :=
| ToggleSoundVisibility (soundId : string)
| SonarFrame
| SonarPointer (e : SonarView.event)
| SetDatasetSize (size : R)
| SetAnalysisData (data : AudioAnalyzer.AnalysisResults)
| SetIsRecording (b : bool)
| ToggleView.

Inductive action : Type :=
| HandleAudioAnalysis (objs : list AudioSource)
| Update (u : update).

Definition applyUpdate (st : state) (u : update) : state :=
  match u with
  | ToggleSoundVisibility soundId => toggleSoundVisibility st soundId
  | SonarFrame => snd (sonarFrame st)
  | SonarPointer e =>
      if showSonar st then
        mkState (audioSources st) (store st) (datasetSize st)
                (analysisData st) (isRecording st) (showSonar st)
                (SonarView.step (sonar st) e)
      else st
  | SetDatasetSize size => setDatasetSize st size
  | SetAnalysisData data =>
      mkState (audioSources st) (store st) (datasetSize st) (Some data)
              (isRecording st) (showSonar st) (sonar st)
  | SetIsRecording b =>
      mkState (audioSources st) (store st) (datasetSize st)
              (analysisData st) b (showSonar st) (sonar st)
  | ToggleView =>
      mkState (audioSources st) (store st) (datasetSize st)
              (analysisData st) (isRecording st) (negb (showSonar st))
              (if showSonar st then sonar st else SonarView.initial)
  end.

Definition step (st : state) (a : action) : state :=
  match a with
  | HandleAudioAnalysis objs => handleAudioAnalysis st objs
  | Update u => applyUpdate st u
  end.

Definition run (st : state) (actions : list action) : state :=
  fold_left step actions st.

(** An upload through the AudioUploader (mounted with no file yet): the
    size is reported at once, the mock sources arrive when the uploader's
    timer has fired.  [None] when the generator fails. *)
Definition upload (st : state) (files : list AudioUploader.File)
    (rnd : Random.oracle) : option state :=
  let sel := AudioUploader.handleFileSelect [] files in
  let st1 := setDatasetSize st (AudioUploader.reportedSize sel) in
  match AudioUploader.toAnalyze sel with
  | None => Some st1
  | Some all =>
      match Random.run (AudioUploader.analyzeFiles all) rnd with
      | Some objs => Some (handleAudioAnalysis st1 objs)
      | None => None
      end
  end.

(** The removal of the file of index [index] in the AudioUploader whose
    files are [uploadedFiles]: the size is reported at once; the mock
    sources of the files that are left arrive when the uploader's timer has
    fired, or the list is emptied at once when no file is left. *)
Definition removeUploaded (st : state)
    (uploadedFiles : list AudioUploader.File) (index : nat)
    (rnd : Random.oracle) : option state :=
  let rem := AudioUploader.removeFile uploadedFiles index in
  let st1 := setDatasetSize st (AudioUploader.remainingSize rem) in
  match AudioUploader.reanalyze rem with
  | None => Some (handleAudioAnalysis st1 [])
  | Some files =>
      match Random.run (AudioUploader.analyzeFiles files) rnd with
      | Some objs => Some (handleAudioAnalysis st1 objs)
      | None => None
      end
  end.

End App.

(** ** Vocabulary of the properties *)

(** The value the polling loop of a stage reports at the reading [t]. *)
Definition stageValue (startTime : Z) (stage : AudioAnalyzer.Stage)
    (totalProgress totalDur : R) (t : Z) : R :=
  totalProgress
  + Rmin (IZR (t - startTime) / IZR (AudioAnalyzer.duration stage)) 1
    * (IZR (AudioAnalyzer.duration stage) / totalDur) * 100.

(** The share of the bar a list of stages accounts for. *)
Definition weightOf (stages : list AudioAnalyzer.Stage) (totalDur : R) : R :=
  IZR (AudioAnalyzer.totalDuration stages) / totalDur * 100.

(** The value [totalProgress] has when the loop over the stages is over:
    the value the bar is left at. *)
Definition finalProgress (stages : list AudioAnalyzer.Stage) (totalDur : R)
  : R :=
  fold_left
    (fun totalProgress stage =>
       totalProgress + IZR (AudioAnalyzer.duration stage) / totalDur * 100)
    stages 0.

(** Reports ordered by value. *)
Definition valueLe (a b : AudioAnalyzer.report) : Prop := snd a <= snd b.

(** The report [r] was computed from a reading at least [D] after the first
    reading of [clock]. *)
Definition completesAfter (clock : list Z) (D : Z)
    (r : AudioAnalyzer.report) : Prop :=
  exists t0 rest t,
    clock = t0 :: rest /\ fst r = Some t /\ (t0 + D <= t)%Z.

(** A run in which every stage but the last one is seen to be over at the
    first poll, and the last stage is polled once, 10 ms before its end. *)
Definition sampleClock : list Z :=
  [0; 1000; 1000; 2500; 2500; 4500; 4500; 5700; 5700; 6500; 6500;
   6990; 7010; 7060]%Z.


(** The decimal digits of a string, in order, as numbers. *)
Fixpoint digitsOf (s : string) : list N :=
  match s with
  | EmptyString => []
  | String c rest =>
      if SonarView.isDigit c then (N_of_ascii c - 48)%N :: digitsOf rest
      else digitsOf rest
  end.

(** The integer a list of decimal digits forms; 0 for no digit. *)
Definition numberOfDigits (ds : list N) : N :=
  fold_left (fun acc d => (10 * acc + d)%N) ds 0%N.

(** The point at the angle [angle] and the radius [radius] from
    [center]. *)
Definition polar (center : SonarView.Point) (angle radius : R)
  : SonarView.Point :=
  SonarView.mkPoint (SonarView.x center + cos angle * radius)
                    (SonarView.y center + sin angle * radius).

(** The marker of the source [s] when the listener is at [center]: at the
    angle 0.5 * (the integer the digits of the identifier form, 0 without
    a digit) and at the radius 5 * distance from the listener. *)
Definition markerOf (center : SonarView.Point) (s : AudioSource)
  : SonarView.DrawCommand :=
  SonarView.Marker
    (polar center
           (SonarView.NtoR (numberOfDigits (digitsOf (id s))) * 0.5)
           (distance s * 5))
    (8 * Rmax 0.2 (decibel s / 120)) (color s).

(** The label of the source [s] that has the index [index] in a list of
    [len] sources: at the angle (index / len) * 2 pi and at the radius
    280 from the listener. *)
Definition labelOf (center : SonarView.Point) (len index : nat)
    (s : AudioSource) : SonarView.DrawCommand :=
  SonarView.Label (polar center (INR index / INR len * 2 * PI) 280)
                  (name s) (color s) (decibel s).

(** Two versions of a source with the same identifier, name, category,
    level, frequency, distance and colour. *)
Definition sameIdentity (s s' : AudioSource) : Prop :=
  id s' = id s /\ name s' = name s /\ type s' = type s
  /\ decibel s' = decibel s /\ frequency s' = frequency s
  /\ distance s' = distance s /\ color s' = color s.

(** ... that differ at most in their position. *)
Definition samePosFree (s s' : AudioSource) : Prop :=
  sameIdentity s s' /\ visible s' = visible s.

(** ... that differ at most in their visibility. *)
Definition sameVisFree (s s' : AudioSource) : Prop :=
  sameIdentity s s' /\ position s' = position s.


(** Every reference of the list denotes an object of the store. *)
Definition wellFormed (st : App.state) : Prop :=
  Forall (fun l => (l < length (App.store st))%nat) (App.audioSources st).

(** A generator that, on every oracle that behaves as [Math.random],
    returns a value satisfying [P]. *)
Definition succeeds {A : Type} (c : Random.Gen A) (P : A -> Prop) : Prop :=
  forall rnd i, Random.valid rnd ->
    exists a j, c rnd i = Some (a, j) /\ P a.

(** The index of the first draw of each of [count] sources that are made
    one after the other from the draw of index [n] on: a source of the
    uploader takes eight draws. *)
Fixpoint sourceDraws (n count : nat) : list nat :=
  match count with
  | O => []
  | S count' => n :: sourceDraws (8 + n) count'
  end.

(** The same for the sources of several files, [counts] being the numbers
    of sources of the files: a file takes the draw of index [n] for its
    number of sources, then the draws of its sources. *)
Fixpoint fileDraws (n : nat) (counts : list nat) : list nat :=
  match counts with
  | [] => []
  | count :: rest =>
      sourceDraws (S n) count ++ fileDraws (S n + 8 * count) rest
  end.

(** The numbers of sources of [k] files, the draws of the first one
    beginning at the index [n]: 2 + floor(3 r) for the draw r of the
    file. *)
Fixpoint drawnCounts (rnd : Random.oracle) (n k : nat) : list nat :=
  match k with
  | O => []
  | S k' =>
      let count := Z.to_nat (2 + JS.floor (rnd n * 3)) in
      count :: drawnCounts rnd (S n + 8 * count) k'
  end.

(** The shape of a source the uploader makes from the draws of index [n]
    on: it is visible, its category is the entry of index floor(5 r) of
    the five categories for the draw r of index [n], and its level comes
    from the next draw, r', as 30 + r' * 60, between 30 and 90 whatever
    the category. *)
Definition uploadedShape (rnd : Random.oracle) (n : nat) (s : AudioSource)
  : Prop :=
  visible s = true
  /\ AudioUploader.category (JS.floor (rnd n * 5)) = Some (type s)
  /\ decibel s = 30 + rnd (S n) * 60
  /\ 30 <= decibel s <= 90.

(** The shape of the three sources made for a recording: fixed categories,
    and levels from the draws of index 0, 6 and 12. *)
Definition recordedShape (rnd : Random.oracle) (l : list AudioSource)
  : Prop :=
  exists a b c,
    l = [a; b; c]
    /\ (type a = noise /\ visible a = true
        /\ decibel a = 45 + rnd 0%nat * 20 /\ 45 <= decibel a <= 65)
    /\ (type b = voice /\ visible b = true
        /\ decibel b = 60 + rnd 6%nat * 25 /\ 60 <= decibel b <= 85)
    /\ (type c = ambient /\ visible c = true
        /\ decibel c = 35 + rnd 12%nat * 15 /\ 35 <= decibel c <= 50).

(** An uploaded file of 2 MB. *)
Definition sampleFile : AudioUploader.File :=
  AudioUploader.mkFile "clip.wav" "audio/wav" (2 * 1024 * 1024).

(** Oracles: every draw 0; the category draw 0.7 and the level draw 0.9 for
    the first source of a file. *)
Definition zeroOracle : Random.oracle := fun _ => 0.

Definition loudAmbientOracle : Random.oracle :=
  fun i => match i with
           | 0%nat => 7 / 10
           | 1%nat => 9 / 10
           | _ => 0
           end.

(** The listener is on the canvas, a margin of 20 away from its edges. *)
Definition inBounds (p : SonarView.Point) : Prop :=
  20 <= SonarView.x p <= SonarView.canvasWidth - 20
  /\ 20 <= SonarView.y p <= SonarView.canvasHeight - 20.

(** The arithmetic mean of the bins. *)
Definition mean (dataArray : list byte) : R :=
  IZR (AudioRecorder.sum dataArray) / INR (length dataArray).

(** [max(0, 20 * log10(mean / 255) + 100)], for a positive mean. *)
Definition decibelFormula (m : R) : R :=
  Rmax 0 (20 * (ln (m / 255) / ln 10) + 100).

(** The sum of the decibel values over the sources of type ambient. *)
Definition ambientDecibels (audioSources : list AudioSource) : R :=
  fold_right Rplus 0
    (map decibel (filter (fun s => type s = ambient) audioSources)).

(** A source as the uploader makes them. *)
Definition sampleSource : AudioSource :=
  mkAudioSource "file-1-source-2" "clip - Source 3" music 60 440
                (mkPosition 10 20 30) 4 true (Hsl 120).

(** The source the uploader makes for the first file when every draw is 0. *)
Definition zeroSource (sourceIndex : nat) : AudioSource :=
  mkAudioSource
    ("file-0-source-" ++ AudioUploader.decimal sourceIndex)%string
    ("clip - Source " ++ AudioUploader.decimal (sourceIndex + 1))%string
    noise (30 + 0 * 60) (100 + 0 * 1000)
    (mkPosition (0 * 100) (0 * 100) (0 * 50)) (1 + 0 * 25) true
    (Hsl (0 * 360)).


(** The points of the canvas a command of the chart passes through: the
    ends of a grid line, the point of a [moveTo] or [lineTo], the centre of
    the marker of the current level.  The texts are not counted. *)
Definition chartPoints (c : DecibelChart.ChartCommand) : list (R * R) :=
  match c with
  | DecibelChart.GridRow y _ =>
      [(DecibelChart.padding, y);
       (DecibelChart.canvasWidth - DecibelChart.padding, y)]
  | DecibelChart.GridColumn x =>
      [(x, DecibelChart.padding);
       (x, DecibelChart.canvasHeight - DecibelChart.padding)]
  | DecibelChart.MoveTo x y | DecibelChart.LineTo x y
  | DecibelChart.CurrentPoint x y
  | DecibelChart.HighMoveTo x y | DecibelChart.HighLineTo x y => [(x, y)]
  | _ => []
  end.

(** The rectangle of the chart on its canvas of 300 x 150. *)
Definition inChartRectangle (p : R * R) : Prop :=
  20 <= fst p <= 280 /\ 20 <= snd p <= 130.

(** The command draws inside the rectangle of the chart. *)
Definition drawsInside (c : DecibelChart.ChartCommand) : Prop :=
  Forall inChartRectangle (chartPoints c).

(** The points of the line of the levels in what a run of the redraw effect
    draws: those of the [moveTo] and [lineTo] before the first stroke. *)
Fixpoint levelLine (frame : list DecibelChart.ChartCommand)
  : list (R * R) :=
  match frame with
  | [] => []
  | DecibelChart.StrokeLine :: _ => []
  | DecibelChart.MoveTo x y :: rest | DecibelChart.LineTo x y :: rest =>
      (x, y) :: levelLine rest
  | _ :: rest => levelLine rest
  end.

(** The centre of the marker of the current level. *)
Definition currentMarker (c : DecibelChart.ChartCommand) : option (R * R) :=
  match c with
  | DecibelChart.CurrentPoint x y => Some (x, y)
  | _ => None
  end.

(** The maximum and the average shown under the chart. *)
Definition statistics (c : DecibelChart.ChartCommand)
  : option (JS.number * JS.number) :=
  match c with
  | DecibelChart.Stats _ maxDb avgDb => Some (maxDb, avgDb)
  | _ => None
  end.






(** A press farther than 15 from the point [p]; every other event. *)
Definition missesListener (p : SonarView.Point) (e : SonarView.event)
  : Prop :=
  match e with
  | SonarView.MouseDown px py =>
      15 < sqrt ((px - SonarView.x p) ^ 2 + (py - SonarView.y p) ^ 2)
  | _ => True
  end.

(** [Math.max(20, Math.min(v, 500 - 20))] *)
Definition clampToCanvas (v : R) : R := Rmax 20 (Rmin v (500 - 20)).

Definition isMarker (c : SonarView.DrawCommand) : bool :=
  match c with SonarView.Marker _ _ _ => true | _ => false end.

Definition isLabel (c : SonarView.DrawCommand) : bool :=
  match c with SonarView.Label _ _ _ _ => true | _ => false end.

Definition isWave (c : SonarView.DrawCommand) : bool :=
  match c with SonarView.Wave _ _ _ _ => true | _ => false end.

(** The source as [drawAudioSource] leaves it. *)
Definition drawn (s : AudioSource) (center : SonarView.Point)
  : AudioSource :=
  mkAudioSource (id s) (name s) (type s) (decibel s) (frequency s)
    (mkPosition (SonarView.x (SonarView.markerPoint s center)
                 - SonarView.x center)
                (SonarView.y (SonarView.markerPoint s center)
                 - SonarView.y center) 0)
    (distance s) (visible s) (color s).

(** The objects at [refs], where they exist, are as a frame leaves them
    when the listener is at [center]. *)
Definition allDrawn (h : list AudioSource) (refs : list nat)
    (center : SonarView.Point) : Prop :=
  Forall (fun l => forall s, h !! l = Some s -> exists s0, s = drawn s0 center)
         refs.

(** A source that has been hidden. *)
Definition hiddenSource : AudioSource :=
  mkAudioSource "source-2" "Voice Activity" voice 70 400
                (mkPosition 1 2 3) 6 false (Hex "#4ecdc4").


(** A source with its visibility negated when its identifier is
    [soundId]. *)
Definition flipIf (soundId : string) (s : AudioSource) : AudioSource :=
  if String.eqb (id s) soundId
  then mkAudioSource (id s) (name s) (type s) (decibel s) (frequency s)
         (position s) (distance s) (negb (visible s)) (color s)
  else s.

(** The number of commands of a frame that satisfy [p]. *)
Definition census (p : SonarView.DrawCommand -> bool)
    (frame : list SonarView.DrawCommand) : nat :=
  length (List.filter p frame).


(** The figures of a source made for an uploaded file. *)
Definition uploadedFigures (s : AudioSource) : Prop :=
  100 <= frequency s <= 1100 /\ 1 <= distance s <= 26.

(** What makes a file an audio file for the uploader: a MIME type that
    begins with audio/, or a name that ends with one of the six extensions,
    whatever the case of its letters. *)
Definition namedAsAudio (f : AudioUploader.File) : Prop :=
  (exists subtype, AudioUploader.file_type f = ("audio/" ++ subtype)%string)
  \/ (exists stem ext,
        AudioUploader.file_name f = (stem ++ ext)%string
        /\ AudioUploader.lowercase ext ∈ AudioUploader.audioExtensions).

(** The sum of the sizes of the files, in bytes. *)
Definition totalBytes (files : list AudioUploader.File) : N :=
  fold_right N.add 0%N (map AudioUploader.file_size files).

(** The identifier the uploader gives to the source [sourceIndex] of the
    file [fileIndex]. *)
Definition uploadedId (fileIndex sourceIndex : nat) : string :=
  ("file-" ++ AudioUploader.decimal fileIndex ++ "-source-"
     ++ AudioUploader.decimal sourceIndex)%string.

(** A string of decimal digits. *)
Fixpoint digitsOnly (s : string) : bool :=
  match s with
  | EmptyString => true
  | String c rest => SonarView.isDigit c && digitsOnly rest
  end.

(** The identifiers of an upload, file after file: [counts] gives the number
    of sources of each file, the first file has the index [start]. *)
Fixpoint uploadedIds (start : nat) (counts : list nat) : list string :=
  match counts with
  | [] => []
  | n :: rest =>
      map (uploadedId start) (seq 0 n) ++ uploadedIds (S start) rest
  end.

(** ** AudioRecorder: the elapsed time shown

  [recordingTime] counts the ticks of the one-second interval; the value
  shown is [formatTime recordingTime]. *)

Module RecordingTime.

Fixpoint replicate (n : nat) (pad : ascii) : string :=
  match n with
  | O => EmptyString
  | S n' => String pad (replicate n' pad)
  end.

(** [s.padStart(targetLength, pad)] for a pad of one character. *)
Definition padStart (targetLength : nat) (pad : ascii) (s : string)
  : string :=
  (replicate (targetLength - String.length s) pad ++ s)%string.

Definition formatTime (seconds : nat) : string :=
  let mins := (seconds / 60)%nat in
  let secs := (seconds mod 60)%nat in
  (padStart 2 "0" (AudioUploader.decimal mins) ++ ":"
     ++ padStart 2 "0" (AudioUploader.decimal secs))%string.

End RecordingTime.

(** The natural number a string of decimal digits denotes; [None] when a
    character is no digit. *)
Definition readNat (s : string) : option nat :=
  match NilEmpty.uint_of_string s with
  | Some d => Some (Nat.of_uint d)
  | None => None
  end.

(* ================================================================== *)
(** * Part II: the properties *)
(* ================================================================== *)

(** ** Lists: the last [n] elements *)

Section SliceLast.
Context {A : Type}.
Implicit Types (l : list A) (n k : nat).

Lemma slice_last_length n l :
  length (JS.slice_last n l) = Nat.min (length l) n.
Proof. unfold JS.slice_last. rewrite length_skipn. lia. Qed.

Lemma slice_last_skipn n k l :
  (k <= length l - n)%nat ->
  JS.slice_last n (skipn k l) = JS.slice_last n l.
Proof.
  intros Hk. unfold JS.slice_last.
  rewrite length_skipn, skipn_skipn. f_equal. lia.
Qed.

Lemma slice_last_snoc n l x :
  (0 < n)%nat ->
  JS.slice_last n (JS.slice_last n l ++ [x]) = JS.slice_last n (l ++ [x]).
Proof.
  intros Hn. unfold JS.slice_last at 2.
  assert (Hk : (length l - n <= length l)%nat) by lia.
  replace (skipn (length l - n) l ++ [x])
    with (skipn (length l - n) (l ++ [x])).
  - apply slice_last_skipn. rewrite length_app. simpl. lia.
  - rewrite skipn_app.
    replace (length l - n - length l)%nat with 0%nat by lia.
    reflexivity.
Qed.

Lemma slice_last_all n l :
  (length l <= n)%nat -> JS.slice_last n l = l.
Proof.
  intros H. unfold JS.slice_last.
  replace (length l - n)%nat with 0%nat by lia. reflexivity.
Qed.

End SliceLast.

(** ** DecibelChart *)

Section DecibelChartFacts.
Import DecibelChart.

Lemma render_step st s :
  decibelHistory (render st s)
    = (if bool_decide (lastDep st <> Some s /\ 0 < s)
       then appendSample s (decibelHistory st) else decibelHistory st)
  /\ lastDep (render st s) = Some s.
Proof.
  unfold render, effectRuns, effect.
  destruct (lastDep st) as [d|] eqn:Hd.
  - destruct (decide (d = s)) as [->|Hne].
    + rewrite bool_decide_eq_false_2 by tauto.
      rewrite bool_decide_eq_false_2 by tauto. auto.
    + rewrite bool_decide_eq_true_2 by exact Hne. simpl.
      destruct (decide (0 < s)).
      * rewrite bool_decide_eq_true_2; [auto|]. split; [congruence|lra].
      * rewrite bool_decide_eq_false_2 by tauto. auto.
  - simpl. destruct (decide (0 < s)).
    + rewrite bool_decide_eq_true_2; [auto|]. split; [congruence|lra].
    + rewrite bool_decide_eq_false_2 by tauto. auto.
Qed.

(** The history after a run, from any state whose history is already a
    window over what was appended before. *)
Lemma run_window samples : forall st before,
  decibelHistory st = JS.slice_last maxDataPoints before ->
  decibelHistory (run st samples)
    = JS.slice_last maxDataPoints (before ++ appended (lastDep st) samples).
Proof.
  induction samples as [|s rest IH]; intros st before Hst.
  - simpl. rewrite app_nil_r. exact Hst.
  - change (run st (s :: rest)) with (run (render st s) rest).
    destruct (render_step st s) as [Hh Hl]. simpl.
    destruct (bool_decide (lastDep st <> Some s /\ 0 < s)).
    + rewrite (IH (render st s) (before ++ [s])).
      * rewrite Hl, <- app_assoc. reflexivity.
      * rewrite Hh, Hst. unfold appendSample.
        apply slice_last_snoc. unfold maxDataPoints. lia.
    + rewrite (IH (render st s) before).
      * rewrite Hl. reflexivity.
      * rewrite Hh. exact Hst.
Qed.

(** Samples without a repeat between two consecutive renders: the
    effect sees every strictly positive one. *)
Lemma appended_no_repeat samples : forall dep,
  (forall i a b, (dep :: map Some samples) !! i = Some a ->
                 map Some samples !! i = Some b -> a <> b) ->
  appended dep samples = positives samples.
Proof.
  induction samples as [|s rest IH]; intros dep Hne; [reflexivity|].
  simpl. unfold positives. rewrite filter_cons.
  assert (Hd : dep <> Some s) by (apply (Hne 0%nat); reflexivity).
  destruct (decide (0 < s)).
  - rewrite bool_decide_eq_true_2 by tauto. f_equal.
    apply IH. intros i a b Ha Hb. exact (Hne (S i) a b Ha Hb).
  - rewrite bool_decide_eq_false_2 by tauto.
    apply IH. intros i a b Ha Hb. exact (Hne (S i) a b Ha Hb).
Qed.

(** One more sample: the oldest entry leaves when the history is full. *)
Lemma appendSample_fifo cur prev :
  (length prev <= maxDataPoints)%nat ->
  appendSample cur prev
  = if decide (length prev = maxDataPoints)
    then skipn 1 prev ++ [cur] else prev ++ [cur].
Proof.
  intros Hlen. unfold appendSample, JS.slice_last.
  rewrite length_app. simpl length.
  destruct (decide (length prev = maxDataPoints)) as [Hfull|Hroom].
  - rewrite Hfull.
    replace (maxDataPoints + 1 - maxDataPoints)%nat with 1%nat by lia.
    rewrite skipn_app.
    replace (1 - length prev)%nat with 0%nat
      by (rewrite Hfull; unfold maxDataPoints; lia).
    reflexivity.
  - replace (length prev + 1 - maxDataPoints)%nat with 0%nat by lia.
    reflexivity.
Qed.

(** C1, as the code has it: for every sequence of values of
    [currentDecibel] the chart is rendered with, the history never holds
    more than 100 entries, its length is the minimum of 100 and the
    number of appended samples, and it consists of the most recent
    appended samples in arrival order; a sample is appended when it is
    strictly positive and differs from the value of the previous
    render. *)
Theorem history_is_window_of_appended (samples : list R) :
  (length (decibelHistory (run initial samples)) <= maxDataPoints)%nat
  /\ length (decibelHistory (run initial samples))
     = Nat.min (length (appended None samples)) maxDataPoints
  /\ decibelHistory (run initial samples)
     = JS.slice_last maxDataPoints (appended None samples).
Proof.
  assert (H : decibelHistory (run initial samples)
              = JS.slice_last maxDataPoints (appended None samples)).
  { apply (run_window samples initial []). reflexivity. }
  rewrite H, slice_last_length. repeat split; lia.
Qed.

(** C1 as stated fails: the same positive level at two consecutive
    renders is stored once, so the history is shorter than the number of
    positive samples. *)
Lemma history_repeated_sample_stored_once :
  decibelHistory (run initial [50; 50]) = [50]
  /\ length (decibelHistory (run initial [50; 50])) = 1%nat
  /\ Nat.min (length (positives [50; 50])) maxDataPoints = 2%nat.
Proof.
  assert (H : decibelHistory (run initial [50; 50]) = [50]).
  { rewrite (run_window [50; 50] initial []) by reflexivity. simpl.
    rewrite bool_decide_eq_true_2 by (split; [congruence | lra]).
    rewrite bool_decide_eq_false_2 by tauto.
    reflexivity. }
  rewrite H. repeat split.
  unfold positives. rewrite !filter_cons, filter_nil.
  destruct (decide (0 < 50)); [reflexivity | lra].
Qed.

End DecibelChartFacts.

(** ** SonarView: the listener stays on the canvas *)

Section SonarViewListener.
Import SonarView.

Lemma clamp_bounds (v hi : R) :
  20 <= hi -> 20 <= Rmax 20 (Rmin v hi) <= hi.
Proof.
  intros Hhi. split.
  - apply Rmax_l.
  - apply Rmax_lub; [exact Hhi | apply Rmin_r].
Qed.

Lemma initial_inBounds : inBounds (listenerPosition initial).
Proof. unfold inBounds, canvasWidth, canvasHeight. simpl. lra. Qed.

Lemma step_inBounds st e :
  inBounds (listenerPosition st) -> inBounds (listenerPosition (step st e)).
Proof.
  intros Hst. destruct e as [px py|px py| | |]; simpl; try exact Hst.
  - unfold handleMouseDown.
    destruct (decide (_ <= 15)); [exact Hst | exact Hst].
  - unfold handleMouseMove.
    destruct (isDragging st); simpl; [|exact Hst].
    unfold inBounds, canvasWidth, canvasHeight. simpl.
    split; apply clamp_bounds; lra.
Qed.

Lemma trace_inBounds events : forall st,
  inBounds (listenerPosition st) ->
  Forall (fun s => inBounds (listenerPosition s)) (trace st events).
Proof.
  induction events as [|e rest IH]; intros st Hst; simpl.
  - constructor.
  - constructor; [|apply IH]; apply step_inBounds; exact Hst.
Qed.

(** C2: at the start and after every event of any sequence of pointer
    events (and pulse ticks), the listener position has
    20 <= x <= width - 20 and 20 <= y <= height - 20 on the 500 by 500
    canvas. *)
Theorem listener_stays_in_bounds (events : list event) :
  Forall (fun st =>
            20 <= x (listenerPosition st) <= 500 - 20
            /\ 20 <= y (listenerPosition st) <= 500 - 20)
         (initial :: trace initial events).
Proof.
  constructor.
  - simpl. lra.
  - apply (trace_inBounds events initial initial_inBounds).
Qed.

(** A drag that leaves the canvas: the listener stops at the margin. *)
Example drag_beyond_corner :
  listenerPosition
    (run initial [MouseDown 250 250; MouseMove 700 (-30); MouseUp])
  = mkPoint 480 20.
Proof.
  unfold run. simpl. unfold handleMouseDown. simpl.
  destruct (decide (_ <= 15)) as [_|Hn].
  - unfold handleMouseUp, handleMouseMove, canvasWidth, canvasHeight.
    simpl. f_equal.
    + rewrite Rmin_right by lra. rewrite Rmax_right by lra. lra.
    + rewrite Rmin_left by lra. rewrite Rmax_left by lra. lra.
  - exfalso. apply Hn.
    match goal with
    | |- sqrt ?e <= _ => replace e with 0 by (simpl; lra)
    end.
    rewrite sqrt_0. lra.
Qed.

End SonarViewListener.

(** ** AudioRecorder: the loudness of one tick *)

Section Loudness.
Import AudioRecorder.

Lemma sum_from (dataArray : list byte) : forall acc,
  fold_left (fun acc val => (acc + Z.of_N (Byte.to_N val))%Z) dataArray acc
  = (acc + sum dataArray)%Z.
Proof.
  unfold sum. induction dataArray as [|b rest IH]; intros acc.
  - simpl. lia.
  - cbn [fold_left]. rewrite IH, (IH (0 + _)%Z). lia.
Qed.

Lemma sum_cons b rest : sum (b :: rest) = (Z.of_N (Byte.to_N b) + sum rest)%Z.
Proof. unfold sum at 1. simpl. rewrite sum_from. lia. Qed.

Lemma sum_nonneg dataArray : (0 <= sum dataArray)%Z.
Proof.
  induction dataArray as [|b rest IH]; [unfold sum; simpl; lia|].
  rewrite sum_cons. lia.
Qed.

Lemma sum_constant b dataArray :
  Forall (fun v => v = b) dataArray ->
  sum dataArray = (Z.of_N (Byte.to_N b) * Z.of_nat (length dataArray))%Z.
Proof.
  induction 1 as [|v rest Hv _ IH]; [unfold sum; simpl; lia|].
  rewrite sum_cons, IH, Hv. simpl length. lia.
Qed.

Lemma length_pos_INR (dataArray : list byte) :
  dataArray <> [] -> 0 < INR (length dataArray).
Proof.
  intros Hne. destruct dataArray; [congruence|].
  apply lt_0_INR. simpl. lia.
Qed.

Lemma mean_nonneg dataArray : dataArray <> [] -> 0 <= mean dataArray.
Proof.
  intros Hne. unfold mean.
  apply Rmult_le_pos.
  - apply IZR_le, sum_nonneg.
  - left. apply Rinv_0_lt_compat, length_pos_INR, Hne.
Qed.

Lemma analyze_positive dataArray :
  dataArray <> [] -> 0 < mean dataArray ->
  analyze dataArray = JS.Fin (decibelFormula (mean dataArray)).
Proof.
  intros Hne Hpos. pose proof (length_pos_INR dataArray Hne) as Hlen.
  unfold analyze, JS.div.
  destruct (decide (INR (length dataArray) = 0)) as [H0|_]; [lra|].
  fold (mean dataArray). simpl. unfold JS.log10.
  destruct (decide (0 < mean dataArray / 255)) as [_|Hn].
  - reflexivity.
  - exfalso. apply Hn. apply Rdiv_lt_0_compat; lra.
Qed.

Lemma analyze_zero dataArray :
  dataArray <> [] -> mean dataArray = 0 -> analyze dataArray = JS.Fin 0.
Proof.
  intros Hne Hz. pose proof (length_pos_INR dataArray Hne) as Hlen.
  unfold analyze, JS.div.
  destruct (decide (INR (length dataArray) = 0)) as [H0|_]; [lra|].
  fold (mean dataArray). rewrite Hz. simpl. unfold JS.log10.
  destruct (decide (0 < 0 / 255)) as [Hp|_]; [lra|].
  destruct (decide (0 / 255 = 0)) as [_|Hn]; [reflexivity|lra].
Qed.

Lemma mean_constant b dataArray :
  dataArray <> [] -> Forall (fun v => v = b) dataArray ->
  mean dataArray = IZR (Z.of_N (Byte.to_N b)).
Proof.
  intros Hne Hall. pose proof (length_pos_INR dataArray Hne) as Hlen.
  unfold mean. rewrite (sum_constant b dataArray Hall).
  rewrite mult_IZR, <- INR_IZR_INZ. field. lra.
Qed.

(** C3: for every non-empty array of byte magnitudes, the loudness given to
    [onDecibelUpdate] is max(0, 20 * log10(mean / 255) + 100) when the mean
    is positive and 0 when the mean is 0; it is a finite number that is at
    least 0; an all-zero array gives exactly 0 and an all-255 array exactly
    100. *)
Theorem loudness_of_tick (dataArray : list byte) (Hne : dataArray <> []) :
  (0 < mean dataArray ->
     analyze dataArray = JS.Fin (decibelFormula (mean dataArray)))
  /\ (mean dataArray = 0 -> analyze dataArray = JS.Fin 0)
  /\ (exists r, analyze dataArray = JS.Fin r /\ 0 <= r)
  /\ (Forall (fun v => v = x00) dataArray -> analyze dataArray = JS.Fin 0)
  /\ (Forall (fun v => v = xff) dataArray -> analyze dataArray = JS.Fin 100).
Proof.
  split; [apply analyze_positive, Hne|].
  split; [apply analyze_zero, Hne|].
  split; [|split].
  - destruct (mean_nonneg dataArray Hne) as [Hpos|Hz].
    + exists (decibelFormula (mean dataArray)).
      split; [apply analyze_positive; assumption|]. apply Rmax_l.
    + exists 0. split; [apply analyze_zero; [exact Hne | lra] | lra].
  - intros Hall. apply analyze_zero; [exact Hne|].
    rewrite (mean_constant x00 dataArray Hne Hall). reflexivity.
  - intros Hall.
    assert (Hm : mean dataArray = 255).
    { rewrite (mean_constant xff dataArray Hne Hall). reflexivity. }
    rewrite analyze_positive by (try exact Hne; lra).
    rewrite Hm. unfold decibelFormula.
    replace (255 / 255) with 1 by (field; lra).
    rewrite ln_1. unfold Rdiv. rewrite Rmult_0_l, Rmult_0_r, Rplus_0_l.
    f_equal. apply Rmax_right. lra.
Qed.

(** A tick over an analyser whose four bins are all 255. *)
Lemma loudness_of_tick_witness :
  [xff; xff; xff; xff] <> []
  /\ analyze [xff; xff; xff; xff] = JS.Fin 100.
Proof.
  assert (Hne : [xff; xff; xff; xff] <> []) by discriminate.
  split; [exact Hne|].
  apply (loudness_of_tick [xff; xff; xff; xff] Hne).
  repeat constructor.
Defined.

(** Without a bin the mean is 0 / 0: the value is NaN. *)
Example analyze_no_bin : analyze [] = JS.NaN.
Proof.
  unfold analyze, JS.div, sum. simpl.
  destruct (decide (0 = 0)) as [_|Hn]; [|congruence].
  destruct (decide (0 = 0)) as [_|Hn]; [|congruence].
  reflexivity.
Qed.

End Loudness.

(** ** AudioAnalyzer: the noise level of the result record *)

Section NoiseLevel.
Import AudioAnalyzer.

Lemma backgroundNoise_from audioSources : forall acc,
  fold_left
    (fun sum s => sum + (if decide (type s = ambient) then decibel s else 0))
    audioSources acc
  = acc + ambientDecibels audioSources.
Proof.
  unfold ambientDecibels.
  induction audioSources as [|s rest IH]; intros acc; simpl.
  - lra.
  - rewrite IH, filter_cons.
    destruct (decide (type s = ambient)); simpl; lra.
Qed.

Lemma backgroundNoise_ambient audioSources :
  backgroundNoise audioSources = ambientDecibels audioSources.
Proof. unfold backgroundNoise. rewrite backgroundNoise_from. lra. Qed.

(** C10: whatever the random draws, the noiseLevel of the analysis result
    is 0 for an empty source list, and otherwise the sum of the decibel
    values of the ambient sources divided by the number of all sources. *)
Theorem noiseLevel_is_ambient_sum_over_all
    (audioSources : list AudioSource) (rnd : Random.oracle) :
  noiseLevel <$> Random.run (generateAnalysisResults audioSources) rnd
  = Some (if decide (audioSources = [])
          then JS.Fin 0
          else JS.Fin (ambientDecibels audioSources
                       / INR (length audioSources))).
Proof.
  unfold generateAnalysisResults, Random.run, Random.bind, Random.random,
    Random.ret.
  simpl. f_equal. rewrite backgroundNoise_ambient.
  destruct (decide (audioSources = [])) as [->|Hne].
  - unfold ambientDecibels, JS.div. simpl.
    destruct (decide (0 = 0)) as [_|Hn]; [|congruence]. reflexivity.
  - assert (Hlen : 0 < INR (length audioSources)).
    { destruct audioSources; [congruence|]. apply lt_0_INR. simpl. lia. }
    unfold JS.div.
    destruct (decide (INR (length audioSources) = 0)) as [H0|_]; [lra|].
    unfold JS.or_zero.
    destruct (decide (_ = 0)) as [Hz|_]; [rewrite Hz|]; reflexivity.
Qed.

(** One ambient source among four: its level is divided by 4, not by 1. *)
Example noiseLevel_one_of_four (rnd : Random.oracle) :
  let src t d :=
    mkAudioSource "s" "S" t d 440 (mkPosition 0 0 0) 1 true (Hex "#000000") in
  noiseLevel <$>
    Random.run
      (generateAnalysisResults
         [src noise 70; src ambient 40; src voice 60; src music 50]) rnd
  = Some (JS.Fin 10).
Proof.
  unfold generateAnalysisResults, Random.run, Random.bind, Random.random,
    Random.ret.
  cbn -[INR]. f_equal.
  unfold JS.div.
  destruct (decide (INR 4 = 0)) as [H0|_]; [simpl in H0; lra|].
  unfold JS.or_zero.
  destruct (decide (_ = 0)) as [Hz|_]; [simpl in Hz; lra|].
  f_equal. simpl. lra.
Qed.

End NoiseLevel.

(** ** AudioAnalyzer: the progress bar *)

Section ProgressStage.
Import AudioAnalyzer.

Variables (startTime : Z) (stage : Stage) (totalProgress totalDur : R).
Hypothesis Hduration : (0 < duration stage)%Z.
Hypothesis HtotalDur : 0 < totalDur.

Let v := stageValue startTime stage totalProgress totalDur.
Let w := IZR (duration stage) / totalDur * 100.

Lemma duration_pos : 0 < IZR (duration stage).
Proof. apply IZR_lt. exact Hduration. Qed.

Lemma stage_weight_pos : 0 < w.
Proof.
  unfold w. pose proof duration_pos.
  apply Rmult_lt_0_compat; [|lra].
  apply Rdiv_lt_0_compat; assumption.
Qed.

Lemma stageValue_split t :
  v t = totalProgress
        + Rmin (IZR (t - startTime) / IZR (duration stage)) 1 * w.
Proof. unfold v, stageValue, w. ring. Qed.

Lemma stageValue_mono t1 t2 : (t1 <= t2)%Z -> v t1 <= v t2.
Proof.
  intros Hle. rewrite !stageValue_split.
  pose proof stage_weight_pos. pose proof duration_pos.
  apply Rplus_le_compat_l, Rmult_le_compat_r; [lra|].
  apply Rle_min_compat_r.
  apply Rmult_le_compat_r.
  - left. apply Rinv_0_lt_compat. assumption.
  - apply IZR_le. lia.
Qed.

Lemma stageValue_lower t : (startTime <= t)%Z -> totalProgress <= v t.
Proof.
  intros Hle. rewrite stageValue_split.
  pose proof stage_weight_pos. pose proof duration_pos.
  assert (0 <= Rmin (IZR (t - startTime) / IZR (duration stage)) 1).
  { apply Rmin_glb; [|lra].
    apply Rmult_le_pos.
    - apply IZR_le. lia.
    - left. apply Rinv_0_lt_compat. assumption. }
  nra.
Qed.

Lemma stageValue_upper t : v t <= totalProgress + w.
Proof.
  rewrite stageValue_split. pose proof stage_weight_pos.
  pose proof (Rmin_r (IZR (t - startTime) / IZR (duration stage)) 1).
  nra.
Qed.

Lemma stageValue_full t :
  v t = totalProgress + w -> (startTime + duration stage <= t)%Z.
Proof.
  rewrite stageValue_split. intros Heq.
  pose proof stage_weight_pos as Hw. pose proof duration_pos as Hd.
  assert (Hmin : Rmin (IZR (t - startTime) / IZR (duration stage)) 1 = 1)
    by nra.
  assert (Hq : 1 <= IZR (t - startTime) / IZR (duration stage)).
  { rewrite <- Hmin at 1. apply Rmin_l. }
  assert (Hz : IZR (duration stage) <= IZR (t - startTime)).
  { apply (Rmult_le_compat_r (IZR (duration stage))) in Hq; [|lra].
    unfold Rdiv in Hq. rewrite Rmult_assoc, Rinv_l in Hq by lra. lra. }
  apply le_IZR in Hz. lia.
Qed.

(** The polling loop of one stage, over an ordered clock whose readings are
    not before the start of the stage. *)
Lemma poll_facts n : forall clock reports remaining,
  (length clock <= n)%nat ->
  StronglySorted Z.le clock ->
  Forall (fun t => (startTime <= t)%Z) clock ->
  poll startTime stage totalProgress totalDur clock = (reports, remaining) ->
  Forall (fun r => exists t, r = (Some t, v t) /\ t ∈ clock) reports
  /\ StronglySorted valueLe reports
  /\ (forall clock2, remaining = Some clock2 ->
        StronglySorted Z.le clock2
        /\ Forall (fun t => (startTime + duration stage <= t)%Z) clock2).
Proof.
  induction n as [|n IH]; intros clock reports remaining Hlen Hsorted Hge Hpoll.
  - destruct clock; [|simpl in Hlen; lia].
    simpl in Hpoll. injection Hpoll as <- <-.
    split; [constructor | split; [constructor | discriminate]].
  - destruct clock as [|now clock1].
    { simpl in Hpoll. injection Hpoll as <- <-.
      split; [constructor | split; [constructor | discriminate]]. }
    simpl in Hpoll.
    apply StronglySorted_inv in Hsorted as [Hsorted1 Hnow].
    destruct (decide (now < startTime + duration stage)%Z) as [Hlt|Hnlt].
    + destruct clock1 as [|now' clock2].
      { injection Hpoll as <- <-.
        split; [constructor | split; [constructor | discriminate]]. }
      destruct (poll startTime stage totalProgress totalDur clock2)
        as [reports' remaining'] eqn:Hrec.
      injection Hpoll as <- <-.
      apply StronglySorted_inv in Hsorted1 as [Hsorted2 Hnow'].
      apply Forall_cons_1 in Hge as [_ Hge].
      apply Forall_cons_1 in Hge as [Hge' Hge].
      destruct (IH clock2 reports' remaining') as (P1 & P2 & P3);
        [simpl in Hlen; lia | assumption | assumption | assumption |].
      split; [|split].
      * constructor.
        -- exists now'. split; [reflexivity|].
           apply list_elem_of_further, list_elem_of_here.
        -- eapply Forall_impl; [exact P1|].
           intros r (t & -> & Hin). exists t. split; [reflexivity|].
           do 2 apply list_elem_of_further. exact Hin.
      * constructor; [exact P2|].
        rewrite Forall_forall in P1 |- *. intros r Hr.
        destruct (P1 r Hr) as (t & -> & Hin).
        unfold valueLe. simpl. apply stageValue_mono.
        rewrite Forall_forall in Hnow'. apply Hnow', Hin.
      * exact P3.
    + injection Hpoll as <- <-.
      split; [constructor|]. split; [constructor|].
      intros clock2 [= <-]. split; [exact Hsorted1|].
      eapply Forall_impl; [exact Hnow|]. simpl. intros t Ht. lia.
Qed.

End ProgressStage.

Section ProgressRun.
Import AudioAnalyzer.

Variable totalDur : R.
Hypothesis HtotalDur : 0 < totalDur.

Lemma totalDuration_from stages : forall acc,
  fold_left (fun sum stage => (sum + duration stage)%Z) stages acc
  = (acc + totalDuration stages)%Z.
Proof.
  unfold totalDuration.
  induction stages as [|stage rest IH]; intros acc.
  - simpl. lia.
  - cbn [fold_left]. rewrite IH, (IH (0 + _)%Z). lia.
Qed.

Lemma totalDuration_cons stage rest :
  totalDuration (stage :: rest) = (duration stage + totalDuration rest)%Z.
Proof.
  unfold totalDuration at 1. cbn [fold_left].
  rewrite totalDuration_from. lia.
Qed.

Lemma totalDuration_nonneg stages :
  Forall (fun s => (0 < duration s)%Z) stages ->
  (0 <= totalDuration stages)%Z.
Proof.
  induction 1 as [|stage rest Hd _ IH]; [unfold totalDuration; simpl; lia|].
  rewrite totalDuration_cons. lia.
Qed.

Lemma weightOf_cons stage rest :
  weightOf (stage :: rest) totalDur
  = IZR (duration stage) / totalDur * 100 + weightOf rest totalDur.
Proof.
  unfold weightOf. rewrite totalDuration_cons, plus_IZR. field. lra.
Qed.

Lemma weightOf_nonneg stages :
  Forall (fun s => (0 < duration s)%Z) stages ->
  0 <= weightOf stages totalDur.
Proof.
  intros Hpos. unfold weightOf.
  apply totalDuration_nonneg, IZR_le in Hpos.
  apply Rmult_le_pos; [|lra].
  apply Rmult_le_pos; [exact Hpos|].
  left. apply Rinv_0_lt_compat. exact HtotalDur.
Qed.

Lemma weightOf_zero stages :
  Forall (fun s => (0 < duration s)%Z) stages ->
  weightOf stages totalDur <= 0 -> totalDuration stages = 0%Z.
Proof.
  intros Hpos Hle. pose proof (totalDuration_nonneg stages Hpos) as Hnn.
  apply IZR_le in Hnn.
  assert (Hz : IZR (totalDuration stages) <= 0).
  { unfold weightOf in Hle.
    assert (Hinv : 0 < / totalDur) by (apply Rinv_0_lt_compat; exact HtotalDur).
    unfold Rdiv in Hle. nra. }
  apply eq_IZR. lra.
Qed.

(** The reports of the polling loop of the first of the remaining
    stages. *)
Lemma stage_reports stage rest startTime tp clock1 reports :
  (0 < duration stage)%Z ->
  Forall (fun s => (0 < duration s)%Z) rest ->
  Forall (fun t => (startTime <= t)%Z) clock1 ->
  Forall (fun r => exists t,
            r = (Some t, stageValue startTime stage tp totalDur t)
            /\ t ∈ clock1) reports ->
  Forall (fun r =>
            tp <= snd r <= tp + IZR (duration stage) / totalDur * 100)
         reports
  /\ Forall (fun r =>
               snd r = tp + weightOf (stage :: rest) totalDur ->
               completesAfter (startTime :: clock1)
                              (totalDuration (stage :: rest)) r)
            reports.
Proof.
  intros Hd Hpos Hge P1.
  rewrite Forall_forall in Hge.
  split; (eapply Forall_impl; [exact P1|]); intros r (t & -> & Hin); simpl.
  - split.
    + apply stageValue_lower; auto.
    + apply stageValue_upper; auto.
  - intros Hfull.
    pose proof (stageValue_upper startTime stage tp totalDur Hd HtotalDur t)
      as Hup.
    pose proof (weightOf_nonneg rest Hpos) as Hnn.
    rewrite weightOf_cons in Hfull.
    assert (Hrest : totalDuration rest = 0%Z)
      by (apply weightOf_zero; [exact Hpos | lra]).
    assert (Hw0 : weightOf rest totalDur = 0).
    { unfold weightOf. rewrite Hrest. unfold Rdiv. ring. }
    exists startTime, clock1, t. split; [reflexivity|]. split; [reflexivity|].
    rewrite totalDuration_cons, Hrest, Z.add_0_r.
    apply (stageValue_full startTime stage tp totalDur Hd HtotalDur). lra.
Qed.

Lemma runStages_facts stages : forall tp clock,
  Forall (fun s => (0 < duration s)%Z) stages ->
  StronglySorted Z.le clock ->
  Forall (fun r => tp <= snd r <= tp + weightOf stages totalDur)
         (runStages stages tp totalDur clock)
  /\ StronglySorted valueLe (runStages stages tp totalDur clock)
  /\ Forall (fun r =>
               snd r = tp + weightOf stages totalDur ->
               completesAfter clock (totalDuration stages) r)
            (runStages stages tp totalDur clock).
Proof.
  induction stages as [|stage rest IH]; intros tp clock Hpos Hsorted.
  { simpl. split; [constructor | split; constructor]. }
  destruct clock as [|startTime clock1].
  { simpl. split; [constructor | split; constructor]. }
  simpl.
  destruct (poll startTime stage tp totalDur clock1)
    as [reports remaining] eqn:Hpoll.
  apply Forall_cons_1 in Hpos as [Hd Hpos].
  apply StronglySorted_inv in Hsorted as [Hsorted1 Hge].
  destruct (poll_facts startTime stage tp totalDur Hd HtotalDur
              (length clock1) clock1 reports remaining)
    as (P1 & P2 & P3); [lia | assumption | assumption | assumption |].
  destruct (stage_reports stage rest startTime tp clock1 reports
              Hd Hpos Hge P1) as [S1 S3].
  pose proof (weightOf_nonneg rest Hpos) as Hnn.
  assert (S1' : Forall (fun r =>
             tp <= snd r <= tp + weightOf (stage :: rest) totalDur) reports).
  { eapply Forall_impl; [exact S1|]. simpl. intros r Hr.
    rewrite weightOf_cons. lra. }
  destruct remaining as [clock2|]; [|auto].
  destruct (P3 clock2 eq_refl) as [Hsorted2 Hge2].
  destruct (IH (tp + IZR (duration stage) / totalDur * 100) clock2
              Hpos Hsorted2) as (Q1 & Q2 & Q3).
  split; [|split].
  - apply Forall_app. split; [exact S1'|].
    eapply Forall_impl; [exact Q1|]. simpl. intros r Hr.
    rewrite weightOf_cons.
    pose proof (duration_pos stage Hd) as Hdp.
    assert (0 <= IZR (duration stage) / totalDur * 100).
    { apply Rmult_le_pos; [|lra]. apply Rmult_le_pos; [lra|].
      left. apply Rinv_0_lt_compat. exact HtotalDur. }
    lra.
  - apply StronglySorted_app_2; [|exact P2|exact Q2].
    intros r1 r2 Hr1 Hr2.
    rewrite Forall_forall in S1, Q1.
    specialize (S1 r1 Hr1). specialize (Q1 r2 Hr2).
    unfold valueLe. lra.
  - apply Forall_app. split; [exact S3|].
    eapply Forall_impl; [exact Q3|]. simpl. intros r Hr Hfull.
    rewrite weightOf_cons in Hfull.
    destruct Hr as (t0 & rest' & t & -> & Hfst & Hle); [lra|].
    apply Forall_cons_1 in Hge2 as [Hge2 _].
    exists startTime, clock1, t.
    split; [reflexivity|]. split; [exact Hfst|].
    rewrite totalDuration_cons. lia.
Qed.

End ProgressRun.

Section ProgressBar.
Import AudioAnalyzer.

Lemma analysisStages_positive :
  Forall (fun s => (0 < duration s)%Z) analysisStages.
Proof. repeat constructor. Qed.

Lemma analysisStages_total : totalDuration analysisStages = 7000%Z.
Proof. reflexivity. Qed.

Lemma finalProgress_from stages totalDur : forall acc,
  fold_left
    (fun totalProgress stage =>
       totalProgress + IZR (duration stage) / totalDur * 100)
    stages acc
  = acc + weightOf stages totalDur.
Proof.
  induction stages as [|stage rest IH]; intros acc.
  - unfold weightOf, totalDuration. simpl. unfold Rdiv. ring.
  - cbn [fold_left]. rewrite IH. unfold weightOf.
    rewrite (totalDuration_cons stage rest), plus_IZR. unfold Rdiv. ring.
Qed.

Lemma finalProgress_weight stages totalDur :
  finalProgress stages totalDur = weightOf stages totalDur.
Proof. unfold finalProgress. rewrite finalProgress_from. ring. Qed.


Lemma sampleClock_sorted : Sorted Z.le sampleClock.
Proof. unfold sampleClock. repeat constructor; lia. Defined.


(** On that clock the bar is reset to 0 and then set once, from the
    reading 7010, to the value it is left at. *)
Example sampleClock_reports :
  exists p, startAnalysis sampleClock = [(None, 0); (Some 7010%Z, p)]
            /\ p = finalProgress analysisStages
                     (IZR (totalDuration analysisStages)).
Proof.
  eexists. split; [reflexivity|].
  rewrite finalProgress_weight. unfold weightOf.
  rewrite Rmin_right.
  - change (totalDuration analysisStages) with 7000%Z.
    cbn [duration]. lra.
  - cbn [duration]. apply Rmult_le_reg_r with (r := 500); [lra|].
    unfold Rdiv. rewrite Rmult_assoc, Rinv_l by lra.
    replace (7010 - 6500)%Z with 510%Z by reflexivity. lra.
Qed.


End ProgressBar.

(** ** SonarView: where markers and labels are drawn *)

Section SonarPlacement.
Import SonarView.

Lemma digitsValue_digits s : forall acc,
  digitsValue acc (stripNonDigits s)
  = fold_left (fun a d => (10 * a + d)%N) (digitsOf s) acc.
Proof.
  induction s as [|c rest IH]; intros acc; simpl; [reflexivity|].
  destruct (isDigit c); simpl; apply IH.
Qed.

Lemma stripNonDigits_empty s :
  stripNonDigits s = EmptyString -> digitsOf s = [].
Proof.
  induction s as [|c rest IH]; simpl; [reflexivity|].
  destruct (isDigit c); [discriminate | exact IH].
Qed.

(** [parseInt(id.replace(/\D/g, '')) || 0] is the integer the digits of
    the identifier form, 0 when it has none. *)
Lemma idHash_digits s :
  orZero (parseInt (stripNonDigits s)) = numberOfDigits (digitsOf s).
Proof.
  unfold parseInt, numberOfDigits.
  destruct (stripNonDigits s) as [|c rest] eqn:Hs.
  - rewrite (stripNonDigits_empty s Hs). reflexivity.
  - unfold orZero. rewrite <- Hs. apply digitsValue_digits.
Qed.

(** The identifier file-1-source-2 has the digits 1 and 2: the marker is at
    the angle 6; an identifier without a digit gives the angle 0. *)
Example markerAngle_sample :
  markerAngle sampleSource = 6
  /\ markerAngle (mkAudioSource "mic" "Mic" voice 60 440
                    (mkPosition 0 0 0) 4 true (Hex "#4ecdc4")) = 0.
Proof.
  unfold markerAngle, NtoR.
  change (orZero (parseInt (stripNonDigits (id sampleSource)))) with 12%N.
  simpl. split; lra.
Qed.

End SonarPlacement.

(** ** The empty source list *)

Section EmptySourceList.

(** C7: with no source, [animate] completes a frame made of the
    background, the five range circles and the listener (and the pulse
    while recording), without a marker or a label and with the store
    untouched, and the report is the view "No Analysis Data Available";
    neither evaluates a quotient by the length of the list or a maximum of
    no argument. *)
Theorem empty_source_list_is_handled
    (st : SonarView.state) (h : Store.store) (isRecording : bool)
    (analysisData : option AudioAnalyzer.AnalysisResults) (datasetSize : R) :
  SonarView.animate st h [] isRecording
  = ([SonarView.ClearRect 500 500; SonarView.Background 500 500]
       ++ SonarView.drawRangeCircles (SonarView.listenerPosition st)
       ++ [SonarView.Listener (SonarView.listenerPosition st)]
       ++ (if isRecording
           then SonarView.drawPulse st (SonarView.listenerPosition st)
           else []),
     h)
  /\ length (SonarView.drawRangeCircles (SonarView.listenerPosition st))
     = 5%nat
  /\ ReportGenerator.render [] analysisData datasetSize
     = ReportGenerator.NoAnalysisDataAvailable
  /\ App.reportView App.initial = ReportGenerator.NoAnalysisDataAvailable
  /\ snd (App.sonarFrame App.initial) = App.initial.
Proof.
  split; [|split; [|split; [|split]]]; try reflexivity.
  unfold SonarView.animate. simpl.
  destruct isRecording; reflexivity.
Qed.

(** What the guard of the report avoids: the mean and the maximum of no
    decibel value are NaN and minus infinity. *)
Example mean_and_max_of_nothing :
  JS.div (fold_left (fun sum s => sum + decibel s) [] 0) (INR 0) = JS.NaN
  /\ JS.maxOf (map decibel []) = JS.NegInf.
Proof.
  split; [|reflexivity].
  unfold JS.div. simpl.
  destruct (decide (0 = 0)) as [_|Hn]; [|congruence].
  destruct (decide (0 = 0)) as [_|Hn]; [|congruence].
  reflexivity.
Qed.

(** With a source the report is rendered with a finite mean. *)
Lemma report_nonempty s rest analysisData datasetSize :
  exists r,
    ReportGenerator.render (s :: rest) analysisData datasetSize
    = ReportGenerator.Rendered r
    /\ length (ReportGenerator.rows r) = length (s :: rest)
    /\ ReportGenerator.datasetMB r = datasetSize
    /\ exists m, ReportGenerator.averageDb r = JS.Fin m.
Proof.
  unfold ReportGenerator.render.
  destruct (decide (length (s :: rest) = 0%nat)) as [H0|_];
    [discriminate|].
  eexists. split; [reflexivity|]. cbn [ReportGenerator.rows
    ReportGenerator.datasetMB ReportGenerator.averageDb].
  split; [apply length_map|]. split; [reflexivity|].
  unfold JS.div.
  assert (Hlen : 0 < INR (length (s :: rest)))
    by (apply lt_0_INR; simpl; lia).
  destruct (decide (INR (length (s :: rest)) = 0)) as [H0|_]; [lra|].
  eexists. reflexivity.
Qed.

End EmptySourceList.

(** ** App: what happens to a source between two analyses *)

Section SourceLifetime.

Lemma sameIdentity_refl s : sameIdentity s s.
Proof. unfold sameIdentity. tauto. Qed.

Lemma samePosFree_refl s : samePosFree s s.
Proof. split; [apply sameIdentity_refl | reflexivity]. Qed.

Lemma samePosFree_trans s1 s2 s3 :
  samePosFree s1 s2 -> samePosFree s2 s3 -> samePosFree s1 s3.
Proof.
  unfold samePosFree, sameIdentity. intros H1 H2.
  destruct H1 as ((?&?&?&?&?&?&?)&?), H2 as ((?&?&?&?&?&?&?)&?).
  repeat split; congruence.
Qed.

Lemma Forall2_same {A} (P : A -> A -> Prop) (l : list A) :
  (forall a, P a a) -> Forall2 P l l.
Proof. intros HP. induction l; constructor; auto. Qed.

Lemma Forall2_chain {A} (P : A -> A -> Prop) (l1 l2 l3 : list A) :
  (forall a b c, P a b -> P b c -> P a c) ->
  Forall2 P l1 l2 -> Forall2 P l2 l3 -> Forall2 P l1 l3.
Proof.
  intros HP H12. revert l3.
  induction H12 as [|a b l1 l2 Hab _ IH]; intros l3 H23;
    inversion H23; subst; constructor; eauto.
Qed.

(** *** The store under a frame of the SonarView *)

Lemma modify_related (P : AudioSource -> AudioSource -> Prop) h l f :
  (forall o, P o o) -> (forall o, P o (f o)) ->
  Forall2 P h (Store.modify h l f).
Proof.
  intros Hrefl Hf. unfold Store.modify.
  destruct (h !! l) as [o|] eqn:Hl; [|apply Forall2_same, Hrefl].
  revert l Hl. induction h as [|a h IH]; intros l Hl; [discriminate|].
  destruct l as [|l]; simpl in *.
  - injection Hl as ->. constructor; [apply Hf | apply Forall2_same, Hrefl].
  - constructor; [apply Hrefl | apply IH, Hl].
Qed.

Lemma drawAudioSource_store h l center :
  Forall2 samePosFree h (snd (SonarView.drawAudioSource h l center)).
Proof.
  unfold SonarView.drawAudioSource.
  destruct (Store.read h l) as [source|];
    [|apply Forall2_same, samePosFree_refl].
  cbn [snd]. apply modify_related; [apply samePosFree_refl|].
  intros o. unfold samePosFree, sameIdentity. simpl. tauto.
Qed.

Lemma drawAudioSources_store refs : forall h center,
  Forall2 samePosFree h (snd (SonarView.drawAudioSources h refs center)).
Proof.
  induction refs as [|l rest IH]; intros h center; simpl.
  - apply Forall2_same, samePosFree_refl.
  - pose proof (drawAudioSource_store h l center) as H1.
    destruct (SonarView.drawAudioSource h l center) as [cmds h1].
    pose proof (IH h1 center) as H2.
    destruct (SonarView.drawAudioSources h1 rest center) as [cmds' h2].
    simpl in *. exact (Forall2_chain _ _ _ _ samePosFree_trans H1 H2).
Qed.

Lemma animate_store st h refs isRecording :
  Forall2 samePosFree h (snd (SonarView.animate st h refs isRecording)).
Proof.
  unfold SonarView.animate.
  pose proof (drawAudioSources_store refs h (SonarView.listenerPosition st))
    as H.
  destruct (SonarView.drawAudioSources h refs _) as [cmds h1].
  exact H.
Qed.

Lemma resolve_cons h l rest :
  Store.resolve h (l :: rest)
  = match h !! l with
    | Some o => o :: Store.resolve h rest
    | None => Store.resolve h rest
    end.
Proof. reflexivity. Qed.

Lemma resolve_related (P : AudioSource -> AudioSource -> Prop) h h' refs :
  Forall2 P h h' ->
  Forall2 P (Store.resolve h refs) (Store.resolve h' refs).
Proof.
  intros Hh.
  induction refs as [|l rest IH]; [constructor|].
  rewrite !resolve_cons.
  destruct (h !! l) as [o|] eqn:Hl.
  - destruct (Forall2_lookup_l _ _ _ _ _ Hh Hl) as (o' & Hl' & Ho).
    rewrite Hl'. constructor; assumption.
  - assert (Hl' : h' !! l = None).
    { apply lookup_ge_None. rewrite <- (Forall2_length _ _ _ Hh).
      apply lookup_ge_None. exact Hl. }
    rewrite Hl'. exact IH.
Qed.

(** *** Allocation *)

Lemma allocAll_spec objs : forall h,
  Store.allocAll h objs = (seq (length h) (length objs), h ++ objs).
Proof.
  induction objs as [|o rest IH]; intros h; simpl.
  - rewrite app_nil_r. reflexivity.
  - rewrite IH, length_app, <- app_assoc. simpl.
    replace (length h + 1)%nat with (S (length h)) by lia. reflexivity.
Qed.

Lemma resolve_prefix h extra refs :
  Forall (fun l => (l < length h)%nat) refs ->
  Store.resolve (h ++ extra) refs = Store.resolve h refs.
Proof.
  induction 1 as [|l rest Hl _ IH]; [reflexivity|].
  rewrite !resolve_cons, lookup_app_l, IH by exact Hl. reflexivity.
Qed.

Lemma resolve_fresh objs : forall h,
  Store.resolve (h ++ objs) (seq (length h) (length objs)) = objs.
Proof.
  induction objs as [|o rest IH]; intros h; [reflexivity|].
  cbn [length seq]. rewrite resolve_cons.
  rewrite list_lookup_middle by reflexivity. f_equal.
  specialize (IH (h ++ [o])).
  rewrite length_app, <- app_assoc in IH. simpl in IH.
  replace (length h + 1)%nat with (S (length h)) in IH by lia.
  exact IH.
Qed.

(** *** The list under a visibility toggle *)

Lemma toggleRefs_spec soundId refs : forall h refs' h',
  Forall (fun l => (l < length h)%nat) refs ->
  App.toggleRefs h refs soundId = (refs', h') ->
  (exists extra, h' = h ++ extra)
  /\ Forall (fun l => (l < length h')%nat) refs'
  /\ Forall2 sameVisFree (Store.resolve h refs) (Store.resolve h' refs').
Proof.
  induction refs as [|l rest IH]; intros h refs' h' Hvalid Htoggle.
  - simpl in Htoggle. injection Htoggle as <- <-.
    split; [exists []; rewrite app_nil_r; reflexivity|].
    split; constructor.
  - apply Forall_cons_1 in Hvalid as [Hl Hvalid].
    destruct (lookup_lt_is_Some_2 h l Hl) as [source Hsource].
    simpl in Htoggle. unfold Store.read in Htoggle.
    rewrite Hsource in Htoggle.
    destruct (String.eqb (id source) soundId).
    + unfold Store.alloc in Htoggle.
      set (copy := mkAudioSource _ _ _ _ _ _ _ _ _) in Htoggle.
      destruct (App.toggleRefs (h ++ [copy]) rest soundId)
        as [refs'' h2] eqn:Hrec.
      injection Htoggle as <- <-.
      destruct (IH (h ++ [copy]) refs'' h2)
        as ((extra & ->) & Hvalid2 & Hrel); [|exact Hrec|].
      { eapply Forall_impl; [exact Hvalid|]. simpl. intros k Hk.
        rewrite length_app. simpl. lia. }
      split; [exists ([copy] ++ extra); rewrite app_assoc; reflexivity|].
      split.
      * constructor; [|exact Hvalid2].
        rewrite !length_app. simpl. lia.
      * rewrite resolve_prefix in Hrel by exact Hvalid.
        rewrite !resolve_cons, Hsource, <- app_assoc. cbn [app].
        rewrite list_lookup_middle by reflexivity.
        constructor.
        -- unfold sameVisFree, sameIdentity, copy. simpl. tauto.
        -- rewrite <- app_assoc in Hrel. exact Hrel.
    + destruct (App.toggleRefs h rest soundId) as [refs'' h2] eqn:Hrec.
      injection Htoggle as <- <-.
      destruct (IH h refs'' h2 Hvalid Hrec) as ((extra & ->) & Hvalid2 & Hrel).
      split; [exists extra; reflexivity|].
      split.
      * constructor; [|exact Hvalid2]. rewrite length_app. lia.
      * rewrite !resolve_cons, Hsource, lookup_app_l, Hsource by exact Hl.
        constructor; [|exact Hrel].
        split; [apply sameIdentity_refl | reflexivity].
Qed.

(** *** Reachable states are well formed *)

Lemma handleAudioAnalysis_sources st objs :
  App.sources (App.handleAudioAnalysis st objs) = objs
  /\ wellFormed (App.handleAudioAnalysis st objs).
Proof.
  unfold App.handleAudioAnalysis, App.sources, wellFormed.
  rewrite allocAll_spec. simpl. split; [apply resolve_fresh|].
  apply Forall_forall. intros l Hl.
  apply elem_of_seq in Hl. rewrite length_app. lia.
Qed.

Lemma applyUpdate_wellFormed st u :
  wellFormed st -> wellFormed (App.applyUpdate st u).
Proof.
  unfold wellFormed. intros Hwf.
  destruct u as [soundId| |e|size|data|b|]; simpl; try exact Hwf.
  - unfold App.toggleSoundVisibility.
    destruct (App.toggleRefs _ _ _) as [refs h] eqn:Htoggle. simpl.
    apply (toggleRefs_spec soundId _ _ refs h Hwf Htoggle).
  - unfold App.sonarFrame. destruct (App.showSonar st); [|exact Hwf].
    pose proof (animate_store (App.sonar st) (App.store st)
                  (App.visibleRefs st) (App.isRecording st)) as Hrel.
    destruct (SonarView.animate _ _ _ _) as [frame h]. simpl in *.
    rewrite <- (Forall2_length _ _ _ Hrel). exact Hwf.
  - destruct (App.showSonar st); exact Hwf.
Qed.

Lemma run_wellFormed actions : forall st,
  wellFormed st -> wellFormed (App.run st actions).
Proof.
  induction actions as [|a rest IH]; intros st Hwf; [exact Hwf|].
  simpl. apply IH. destruct a as [objs|u]; simpl.
  - apply handleAudioAnalysis_sources.
  - apply applyUpdate_wellFormed, Hwf.
Qed.



End SourceLifetime.

(** ** Generators under a well-behaved oracle *)

Section Generators.

Lemma succeeds_ret {A} (a : A) (P : A -> Prop) :
  P a -> succeeds (Random.ret a) P.
Proof. intros Ha rnd i _. exists a, i. split; [reflexivity | exact Ha]. Qed.

Lemma succeeds_bind {A B} (c : Random.Gen A) (k : A -> Random.Gen B)
    (P : A -> Prop) (Q : B -> Prop) :
  succeeds c P -> (forall a, P a -> succeeds (k a) Q) ->
  succeeds (Random.bind c k) Q.
Proof.
  intros Hc Hk rnd i Hvalid.
  destruct (Hc rnd i Hvalid) as (a & j & Hrun & Ha).
  destruct (Hk a Ha rnd j Hvalid) as (b & j' & Hrun' & Hb).
  exists b, j'. unfold Random.bind. rewrite Hrun. split; assumption.
Qed.

Lemma succeeds_random : succeeds Random.random (fun r => 0 <= r < 1).
Proof.
  intros rnd i Hvalid. exists (rnd i), (S i).
  split; [reflexivity | apply Hvalid].
Qed.

Lemma succeeds_lift {A} (o : option A) (a : A) :
  o = Some a -> succeeds (Random.lift o) (fun x => x = a).
Proof.
  intros -> rnd i _. exists a, i. split; reflexivity.
Qed.

Lemma succeeds_tabulate {A} (f : nat -> Random.Gen A) (P : A -> Prop) n :
  (forall k, succeeds (f k) P) ->
  forall start,
    succeeds (Random.tabulate n start f)
             (fun l => length l = n /\ Forall P l).
Proof.
  intros Hf. induction n as [|n IH]; intros start; simpl.
  - apply succeeds_ret. split; [reflexivity | constructor].
  - eapply succeeds_bind; [apply Hf|]. intros a Ha.
    eapply succeeds_bind; [apply IH|]. intros rest [Hlen Hrest].
    apply succeeds_ret. split; [simpl; lia | constructor; assumption].
Qed.

Lemma succeeds_flatMap {A B} (f : A -> nat -> Random.Gen (list B))
    (Q : list B -> Prop) xs :
  (forall x k, succeeds (f x k) Q) ->
  forall start,
    succeeds (Random.flatMap xs start f)
             (fun l => exists groups,
                l = concat groups /\ length groups = length xs
                /\ Forall Q groups).
Proof.
  intros Hf. induction xs as [|x rest IH]; intros start; simpl.
  - apply succeeds_ret. exists []. split; [reflexivity|].
    split; [reflexivity | constructor].
  - eapply succeeds_bind; [apply Hf|]. intros ys Hys.
    eapply succeeds_bind; [apply IH|].
    intros zs (groups & -> & Hlen & Hgroups).
    apply succeeds_ret. exists (ys :: groups).
    split; [reflexivity|]. split; [simpl; lia | constructor; assumption].
Qed.

Lemma succeeds_run {A} (c : Random.Gen A) (P : A -> Prop) rnd :
  succeeds c P -> Random.valid rnd ->
  exists a, Random.run c rnd = Some a /\ P a.
Proof.
  intros Hc Hvalid. destruct (Hc rnd 0%nat Hvalid) as (a & j & Hrun & Ha).
  exists a. unfold Random.run. rewrite Hrun. split; [reflexivity|exact Ha].
Qed.

(** *** Math.floor of a scaled draw *)

Lemma floor_unique x z : IZR z <= x < IZR z + 1 -> JS.floor x = z.
Proof.
  intros [Hlo Hhi]. unfold JS.floor. symmetry.
  apply Int_part_spec. lra.
Qed.

Lemma floor_bounds x : IZR (JS.floor x) <= x < IZR (JS.floor x) + 1.
Proof.
  unfold JS.floor. destruct (base_Int_part x) as [Hlo Hhi]. lra.
Qed.

Lemma floor_scaled t (k : Z) :
  0 <= t < 1 -> (0 < k)%Z -> (0 <= JS.floor (t * IZR k) < k)%Z.
Proof.
  intros [Hlo Hhi] Hk. apply IZR_lt in Hk.
  destruct (floor_bounds (t * IZR k)) as [Flo Fhi].
  split.
  - assert (H : -1 < IZR (JS.floor (t * IZR k))) by nra.
    apply lt_IZR in H. lia.
  - apply lt_IZR. nra.
Qed.

End Generators.

(** ** The mock source generators *)

Section MockSources.
Import AudioUploader.

Lemma category_defined k :
  (0 <= k < 5)%Z -> exists c, category k = Some c.
Proof.
  intros Hk.
  assert (H : k = 0%Z \/ k = 1%Z \/ k = 2%Z \/ k = 3%Z \/ k = 4%Z) by lia.
  destruct H as [-> | [-> | [-> | [-> | ->]]]]; eexists; reflexivity.
Qed.

(** The category of index k is chosen exactly when the product of the draw
    by 5 lies in [k, k + 1): the five categories share the draws
    equally. *)
Lemma category_partition x k c :
  0 <= x < 5 -> categories !! k = Some c ->
  category (JS.floor x) = Some c <-> INR k <= x < INR k + 1.
Proof.
  intros Hx Hk.
  pose proof (floor_bounds x) as Hb.
  assert (Hf : (0 <= JS.floor x < 5)%Z).
  { split.
    - apply Z.lt_succ_r, lt_IZR. rewrite succ_IZR. lra.
    - apply lt_IZR. lra. }
  assert (Hcases : forall z : Z,
            (0 <= z < 5)%Z ->
            z = 0%Z \/ z = 1%Z \/ z = 2%Z \/ z = 3%Z \/ z = 4%Z)
    by (intros z Hz; lia).
  do 5 (destruct k as [|k];
        [ injection Hk as <-; split;
          [ intros Hc;
            destruct (Hcases _ Hf) as [E | [E | [E | [E | E]]]];
            rewrite E in Hc, Hb; try discriminate Hc; simpl; lra
          | intros Hr;
            match goal with
            | |- category (JS.floor _) = Some ?c =>
                match c with
                | noise => rewrite (floor_unique x 0)
                | voice => rewrite (floor_unique x 1)
                | music => rewrite (floor_unique x 2)
                | ambient => rewrite (floor_unique x 3)
                | unknown => rewrite (floor_unique x 4)
                end
            end; [reflexivity | simpl in Hr; lra] ]
        | ]).
  discriminate Hk.
Qed.

Lemma mockSource_draws file fileIndex sourceIndex rnd n :
  Random.valid rnd ->
  exists s,
    mockSource file fileIndex sourceIndex rnd n = Some (s, (8 + n)%nat)
    /\ uploadedShape rnd n s.
Proof.
  intros Hvalid.
  destruct (category_defined (JS.floor (rnd n * 5))) as [c Hc].
  { apply (floor_scaled (rnd n) 5 (Hvalid n)). lia. }
  unfold mockSource, Random.bind, Random.random, Random.lift, Random.ret.
  rewrite Hc. eexists. split; [reflexivity|].
  unfold uploadedShape. cbn [visible type decibel].
  pose proof (Hvalid (S n)).
  split; [reflexivity|]. split; [exact Hc|]. split; [reflexivity | lra].
Qed.

Lemma tabulate_draws file fileIndex rnd :
  Random.valid rnd ->
  forall count start n,
    exists g,
      Random.tabulate count start (mockSource file fileIndex) rnd n
      = Some (g, (n + 8 * count)%nat)
      /\ length g = count
      /\ Forall2 (uploadedShape rnd) (sourceDraws n count) g.
Proof.
  intros Hvalid. induction count as [|count IH]; intros start n.
  - exists []. split; [|split; [reflexivity | constructor]].
    simpl. unfold Random.ret. do 2 f_equal. lia.
  - destruct (mockSource_draws file fileIndex start rnd n Hvalid)
      as (s & Hs & Hshape).
    destruct (IH (S start) (8 + n)%nat) as (g & Hg & Hlen & Hshapes).
    exists (s :: g). split; [|split].
    + cbn [Random.tabulate]. unfold Random.bind at 1. rewrite Hs.
      unfold Random.bind at 1. rewrite Hg. unfold Random.ret.
      do 2 f_equal. lia.
    + simpl. rewrite Hlen. reflexivity.
    + cbn [sourceDraws]. constructor; assumption.
Qed.

Lemma sourcesOfFile_draws file fileIndex rnd n :
  Random.valid rnd ->
  exists g,
    sourcesOfFile file fileIndex rnd n
    = Some (g, (S n + 8 * length g)%nat)
    /\ length g = Z.to_nat (2 + JS.floor (rnd n * 3))
    /\ (2 <= length g <= 4)%nat
    /\ Forall2 (uploadedShape rnd) (sourceDraws (S n) (length g)) g.
Proof.
  intros Hvalid.
  pose proof (floor_scaled (rnd n) 3 (Hvalid n) ltac:(lia)) as Hf.
  destruct (tabulate_draws file fileIndex rnd Hvalid
              (Z.to_nat (2 + JS.floor (rnd n * 3))) 0%nat (S n))
    as (g & Hg & Hlen & Hshapes).
  exists g. rewrite Hlen.
  split; [|split; [reflexivity | split; [lia | exact Hshapes]]].
  unfold sourcesOfFile, Random.bind, Random.random. exact Hg.
Qed.

Lemma flatMap_draws rnd :
  Random.valid rnd ->
  forall files start n,
    exists groups n',
      Random.flatMap files start sourcesOfFile rnd n
      = Some (concat groups, n')
      /\ length groups = length files
      /\ Forall (fun g => (2 <= length g <= 4)%nat) groups
      /\ map length groups = drawnCounts rnd n (length files)
      /\ Forall2 (uploadedShape rnd) (fileDraws n (map length groups))
                 (concat groups).
Proof.
  intros Hvalid. induction files as [|file rest IH]; intros start n.
  - exists [], n. repeat split; constructor.
  - destruct (sourcesOfFile_draws file start rnd n Hvalid)
      as (g & Hg & Hcount & Hlen & Hshapes).
    destruct (IH (S start) (S n + 8 * length g)%nat)
      as (groups & n' & Hrun & Hgroups & Hlens & Hcounts & Hrest).
    exists (g :: groups), n'. split; [|split; [|split; [|split]]].
    + cbn [Random.flatMap]. unfold Random.bind at 1. rewrite Hg.
      unfold Random.bind at 1. rewrite Hrun. reflexivity.
    + simpl. rewrite Hgroups. reflexivity.
    + constructor; assumption.
    + cbn [map length drawnCounts]. rewrite <- Hcount, Hcounts.
      reflexivity.
    + cbn [map fileDraws concat]. apply Forall2_app; assumption.
Qed.

Lemma analyzeRecordedAudio_shape rnd :
  Random.valid rnd ->
  exists l,
    Random.run AudioRecorder.analyzeRecordedAudio rnd = Some l
    /\ recordedShape rnd l.
Proof.
  intros Hvalid. eexists. split; [reflexivity|].
  unfold recordedShape. eexists _, _, _. split; [reflexivity|].
  cbn [type visible decibel].
  pose proof (Hvalid 0%nat). pose proof (Hvalid 6%nat).
  pose proof (Hvalid 12%nat).
  repeat split; try reflexivity; lra.
Qed.

Lemma analyzeRecordedAudio_types rnd :
  map type <$> Random.run AudioRecorder.analyzeRecordedAudio rnd
  = Some [noise; voice; ambient].
Proof. reflexivity. Qed.

End MockSources.

Section MockSourcesByPath.
Import AudioUploader.

Lemma zeroOracle_valid : Random.valid zeroOracle.
Proof. intros i. unfold zeroOracle. lra. Qed.

(** C8, as the code has it: under every oracle with draws in [0, 1), the
    uploader makes for each file between 2 and 4 sources, 2 + floor(3 r)
    for the draw r of the file; each source is visible, its category is
    the entry of index floor(5 r) of the five-element list for a draw r of
    its own -- the entry of index k exactly when 5 r lies in [k, k + 1) --
    and its level is 30 + 60 r' for the next draw r', between 30 and 90
    whatever the category; the recorder makes exactly three
    visible sources with the fixed categories noise, voice and ambient and
    levels 45 + 20 r, 60 + 25 r and 35 + 15 r for draws r of their own,
    between 45 and 65, 60 and 85, and 35 and 50. *)
Theorem mock_sources_by_path
    (files : list File) (rnd : Random.oracle) (Hvalid : Random.valid rnd) :
  (exists groups,
      Random.run (analyzeFiles files) rnd = Some (concat groups)
      /\ length groups = length files
      /\ Forall (fun g => (2 <= length g <= 4)%nat) groups
      /\ map length groups = drawnCounts rnd 0 (length files)
      /\ Forall2 (uploadedShape rnd) (fileDraws 0 (map length groups))
                 (concat groups))
  /\ (exists l,
        Random.run AudioRecorder.analyzeRecordedAudio rnd = Some l
        /\ recordedShape rnd l)
  /\ (forall x k c,
        0 <= x < 5 -> categories !! k = Some c ->
        category (JS.floor x) = Some c <-> INR k <= x < INR k + 1)
  /\ length categories = 5%nat.
Proof.
  split; [|split; [|split; [|reflexivity]]].
  - destruct (flatMap_draws rnd Hvalid files 0%nat 0%nat)
      as (groups & n' & Hrun & Hlen & Hlens & Hcounts & Hshapes).
    exists groups. split; [|repeat split; assumption].
    unfold Random.run, analyzeFiles. rewrite Hrun. reflexivity.
  - exact (analyzeRecordedAudio_shape rnd Hvalid).
  - intros x k c. apply category_partition.
Qed.

Lemma mock_sources_by_path_witness :
  Random.valid zeroOracle
  /\ exists l,
       Random.run AudioRecorder.analyzeRecordedAudio zeroOracle = Some l
       /\ recordedShape zeroOracle l.
Proof.
  split; [exact zeroOracle_valid|].
  exact (proj1 (proj2 (mock_sources_by_path [sampleFile] zeroOracle
                         zeroOracle_valid))).
Defined.

Lemma floor_of_zero k : JS.floor (0 * k) = 0%Z.
Proof. apply floor_unique. lra. Qed.

(** C8 as stated fails: the recorder's categories are not drawn, they are
    noise, voice and ambient under every oracle (music and unknown never
    occur); and the uploader's level does not follow the category: the
    draws 0.7 and 0.9 make an ambient source of 84 dB, outside the
    recorder's range for ambient sources. *)
Lemma recorded_categories_are_fixed :
  (forall rnd,
      map type <$> Random.run AudioRecorder.analyzeRecordedAudio rnd
      = Some [noise; voice; ambient])
  /\ (exists s,
        Random.run (mockSource sampleFile 0 0) loudAmbientOracle = Some s
        /\ type s = ambient /\ decibel s = 84).
Proof.
  split; [exact analyzeRecordedAudio_types|].
  assert (Hf : JS.floor (7 / 10 * 5) = 3%Z)
    by (apply floor_unique; simpl; lra).
  eexists.
  unfold Random.run, mockSource, Random.bind, Random.random, Random.lift,
    Random.ret, loudAmbientOracle.
  rewrite Hf. simpl. split; [reflexivity|]. simpl.
  split; [reflexivity | lra].
Qed.

End MockSourcesByPath.

(** ** The dataset size after an upload *)

Section DatasetSize.
Import AudioUploader.

(** The size [handleFileSelect] reports: the bytes of the audio files over
    1024 * 1024. *)
Lemma reportedSize_bytes uploadedFiles files :
  reportedSize (handleFileSelect uploadedFiles files)
  = totalSize (uploadedFiles ++ List.filter isAudio files).
Proof. reflexivity. Qed.

(** Once the mock sources have arrived, the dataset size of the App is the
    sum of their frequencies over 1000, and the report has one row per
    source. *)
Lemma upload_then_analysis st files rnd st' :
  List.filter isAudio files <> [] ->
  App.upload st files rnd = Some st' ->
  exists objs,
    Random.run (analyzeFiles (List.filter isAudio files)) rnd = Some objs
    /\ App.sources st' = objs
    /\ App.datasetSize st'
       = fold_left (fun acc s => acc + frequency s * 0.001) objs 0.
Proof.
  intros Hne. unfold App.upload, handleFileSelect. simpl.
  destruct (List.filter isAudio files) as [|f fs] eqn:Hf; [congruence|].
  simpl.
  destruct (Random.run (analyzeFiles (f :: fs)) rnd) as [objs|] eqn:Hrun;
    [|discriminate].
  intros [= <-]. exists objs. split; [reflexivity|].
  split; [apply handleAudioAnalysis_sources|].
  unfold App.handleAudioAnalysis. rewrite allocAll_spec. reflexivity.
Qed.

Lemma analyzeFiles_zeroOracle :
  Random.run (analyzeFiles [sampleFile]) zeroOracle
  = Some [zeroSource 0; zeroSource 1].
Proof.
  unfold Random.run, analyzeFiles, Random.flatMap, sourcesOfFile,
    Random.bind, Random.random, Random.ret, zeroOracle.
  rewrite floor_of_zero. change (Z.to_nat (2 + 0)) with 2%nat.
  cbn [Random.tabulate].
  unfold mockSource, Random.bind, Random.random, Random.lift, Random.ret.
  rewrite !floor_of_zero. reflexivity.
Qed.

(** C5 at one uploaded file of 2 MB, every random draw 0: the uploader
    reports 2 MB, but when the two mock sources arrive the dataset size
    becomes 0.2, and the report shows 0.2 next to its two rows. *)
Theorem upload_size_overwritten_by_analysis :
  reportedSize (handleFileSelect [] [sampleFile]) = 2
  /\ exists st,
       App.upload App.initial [sampleFile] zeroOracle = Some st
       /\ length (App.sources st) = 2%nat
       /\ App.datasetSize st = 0.2
       /\ exists r,
            App.reportView st = ReportGenerator.Rendered r
            /\ ReportGenerator.datasetMB r = 0.2
            /\ length (ReportGenerator.rows r) = 2%nat.
Proof.
  split.
  - unfold handleFileSelect, totalSize. simpl.
    change (Z.pos (2 * 1024 * 1024)) with 2097152%Z. lra.
  - destruct (App.upload App.initial [sampleFile] zeroOracle) as [st|] eqn:Hup.
    + destruct (upload_then_analysis App.initial [sampleFile] zeroOracle st)
        as (objs & Hrun & Hsrc & Hsize); [discriminate | exact Hup |].
      change (List.filter isAudio [sampleFile]) with [sampleFile] in Hrun.
      rewrite analyzeFiles_zeroOracle in Hrun. injection Hrun as <-.
      assert (Hds : App.datasetSize st = 0.2).
      { rewrite Hsize. simpl. lra. }
      exists st. split; [reflexivity|]. split; [rewrite Hsrc; reflexivity|].
      split; [exact Hds|].
      unfold App.reportView, ReportGenerator.render. rewrite Hsrc.
      destruct (decide (length [zeroSource 0; zeroSource 1] = 0%nat))
        as [H0|_]; [discriminate|].
      eexists. split; [reflexivity|]. simpl. split; [exact Hds|reflexivity].
    + exfalso. unfold App.upload in Hup.
      change (toAnalyze (handleFileSelect [] [sampleFile]))
        with (Some [sampleFile]) in Hup.
      cbv beta iota in Hup. rewrite analyzeFiles_zeroOracle in Hup.
      discriminate.
Qed.

End DatasetSize.

(** ** A frame of the SonarView writes to the sources *)

Section FrameWrites.


(** A toggle copies the source with the flag negated and nothing else
    changed. *)
Example toggle_flips_visibility :
  App.sources
    (App.applyUpdate
       (App.run App.initial [App.HandleAudioAnalysis [sampleSource]])
       (App.ToggleSoundVisibility "file-1-source-2"))
  = [mkAudioSource "file-1-source-2" "clip - Source 3" music 60 440
                   (mkPosition 10 20 30) 4 false (Hsl 120)].
Proof. reflexivity. Qed.

End FrameWrites.

(** ** DecibelChart: what the history holds and what is drawn from it *)

Section ChartFacts.
Import DecibelChart.

Lemma slice_last_Forall {A} (P : A -> Prop) n (l : list A) :
  Forall P l -> Forall P (JS.slice_last n l).
Proof. intros H. unfold JS.slice_last. apply Forall_drop, H. Qed.

Lemma appended_from_samples samples : forall dep,
  Forall (fun d => 0 < d /\ d ∈ samples) (appended dep samples).
Proof.
  induction samples as [|s rest IH]; intros dep; simpl; [constructor|].
  assert (Hrest : Forall (fun d => 0 < d /\ d ∈ s :: rest)
                         (appended (Some s) rest)).
  { eapply Forall_impl; [apply IH|]. simpl. intros d [Hd Hin].
    split; [exact Hd | apply list_elem_of_further, Hin]. }
  destruct (bool_decide (dep <> Some s /\ 0 < s)) eqn:Hb; [|exact Hrest].
  apply bool_decide_eq_true_1 in Hb as [_ Hs].
  constructor; [|exact Hrest]. split; [exact Hs | apply list_elem_of_here].
Qed.

Lemma history_from_samples samples :
  Forall (fun d => 0 < d /\ d ∈ samples)
         (decibelHistory (run initial samples))
  /\ (length (decibelHistory (run initial samples)) <= maxDataPoints)%nat.
Proof.
  rewrite (run_window samples initial []) by reflexivity. simpl.
  split.
  - apply slice_last_Forall, appended_from_samples.
  - rewrite slice_last_length. lia.
Qed.

(** X1: every entry of the history is one of the delivered samples and is
    strictly positive: a level of 0 (silence, or the reset when playback
    ends) is never stored. *)
Theorem history_entries_are_positive_samples (samples : list R) :
  Forall (fun d => 0 < d /\ d ∈ samples)
         (decibelHistory (run initial samples)).
Proof. apply history_from_samples. Qed.

(** *** The newest entry *)

Lemma slice_last_last {A} n (l : list A) x :
  (0 < n)%nat -> last (JS.slice_last n (l ++ [x])) = Some x.
Proof.
  intros Hn. unfold JS.slice_last. rewrite length_app. simpl length.
  rewrite skipn_app.
  replace (length l + 1 - n - length l)%nat with 0%nat by lia.
  simpl. apply last_snoc.
Qed.

Lemma run_newest samples : forall st,
  (forall d, lastDep st = Some d -> 0 < d ->
             last (decibelHistory st) = Some d) ->
  forall d, lastDep (run st samples) = Some d -> 0 < d ->
            last (decibelHistory (run st samples)) = Some d.
Proof.
  induction samples as [|s rest IH]; intros st Hst; [exact Hst|].
  change (run st (s :: rest)) with (run (render st s) rest).
  apply IH. intros d Hd Hpos.
  destruct (render_step st s) as [Hh Hl].
  rewrite Hl in Hd. injection Hd as <-. rewrite Hh.
  destruct (bool_decide (lastDep st <> Some s /\ 0 < s)) eqn:Hb.
  - unfold appendSample. apply slice_last_last. unfold maxDataPoints. lia.
  - apply bool_decide_eq_false_1 in Hb.
    destruct (decide (lastDep st = Some s)) as [Heq|Hne]; [|tauto].
    apply Hst; assumption.
Qed.

Lemma run_lastDep samples : forall st,
  samples <> [] -> lastDep (run st samples) = Some (List.last samples 0).
Proof.
  induction samples as [|s rest IH]; intros st Hne; [congruence|].
  change (run st (s :: rest)) with (run (render st s) rest).
  destruct rest as [|r rest'].
  - simpl. apply render_step.
  - rewrite IH by discriminate. reflexivity.
Qed.

Lemma frames_run samples : forall st fs,
  (forall d, lastDep st = Some d -> 0 < d ->
             last fs = Some (redraw (decibelHistory st) d)) ->
  forall d, lastDep (run st samples) = Some d -> 0 < d ->
            last (fs ++ frames st samples)
            = Some (redraw (decibelHistory (run st samples)) d).
Proof.
  induction samples as [|s rest IH]; intros st fs Hst.
  - simpl. rewrite app_nil_r. exact Hst.
  - change (run st (s :: rest)) with (run (render st s) rest).
    cbn [frames]. rewrite app_assoc. apply IH. intros d Hd Hpos.
    unfold render, redraws in *.
    destruct (effectRuns st s) eqn:Hruns.
    + cbn [lastDep decibelHistory] in *. injection Hd as <-.
      destruct (decide (0 < s)); [|contradiction].
      rewrite last_app. reflexivity.
    + rewrite app_nil_r. apply Hst; assumption.
Qed.

Lemma levelLine_polyline h rest : forall start,
  last (levelLine (polyline start h ++ StrokeLine :: rest))
  = (fun d => (pointX (start + (length h - 1)), pointY d)) <$> last h.
Proof.
  induction h as [|a h IH]; intros start; [reflexivity|].
  assert (Hcons : levelLine (polyline start (a :: h) ++ StrokeLine :: rest)
                  = (pointX start, pointY a)
                      :: levelLine (polyline (S start) h
                                      ++ StrokeLine :: rest)).
  { cbn [polyline app]. destruct (decide (start = 0%nat)); reflexivity. }
  rewrite Hcons, !last_cons, IH.
  destruct h as [|b h'].
  - cbn. rewrite Nat.add_0_r. reflexivity.
  - destruct (last (b :: h')) as [d|] eqn:Hl.
    + cbn. do 3 f_equal. simpl. lia.
    + apply last_None in Hl. discriminate Hl.
Qed.

Lemma levelLine_grid (pre rest : list ChartCommand) :
  Forall (fun c => match c with
                   | ClearRect _ _ | GridRow _ _ | GridColumn _ => True
                   | _ => False
                   end) pre ->
  levelLine (pre ++ rest) = levelLine rest.
Proof.
  induction 1 as [|c pre Hc _ IH]; [reflexivity|].
  destruct c; try contradiction; exact IH.
Qed.

Lemma redraw_line_and_marker h cur :
  (1 < length h)%nat ->
  last (levelLine (redraw h cur))
  = (fun d => (pointX (length h - 1), pointY d)) <$> last h
  /\ omap currentMarker (redraw h cur)
     = [(pointX (length h - 1), pointY cur)].
Proof.
  intros Hlen. unfold redraw.
  destruct h as [|a h']; [simpl in Hlen; lia|].
  set (h := a :: h') in *.
  destruct (decide (1 < length h)%nat); [|contradiction].
  split.
  - rewrite (levelLine_grid [ClearRect canvasWidth canvasHeight])
      by (repeat constructor).
    rewrite (levelLine_grid gridRows).
    2:{ unfold gridRows. apply Forall_forall. intros c Hc.
        apply list_elem_of_In, in_map_iff in Hc as (i & <- & _). exact I. }
    rewrite (levelLine_grid gridColumns).
    2:{ unfold gridColumns. apply Forall_forall. intros c Hc.
        apply list_elem_of_In, in_map_iff in Hc as (i & <- & _). exact I. }
    rewrite <- app_assoc. cbn [app].
    apply (levelLine_polyline h _ 0%nat).
  - assert (Hnone : forall l : list ChartCommand,
              Forall (fun c => currentMarker c = None) l ->
              omap currentMarker l = []).
    { intros cmds Hcmds.
      induction Hcmds as [|c cmds Hc _ IH]; [reflexivity|].
      cbn [omap list_omap]. rewrite Hc. exact IH. }
    rewrite !omap_app.
    rewrite (Hnone [ClearRect canvasWidth canvasHeight])
      by (repeat constructor).
    rewrite (Hnone gridRows).
    2:{ unfold gridRows. apply Forall_forall. intros c Hc.
        apply list_elem_of_In, in_map_iff in Hc as (i & <- & _).
        reflexivity. }
    rewrite (Hnone gridColumns).
    2:{ unfold gridColumns. apply Forall_forall. intros c Hc.
        apply list_elem_of_In, in_map_iff in Hc as (i & <- & _).
        reflexivity. }
    rewrite (Hnone (polyline 0 h)).
    2:{ generalize 0%nat. clear. induction h as [|b h IH]; intros start;
          [constructor|].
        cbn [polyline]. constructor; [|apply IH].
        destruct (decide (start = 0%nat)); reflexivity. }
    rewrite (Hnone (highlight h)).
    2:{ unfold highlight.
        assert (Hz : forall l flag start,
                  Forall (fun c => currentMarker c = None)
                         (fst (highZones flag start l))).
        { clear. induction l as [|b l IH]; intros flag start;
            [constructor|].
          cbn [highZones]. destruct (decide (80 < b)).
          - specialize (IH true (S start)).
            destruct (highZones true (S start) l) as [cmds final].
            cbn [fst] in *. constructor; [destruct flag; reflexivity|].
            exact IH.
          - specialize (IH false (S start)).
            destruct (highZones false (S start) l) as [cmds final].
            cbn [fst] in *. apply Forall_app. split; [|exact IH].
            destruct flag; repeat constructor. }
        specialize (Hz h false 0%nat).
        destruct (highZones false 0 h) as [cmds final]. cbn [fst] in Hz.
        apply Forall_app. split; [exact Hz|].
        destruct final; repeat constructor. }
    reflexivity.
Qed.

(** X2: after renders of which the last has a positive level, that level
    is the newest entry of the history and the last run of the redraw
    effect has drawn with that history; when it holds more than one entry,
    that run has drawn one marker of the current level, and its centre is
    the end of the line of the levels. *)
Theorem positive_level_is_newest_entry (samples : list R)
    (Hpos : 0 < List.last samples 0) :
  last (decibelHistory (run initial samples)) = Some (List.last samples 0)
  /\ exists frame,
       last (frames initial samples) = Some frame
       /\ frame = redraw (decibelHistory (run initial samples))
                         (List.last samples 0)
       /\ ((1 < length (decibelHistory (run initial samples)))%nat ->
           exists p,
             omap currentMarker frame = [p]
             /\ last (levelLine frame) = Some p).
Proof.
  assert (Hne : samples <> []).
  { intros ->. simpl in Hpos. lra. }
  assert (Hlast : last (decibelHistory (run initial samples))
                  = Some (List.last samples 0)).
  { apply (run_newest samples initial).
    - intros d Hd. discriminate Hd.
    - apply run_lastDep, Hne.
    - exact Hpos. }
  split; [exact Hlast|].
  eexists. split; [|split; [reflexivity|]].
  - apply (frames_run samples initial []).
    + intros d Hd. discriminate Hd.
    + apply run_lastDep, Hne.
    + exact Hpos.
  - intros Hlen.
    destruct (redraw_line_and_marker _ (List.last samples 0) Hlen)
      as [Hline Hmarker].
    eexists. split; [exact Hmarker|].
    rewrite Hline, Hlast. reflexivity.
Qed.

Lemma positive_level_is_newest_entry_witness :
  0 < List.last [30; 0; 45] 0
  /\ last (decibelHistory (run initial [30; 0; 45])) = Some 45.
Proof.
  assert (H : 0 < List.last [30; 0; 45] 0) by (simpl; lra).
  split; [exact H|].
  exact (proj1 (positive_level_is_newest_entry [30; 0; 45] H)).
Defined.

Lemma render_changed st s :
  lastDep st <> Some s -> 0 < s ->
  render st s = mkState (appendSample s (decibelHistory st)) (Some s)
  /\ redraws st s
     = [redraw (decibelHistory st) s;
        redraw (appendSample s (decibelHistory st)) s].
Proof.
  intros Hdep Hpos. unfold render, redraws, effectRuns, effect.
  assert (Hruns : match lastDep st with
                  | Some d => bool_decide (d <> s)
                  | None => true
                  end = true).
  { destruct (lastDep st) as [d|]; [|reflexivity].
    apply bool_decide_eq_true_2. congruence. }
  rewrite Hruns. destruct (decide (0 < s)); [|contradiction].
  split; reflexivity.
Qed.

(** The run of the redraw effect that comes first after a change of the
    level draws with the history of before: after the levels 40 and 60 the
    level 50 is first drawn with its marker under the end of the line, at
    the abscissa of the entry 60, and only the next run has it on the
    line. *)
Example marker_before_the_history_update :
  exists frame,
    frames initial [40; 60; 50] !! 4%nat = Some frame
    /\ omap currentMarker frame = [(pointX 1, pointY 50)]
    /\ last (levelLine frame) = Some (pointX 1, pointY 60).
Proof.
  destruct (render_changed initial 40) as [R1 F1];
    [discriminate | lra |].
  change (decibelHistory initial) with (@nil R) in R1, F1.
  cbn [frames]. rewrite R1, F1.
  destruct (render_changed (mkState (appendSample 40 []) (Some 40)) 60)
    as [R2 F2]; [cbn; intros H; injection H; lra | lra |].
  cbn [decibelHistory] in *. rewrite R2, F2.
  destruct (render_changed
              (mkState (appendSample 60 (appendSample 40 [])) (Some 60)) 50)
    as [_ F3]; [cbn; intros H; injection H; lra | lra |].
  cbn [decibelHistory] in *. rewrite F3.
  change (appendSample 60 (appendSample 40 [])) with [40; 60].
  eexists. split; [reflexivity|].
  destruct (redraw_line_and_marker [40; 60] 50) as [Hline Hmarker];
    [simpl; lia|].
  split; [exact Hmarker | exact Hline].
Qed.

(** *** Where the chart draws *)

Lemma pointX_inside index :
  (index < maxDataPoints)%nat -> 20 <= pointX index <= 280.
Proof.
  intros Hi. unfold pointX, padding, chartWidth, canvasWidth, padding.
  replace (INR maxDataPoints) with 100
    by (rewrite INR_IZR_INZ; reflexivity).
  assert (H0 : 0 <= INR index) by apply pos_INR.
  assert (H99 : INR index <= 99).
  { unfold maxDataPoints in Hi. rewrite INR_IZR_INZ. apply IZR_le. lia. }
  replace (100 - 1) with 99 by lra.
  split.
  - assert (0 <= INR index / 99 * (300 - 20 * 2)); [|lra].
    apply Rmult_le_pos; [|lra]. apply Rmult_le_pos; lra.
  - assert (INR index / 99 * (300 - 20 * 2) <= 260); [|lra].
    unfold Rdiv. nra.
Qed.

Lemma pointY_inside db : 0 <= db <= 120 -> 20 <= pointY db <= 130.
Proof.
  intros [Hlo Hhi]. unfold pointY, padding, chartHeight, canvasHeight, padding.
  split; unfold Rdiv; nra.
Qed.

Lemma entry_inside index db :
  (index < maxDataPoints)%nat -> 0 <= db <= 120 ->
  inChartRectangle (pointX index, pointY db).
Proof.
  intros Hi Hdb. split; cbn [fst snd];
    [apply pointX_inside, Hi | apply pointY_inside, Hdb].
Qed.

Lemma polyline_inside h : forall start,
  Forall (fun d => 0 <= d <= 120) h ->
  (start + length h <= maxDataPoints)%nat ->
  Forall drawsInside (polyline start h).
Proof.
  induction h as [|a h IH]; intros start Hr Hlen; [constructor|].
  apply Forall_cons in Hr as [Ha Hr]. simpl in Hlen.
  cbn [polyline]. constructor; [|apply IH; [exact Hr | lia]].
  assert (Hp : inChartRectangle (pointX start, pointY a))
    by (apply entry_inside; [lia | exact Ha]).
  destruct (decide (start = 0%nat)); unfold drawsInside;
    cbn [chartPoints]; (constructor; [exact Hp | constructor]).
Qed.

Lemma highZones_inside h : forall flag start,
  Forall (fun d => 0 <= d <= 120) h ->
  (start + length h <= maxDataPoints)%nat ->
  Forall drawsInside (fst (highZones flag start h)).
Proof.
  induction h as [|a h IH]; intros flag start Hr Hlen; [constructor|].
  apply Forall_cons in Hr as [Ha Hr]. simpl in Hlen.
  assert (Hp : inChartRectangle (pointX start, pointY a))
    by (apply entry_inside; [lia | exact Ha]).
  cbn [highZones]. destruct (decide (80 < a)).
  - specialize (IH true (S start) Hr ltac:(lia)).
    destruct (highZones true (S start) h) as [cmds final]. cbn [fst] in *.
    constructor; [|exact IH].
    destruct flag; unfold drawsInside; cbn [chartPoints];
      (constructor; [exact Hp | constructor]).
  - specialize (IH false (S start) Hr ltac:(lia)).
    destruct (highZones false (S start) h) as [cmds final]. cbn [fst] in *.
    apply Forall_app. split; [|exact IH].
    destruct flag; repeat constructor.
Qed.

Lemma grid_inside : Forall drawsInside (gridRows ++ gridColumns).
Proof.
  assert (Hi : forall i n : nat, (i < n)%nat -> 0 <= INR i <= INR n - 1).
  { intros i n Hlt. split; [apply pos_INR|].
    assert (INR (S i) <= INR n) by (apply le_INR; lia).
    rewrite S_INR in *. lra. }
  apply Forall_app. split; apply Forall_forall; intros c Hc;
    apply list_elem_of_In, in_map_iff in Hc as (i & <- & Hin);
    apply in_seq in Hin; unfold drawsInside; cbn [chartPoints];
    unfold padding, chartHeight, chartWidth, canvasHeight, canvasWidth,
      padding.
  - specialize (Hi i 11%nat ltac:(lia)).
    replace (INR 11) with 11 in Hi by (rewrite INR_IZR_INZ; reflexivity).
    (constructor; [|constructor; [|constructor]]); split; cbn [fst snd];
      unfold Rdiv; nra.
  - specialize (Hi i 6%nat ltac:(lia)).
    replace (INR 6) with 6 in Hi by (rewrite INR_IZR_INZ; reflexivity).
    (constructor; [|constructor; [|constructor]]); split; cbn [fst snd];
      unfold Rdiv; nra.
Qed.

Lemma redraw_inside h cur :
  Forall (fun d => 0 <= d <= 120) h ->
  (length h <= maxDataPoints)%nat -> 0 <= cur <= 120 ->
  Forall drawsInside (redraw h cur).
Proof.
  intros Hr Hlen Hcur. unfold redraw.
  destruct h as [|a h']; [constructor|].
  set (h := a :: h') in *.
  assert (Hpos : (0 < length h)%nat) by (simpl; lia).
  destruct (proj1 (Forall_app _ _ _) grid_inside) as [Hrows Hcols].
  assert (Hnone : forall c, chartPoints c = [] -> drawsInside c).
  { intros c Hc. unfold drawsInside. rewrite Hc. constructor. }
  rewrite !Forall_app.
  split; [constructor; [apply Hnone; reflexivity | constructor]|].
  split; [exact Hrows|]. split; [exact Hcols|].
  split; [|repeat (constructor; [apply Hnone; reflexivity|]); constructor].
  destruct (decide (1 < length h)%nat); [|constructor].
  rewrite !Forall_app. split; [|split].
  - apply polyline_inside; [exact Hr | lia].
  - assert (Hmarker : inChartRectangle
                        (pointX (length h - 1), pointY cur))
      by (apply entry_inside; [lia | exact Hcur]).
    assert (Hcorner : forall x y,
              20 <= x <= 280 -> 20 <= y <= 130 ->
              drawsInside (LineTo x y)).
    { intros x y Hx Hy. unfold drawsInside. cbn [chartPoints].
      constructor; [split; assumption | constructor]. }
    constructor; [apply Hnone; reflexivity|].
    constructor.
    { apply Hcorner;
        unfold padding, chartWidth, canvasWidth, canvasHeight, padding;
        lra. }
    constructor.
    { apply Hcorner;
        unfold padding, chartWidth, canvasWidth, canvasHeight, padding;
        lra. }
    constructor; [apply Hnone; reflexivity|].
    constructor; [|constructor].
    unfold drawsInside. cbn [chartPoints].
    constructor; [exact Hmarker | constructor].
  - unfold highlight.
    pose proof (highZones_inside h false 0%nat Hr ltac:(lia)) as Hz.
    destruct (highZones false 0 h) as [cmds final]. cbn [fst] in Hz.
    apply Forall_app. split; [exact Hz|].
    destruct final; repeat constructor.
Qed.

Lemma effect_inside s h :
  Forall (fun d => 0 <= d <= 120) h ->
  (length h <= maxDataPoints)%nat -> 0 <= s <= 120 ->
  Forall (fun d => 0 <= d <= 120) (effect s h)
  /\ (length (effect s h) <= maxDataPoints)%nat.
Proof.
  intros Hr Hlen Hs. unfold effect.
  destruct (decide (0 < s)); [|split; assumption].
  unfold appendSample. split.
  - apply slice_last_Forall, Forall_app. split; [exact Hr|].
    constructor; [exact Hs | constructor].
  - rewrite slice_last_length. lia.
Qed.

Lemma frames_inside samples : forall st,
  Forall (fun s => 0 <= s <= 120) samples ->
  Forall (fun d => 0 <= d <= 120) (decibelHistory st) ->
  (length (decibelHistory st) <= maxDataPoints)%nat ->
  Forall (Forall drawsInside) (frames st samples).
Proof.
  induction samples as [|s rest IH]; intros st Hsamples Hr Hlen;
    [constructor|].
  apply Forall_cons in Hsamples as [Hs Hsamples].
  destruct (effect_inside s (decibelHistory st) Hr Hlen Hs) as [Hr' Hlen'].
  cbn [frames]. apply Forall_app. split.
  - unfold redraws. destruct (effectRuns st s); [|constructor].
    constructor; [apply redraw_inside; assumption|].
    destruct (decide (0 < s)); [|constructor].
    constructor; [apply redraw_inside; assumption | constructor].
  - apply IH; [exact Hsamples | |];
      unfold render; destruct (effectRuns st s); assumption.
Qed.

(** X3: when every delivered level is between 0 and 120, every run of the
    redraw effect keeps its lines and its marker in the chart rectangle
    [20, 280] x [20, 130] of the 300 x 150 canvas: the ends of the grid
    lines, the points of the line of the levels and of the path that is
    filled, the centre of the marker of the current level and the points
    of the overlay. *)
Theorem chart_points_stay_in_rectangle (samples : list R)
    (Hrange : Forall (fun s => 0 <= s <= 120) samples) :
  Forall (Forall drawsInside) (frames initial samples).
Proof.
  apply frames_inside; [exact Hrange | constructor | simpl; lia].
Qed.

Lemma chart_points_stay_in_rectangle_witness :
  Forall (fun s => 0 <= s <= 120) [30; 95; 120]
  /\ Forall (Forall drawsInside) (frames initial [30; 95; 120]).
Proof.
  assert (H : Forall (fun s => 0 <= s <= 120) [30; 95; 120])
    by (repeat constructor; lra).
  split; [exact H|].
  exact (chart_points_stay_in_rectangle [30; 95; 120] H).
Defined.

(** *** The overlay of the levels above 80 *)





(** *** The statistics under the chart *)

Lemma fold_Rmax_bounds l : forall m,
  m <= fold_left Rmax l m
  /\ Forall (fun d => d <= fold_left Rmax l m) l
  /\ (fold_left Rmax l m = m \/ fold_left Rmax l m ∈ l).
Proof.
  induction l as [|a l IH]; intros m; simpl.
  - split; [lra|]. split; [constructor | left; reflexivity].
  - destruct (IH (Rmax m a)) as (H1 & H2 & H3).
    pose proof (Rmax_l m a). pose proof (Rmax_r m a).
    split; [lra|]. split.
    + constructor; [lra | exact H2].
    + destruct H3 as [H3 | H3].
      * rewrite H3. unfold Rmax. destruct (Rle_dec m a).
        -- right. apply list_elem_of_here.
        -- left. reflexivity.
      * right. apply list_elem_of_further, H3.
Qed.

Lemma fold_Rplus_from l : forall acc,
  fold_left Rplus l acc = acc + fold_left Rplus l 0.
Proof.
  induction l as [|a l IH]; intros acc; simpl; [lra|].
  rewrite IH, (IH (0 + a)). lra.
Qed.

Lemma sum_between l lo hi :
  Forall (fun d => lo <= d <= hi) l ->
  lo * INR (length l) <= fold_left Rplus l 0 <= hi * INR (length l).
Proof.
  induction 1 as [|a l Ha _ IH].
  - simpl. lra.
  - cbn [fold_left]. rewrite fold_Rplus_from.
    change (length (a :: l)) with (S (length l)). rewrite S_INR. nra.
Qed.

(** X5: whenever the redraw effect draws -- the history of a render is
    not empty -- the maximum it shows is an entry of the history that no
    entry exceeds, and the average it shows is a finite number that is
    strictly positive: neither is NaN or -Infinity. *)
Theorem chart_statistics (samples : list R) (currentDecibel : R)
    (Hne : decibelHistory (run initial samples) <> []) :
  exists m a,
    omap statistics
         (redraw (decibelHistory (run initial samples)) currentDecibel)
    = [(JS.Fin m, JS.Fin a)]
    /\ m ∈ decibelHistory (run initial samples)
    /\ Forall (fun d => d <= m) (decibelHistory (run initial samples))
    /\ 0 < a.
Proof.
  pose proof (history_from_samples samples) as [Hentries _].
  destruct (decibelHistory (run initial samples)) as [|d h] eqn:Hh;
    [congruence|].
  destruct (fold_Rmax_bounds h d) as (H1 & H2 & H3).
  set (m := fold_left Rmax h d) in *.
  assert (Hall : Forall (fun e => e <= m) (d :: h))
    by (constructor; assumption).
  assert (Hlen : 0 < INR (length (d :: h)))
    by (apply lt_0_INR; simpl; lia).
  assert (Hsumpos : 0 < fold_left Rplus (d :: h) 0).
  { cbn [fold_left]. rewrite fold_Rplus_from.
    apply Forall_cons_1 in Hentries as [[Hd _] Hrest].
    assert (Hr : Forall (fun e => 0 <= e <= m) h).
    { apply Forall_cons_1 in Hall as [_ Hall'].
      rewrite Forall_forall in Hall', Hrest |- *. intros e He.
      destruct (Hrest e He). specialize (Hall' e He). lra. }
    apply sum_between in Hr.
    assert (0 <= INR (length h)) by apply pos_INR. nra. }
  exists m, (fold_left Rplus (d :: h) 0 / INR (length (d :: h))).
  split; [|split; [|split; [exact Hall|]]].
  - assert (Hnone : forall l : list ChartCommand,
              Forall (fun c => statistics c = None) l ->
              omap statistics l = []).
    { intros cmds Hcmds.
      induction Hcmds as [|c cmds Hc _ IH]; [reflexivity|].
      cbn [omap list_omap]. rewrite Hc. exact IH. }
    unfold redraw. rewrite !omap_app.
    rewrite (Hnone [ClearRect canvasWidth canvasHeight])
      by (repeat constructor).
    rewrite (Hnone gridRows).
    2:{ unfold gridRows. apply Forall_forall. intros c Hc.
        apply list_elem_of_In, in_map_iff in Hc as (i & <- & _).
        reflexivity. }
    rewrite (Hnone gridColumns).
    2:{ unfold gridColumns. apply Forall_forall. intros c Hc.
        apply list_elem_of_In, in_map_iff in Hc as (i & <- & _).
        reflexivity. }
    rewrite (Hnone (if decide (1 < length (d :: h))%nat then _ else [])).
    2:{ destruct (decide (1 < length (d :: h))%nat); [|constructor].
        rewrite !Forall_app. split; [|split].
        - generalize 0%nat. generalize (d :: h). clear.
          induction l as [|b l IH]; intros start; [constructor|].
          cbn [polyline]. constructor; [|apply IH].
          destruct (decide (start = 0%nat)); reflexivity.
        - repeat constructor.
        - unfold highlight.
          assert (Hz : forall l flag start,
                    Forall (fun c => statistics c = None)
                           (fst (highZones flag start l))).
          { clear. induction l as [|b l IH]; intros flag start;
              [constructor|].
            cbn [highZones]. destruct (decide (80 < b)).
            - specialize (IH true (S start)).
              destruct (highZones true (S start) l) as [cmds final].
              cbn [fst] in *. constructor; [destruct flag; reflexivity|].
              exact IH.
            - specialize (IH false (S start)).
              destruct (highZones false (S start) l) as [cmds final].
              cbn [fst] in *. apply Forall_app. split; [|exact IH].
              destruct flag; repeat constructor. }
          specialize (Hz (d :: h) false 0%nat).
          destruct (highZones false 0 (d :: h)) as [cmds final].
          cbn [fst] in Hz. apply Forall_app. split; [exact Hz|].
          destruct final; repeat constructor. }
    cbn [app omap list_omap statistics].
    unfold JS.div. destruct (decide (INR (length (d :: h)) = 0)); [lra|].
    reflexivity.
  - destruct H3 as [-> | H3];
      [apply list_elem_of_here | apply list_elem_of_further, H3].
  - apply Rdiv_lt_0_compat; assumption.
Qed.

Lemma chart_statistics_witness :
  decibelHistory (run initial [30; 0; 45]) <> []
  /\ exists m a,
       omap statistics
            (redraw (decibelHistory (run initial [30; 0; 45])) 45)
       = [(JS.Fin m, JS.Fin a)]
       /\ m ∈ decibelHistory (run initial [30; 0; 45])
       /\ Forall (fun d => d <= m) (decibelHistory (run initial [30; 0; 45]))
       /\ 0 < a.
Proof.
  assert (H : decibelHistory (run initial [30; 0; 45]) <> []).
  { assert (Hl : last (decibelHistory (run initial [30; 0; 45])) = Some 45).
    { apply (run_newest [30; 0; 45] initial).
      - intros d Hd. discriminate Hd.
      - apply run_lastDep. discriminate.
      - lra. }
    intros Heq. rewrite Heq in Hl. discriminate Hl. }
  split; [exact H|].
  exact (chart_statistics [30; 0; 45] 45 H).
Defined.

End ChartFacts.

(** ** SonarView: the pulse and the drag *)

Section SonarInteraction.
Import SonarView.

Lemma step_pulse st e :
  (0 <= pulseRadius st < 150)%Z /\ (pulseRadius st mod 5 = 0)%Z ->
  (0 <= pulseRadius (step st e) < 150)%Z
  /\ (pulseRadius (step st e) mod 5 = 0)%Z.
Proof.
  intros [Hrange Hmod].
  destruct e as [px py|px py| | |]; simpl; try (split; assumption).
  - unfold handleMouseDown. destruct (decide (_ <= 15)); split; assumption.
  - unfold handleMouseMove. destruct (isDragging st); split; assumption.
  - split.
    + apply Z.mod_pos_bound. lia.
    + pose proof (Z.div_mod (pulseRadius st) 5 ltac:(lia)) as Hr.
      rewrite Hmod in Hr.
      rewrite (Z.mod_eq (pulseRadius st + 5) 150) by lia.
      set (q := ((pulseRadius st + 5) / 150)%Z).
      set (k := (pulseRadius st / 5)%Z) in *.
      replace (pulseRadius st + 5 - 150 * q)%Z
        with ((k + 1 - 30 * q) * 5)%Z by lia.
      apply Z_mod_mult.
Qed.

Lemma run_pulse events : forall st,
  (0 <= pulseRadius st < 150)%Z /\ (pulseRadius st mod 5 = 0)%Z ->
  (0 <= pulseRadius (run st events) < 150)%Z
  /\ (pulseRadius (run st events) mod 5 = 0)%Z.
Proof.
  induction events as [|e rest IH]; intros st Hst; [exact Hst|].
  simpl. apply IH, step_pulse, Hst.
Qed.

(** X6: after every sequence of events the pulse radius is a multiple of 5
    in [0, 150), and the pulse ring is drawn with that radius and an
    opacity in (0, 1]: the ring never reaches the radius 150 and is never
    fully transparent. *)
Theorem pulse_radius_and_opacity (events : list event) (center : Point) :
  exists radius alpha,
    drawPulse (run initial events) center = [Pulse center radius alpha]
    /\ radius = IZR (pulseRadius (run initial events))
    /\ (0 <= pulseRadius (run initial events) < 150)%Z
    /\ (pulseRadius (run initial events) mod 5 = 0)%Z
    /\ 0 < alpha <= 1.
Proof.
  destruct (run_pulse events initial) as [Hrange Hmod].
  { simpl. split; [lia | reflexivity]. }
  eexists _, _. split; [reflexivity|]. split; [reflexivity|].
  split; [exact Hrange|]. split; [exact Hmod|].
  destruct Hrange as [Hlo Hhi]. apply IZR_le in Hlo. apply IZR_lt in Hhi.
  split.
  - apply Rdiv_lt_0_compat; lra.
  - apply Rmult_le_reg_r with (r := 150); [lra|].
    unfold Rdiv. rewrite Rmult_assoc, Rinv_l by lra. lra.
Qed.

Lemma step_idle st e :
  isDragging st = false -> missesListener (listenerPosition st) e ->
  isDragging (step st e) = false
  /\ listenerPosition (step st e) = listenerPosition st.
Proof.
  intros Hidle Hmiss.
  destruct e as [px py|px py| | |]; cbn [step missesListener] in *.
  - unfold handleMouseDown.
    destruct (decide (_ <= 15)) as [Hle|_]; [lra | auto].
  - unfold handleMouseMove. rewrite Hidle. simpl. auto.
  - auto.
  - auto.
  - auto.
Qed.

(** X7: while no drag is under way, the listener stays where it is through
    every sequence of events in which no press falls within 15 of it:
    moves, releases, leaves, pulse ticks and presses elsewhere do not move
    it. *)
Theorem listener_moves_only_in_a_drag (st : state) (events : list event)
    (Hidle : isDragging st = false)
    (Hmiss : Forall (missesListener (listenerPosition st)) events) :
  listenerPosition (run st events) = listenerPosition st
  /\ isDragging (run st events) = false.
Proof.
  revert st Hidle Hmiss.
  induction events as [|e rest IH]; intros st Hidle Hmiss; [auto|].
  apply Forall_cons_1 in Hmiss as [He Hrest].
  destruct (step_idle st e Hidle He) as [Hidle' Hpos].
  simpl. destruct (IH (step st e)) as [H1 H2].
  - exact Hidle'.
  - rewrite Hpos. exact Hrest.
  - split; [congruence | exact H2].
Qed.

Lemma listener_moves_only_in_a_drag_witness :
  isDragging initial = false
  /\ Forall (missesListener (listenerPosition initial))
            [MouseMove 10 10; MouseUp; PulseTick]
  /\ listenerPosition (run initial [MouseMove 10 10; MouseUp; PulseTick])
     = listenerPosition initial.
Proof.
  assert (H1 : isDragging initial = false) by reflexivity.
  assert (H2 : Forall (missesListener (listenerPosition initial))
                      [MouseMove 10 10; MouseUp; PulseTick])
    by (repeat constructor).
  split; [exact H1|]. split; [exact H2|].
  exact (proj1 (listener_moves_only_in_a_drag initial _ H1 H2)).
Defined.

(** X8: a press within 15 of the listener, a move to (qx, qy) and a
    release put the listener at (qx, qy) with each coordinate clamped to
    [20, 480] -- exactly at (qx, qy) when that point is within the
    margins -- and a move after the release no longer changes it; the
    press itself does not move the listener. *)
Theorem press_move_release (st : state) (px py qx qy rx ry : R)
    (Hnear : sqrt ((px - x (listenerPosition st)) ^ 2
                   + (py - y (listenerPosition st)) ^ 2) <= 15) :
  listenerPosition (run st [MouseDown px py]) = listenerPosition st
  /\ listenerPosition
       (run st [MouseDown px py; MouseMove qx qy; MouseUp; MouseMove rx ry])
     = mkPoint (clampToCanvas qx) (clampToCanvas qy)
  /\ (20 <= qx <= 480 -> clampToCanvas qx = qx)
  /\ (20 <= qy <= 480 -> clampToCanvas qy = qy).
Proof.
  assert (Hdown : handleMouseDown st px py
                  = mkState (listenerPosition st) true (pulseRadius st)).
  { unfold handleMouseDown.
    destruct (decide (_ <= 15)) as [_|Hn]; [reflexivity | contradiction]. }
  split; [|split; [|split]].
  - simpl. rewrite Hdown. reflexivity.
  - simpl. rewrite Hdown. reflexivity.
  - intros [Hlo Hhi]. unfold clampToCanvas.
    rewrite Rmin_left by lra. apply Rmax_right. lra.
  - intros [Hlo Hhi]. unfold clampToCanvas.
    rewrite Rmin_left by lra. apply Rmax_right. lra.
Qed.

Lemma press_move_release_witness :
  sqrt ((250 - x (listenerPosition initial)) ^ 2
        + (250 - y (listenerPosition initial)) ^ 2) <= 15
  /\ listenerPosition
       (run initial
            [MouseDown 250 250; MouseMove 100 300; MouseUp; MouseMove 7 7])
     = mkPoint (clampToCanvas 100) (clampToCanvas 300).
Proof.
  assert (H : sqrt ((250 - x (listenerPosition initial)) ^ 2
                    + (250 - y (listenerPosition initial)) ^ 2) <= 15).
  { replace ((250 - x (listenerPosition initial)) ^ 2
             + (250 - y (listenerPosition initial)) ^ 2) with 0
      by (simpl; lra).
    rewrite sqrt_0. lra. }
  split; [exact H|].
  exact (proj1 (proj2 (press_move_release initial 250 250 100 300 7 7 H))).
Defined.

End SonarInteraction.

(** ** SonarView: what a frame writes into the sources *)

Section FrameAndStore.
Import SonarView.

Lemma drawn_again s center :
  drawn (drawn s center) center = drawn s center.
Proof. reflexivity. Qed.

Lemma drawAudioSource_snd h l center :
  snd (drawAudioSource h l center)
  = match h !! l with
    | Some s => <[l := drawn s center]> h
    | None => h
    end.
Proof.
  unfold drawAudioSource, Store.read, Store.modify.
  destruct (h !! l) as [s|] eqn:Hl; reflexivity.
Qed.

(** *** A second frame changes nothing *)

Lemma drawAudioSources_snd_cons h l rest center :
  snd (drawAudioSources h (l :: rest) center)
  = snd (drawAudioSources (snd (drawAudioSource h l center)) rest center).
Proof.
  cbn [drawAudioSources]. destruct (drawAudioSource h l center) as [cmds h1].
  cbn [snd]. destruct (drawAudioSources h1 rest center) as [cmds' h2].
  reflexivity.
Qed.

Lemma insert_drawn_keeps h l s center refs :
  h !! l = Some s -> allDrawn h refs center ->
  allDrawn (<[l := drawn s center]> h) refs center.
Proof.
  intros Hl Hall. unfold allDrawn in *.
  eapply Forall_impl; [exact Hall|]. simpl. intros k Hk s' Hs'.
  destruct (decide (k = l)) as [->|Hne].
  - rewrite list_lookup_insert_eq in Hs' by (eapply lookup_lt_Some; eauto).
    injection Hs' as <-. eauto.
  - rewrite list_lookup_insert_ne in Hs' by congruence. eauto.
Qed.

Lemma drawAudioSources_allDrawn refs : forall h center seen,
  allDrawn h seen center ->
  allDrawn (snd (drawAudioSources h refs center)) (seen ++ refs) center.
Proof.
  induction refs as [|l rest IH]; intros h center seen Hseen.
  - simpl. rewrite app_nil_r. exact Hseen.
  - rewrite drawAudioSources_snd_cons, drawAudioSource_snd.
    replace (seen ++ l :: rest) with ((seen ++ [l]) ++ rest)
      by (rewrite <- app_assoc; reflexivity).
    apply IH. unfold allDrawn. apply Forall_app. split.
    + destruct (h !! l) as [s|] eqn:Hl; [|exact Hseen].
      apply insert_drawn_keeps; assumption.
    + constructor; [|constructor]. intros s' Hs'.
      destruct (h !! l) as [s|] eqn:Hl.
      * rewrite list_lookup_insert_eq in Hs'
          by (eapply lookup_lt_Some; eauto).
        injection Hs' as <-. eauto.
      * congruence.
Qed.

Lemma drawAudioSources_fixed refs : forall h center,
  allDrawn h refs center -> snd (drawAudioSources h refs center) = h.
Proof.
  induction refs as [|l rest IH]; intros h center Hall; [reflexivity|].
  apply Forall_cons_1 in Hall as [Hl Hrest].
  rewrite drawAudioSources_snd_cons, drawAudioSource_snd.
  destruct (h !! l) as [s|] eqn:Hs; [|apply IH, Hrest].
  destruct (Hl s eq_refl) as (s0 & ->).
  rewrite drawn_again, list_insert_id by exact Hs.
  apply IH, Hrest.
Qed.

Lemma animate_snd st h refs isRecording :
  snd (animate st h refs isRecording)
  = snd (drawAudioSources h refs (listenerPosition st)).
Proof.
  unfold animate.
  destruct (drawAudioSources h refs (listenerPosition st)) as [cmds h1].
  reflexivity.
Qed.

(** X10: once a frame has been drawn, a further frame over the same
    sources, drawn with the listener where it was, leaves the store exactly
    as it is: the positions are rewritten with the same values, so that
    the frames of the animation loop do not change the sources between two
    moves of the listener. *)
Theorem later_frames_change_nothing
    (st st' : state) (h : Store.store) (refs : list Store.ref)
    (isRecording isRecording' : bool)
    (Hsame : listenerPosition st' = listenerPosition st) :
  snd (animate st' (snd (animate st h refs isRecording)) refs isRecording')
  = snd (animate st h refs isRecording).
Proof.
  rewrite !animate_snd, Hsame.
  apply drawAudioSources_fixed.
  apply (drawAudioSources_allDrawn refs h (listenerPosition st) []).
  constructor.
Qed.

Lemma later_frames_change_nothing_witness :
  listenerPosition (pulseTick initial) = listenerPosition initial
  /\ snd (animate (pulseTick initial)
            (snd (animate initial [sampleSource; hiddenSource]
                          [0%nat; 1%nat] true))
            [0%nat; 1%nat] true)
     = snd (animate initial [sampleSource; hiddenSource]
                    [0%nat; 1%nat] true).
Proof.
  split; [reflexivity|].
  exact (later_frames_change_nothing (pulseTick initial) initial
           [sampleSource; hiddenSource] [0%nat; 1%nat] true true eq_refl).
Defined.

(** *** Sources that are not drawn *)

Lemma drawAudioSources_untouched refs : forall h center l s,
  Forall (fun k => forall o, h !! k = Some o -> visible o = true) refs ->
  h !! l = Some s -> visible s = false ->
  snd (drawAudioSources h refs center) !! l = Some s.
Proof.
  induction refs as [|k rest IH]; intros h center l s Hvis Hl Hs;
    [exact Hl|].
  apply Forall_cons_1 in Hvis as [Hk Hrest].
  rewrite drawAudioSources_snd_cons, drawAudioSource_snd.
  destruct (h !! k) as [o|] eqn:Ho; [|apply IH; assumption].
  assert (Hne : k <> l).
  { intros ->. rewrite Hl in Ho. injection Ho as <-.
    specialize (Hk s eq_refl). congruence. }
  apply IH.
  - eapply Forall_impl; [exact Hrest|]. simpl. intros j Hj o' Ho'.
    destruct (decide (j = k)) as [->|Hjk].
    + rewrite list_lookup_insert_eq in Ho'
        by (eapply lookup_lt_Some; eauto).
      injection Ho' as <-. simpl. apply Hk. reflexivity.
    + rewrite list_lookup_insert_ne in Ho' by congruence. eauto.
  - rewrite list_lookup_insert_ne by exact Hne. exact Hl.
  - exact Hs.
Qed.

Lemma filterRefs_visible h refs :
  Forall (fun k => forall o, h !! k = Some o -> visible o = true)
         (Store.filterRefs h visible refs).
Proof.
  unfold Store.filterRefs. apply Forall_forall. intros k Hk o Ho.
  apply list_elem_of_In, filter_In in Hk as [_ Hk].
  unfold Store.read in Hk. rewrite Ho in Hk. exact Hk.
Qed.

(** X11: a frame of the SonarView leaves every hidden source exactly as it
    is, position included: only the visible sources are handed to the
    view. *)
Theorem hidden_sources_are_not_touched
    (st : App.state) (l : Store.ref) (s : AudioSource)
    (Hread : Store.read (App.store st) l = Some s)
    (Hhidden : visible s = false) :
  Store.read (App.store (App.applyUpdate st App.SonarFrame)) l = Some s.
Proof.
  simpl. unfold App.sonarFrame.
  destruct (App.showSonar st); [|exact Hread].
  pose proof (animate_snd (App.sonar st) (App.store st) (App.visibleRefs st)
                (App.isRecording st)) as Hsnd.
  destruct (animate _ _ _ _) as [frame h1]. simpl in *. subst h1.
  apply drawAudioSources_untouched; [|exact Hread|exact Hhidden].
  apply filterRefs_visible.
Qed.

Lemma hidden_sources_are_not_touched_witness :
  Store.read
    (App.store (App.run App.initial
                  [App.HandleAudioAnalysis [sampleSource; hiddenSource]]))
    1%nat = Some hiddenSource
  /\ visible hiddenSource = false
  /\ Store.read
       (App.store
          (App.applyUpdate
             (App.run App.initial
                [App.HandleAudioAnalysis [sampleSource; hiddenSource]])
             App.SonarFrame)) 1%nat
     = Some hiddenSource.
Proof.
  split; [reflexivity|]. split; [reflexivity|].
  exact (hidden_sources_are_not_touched
           (App.run App.initial
              [App.HandleAudioAnalysis [sampleSource; hiddenSource]])
           1%nat hiddenSource eq_refl eq_refl).
Defined.

End FrameAndStore.

(** ** App: toggles and frames over the shared list *)

Section ToggleAndFrame.

Lemma toggleRefs_map soundId refs : forall h refs' h',
  Forall (fun l => (l < length h)%nat) refs ->
  App.toggleRefs h refs soundId = (refs', h') ->
  (exists extra, h' = h ++ extra)
  /\ Store.resolve h' refs' = map (flipIf soundId) (Store.resolve h refs).
Proof.
  induction refs as [|l rest IH]; intros h refs' h' Hvalid Htoggle.
  - simpl in Htoggle. injection Htoggle as <- <-.
    split; [exists []; rewrite app_nil_r; reflexivity | reflexivity].
  - apply Forall_cons_1 in Hvalid as [Hl Hvalid].
    destruct (lookup_lt_is_Some_2 h l Hl) as [source Hsource].
    simpl in Htoggle. unfold Store.read in Htoggle.
    rewrite Hsource in Htoggle.
    rewrite (resolve_cons h), Hsource. cbn [map]. unfold flipIf at 1.
    destruct (String.eqb (id source) soundId).
    + unfold Store.alloc in Htoggle.
      set (copy := mkAudioSource _ _ _ _ _ _ _ _ _) in Htoggle |- *.
      destruct (App.toggleRefs (h ++ [copy]) rest soundId)
        as [refs'' h2] eqn:Hrec.
      injection Htoggle as <- <-.
      destruct (IH (h ++ [copy]) refs'' h2) as ((extra & ->) & Hres);
        [|exact Hrec|].
      { eapply Forall_impl; [exact Hvalid|]. simpl. intros k Hk.
        rewrite length_app. simpl. lia. }
      split; [exists ([copy] ++ extra); rewrite app_assoc; reflexivity|].
      rewrite resolve_cons, <- app_assoc. cbn [app].
      rewrite list_lookup_middle by reflexivity.
      f_equal. rewrite <- app_assoc in Hres. cbn [app] in Hres.
      rewrite Hres. f_equal.
      change (h ++ [copy]) with (h ++ [copy]).
      apply (resolve_prefix h [copy] rest Hvalid).
    + destruct (App.toggleRefs h rest soundId) as [refs'' h2] eqn:Hrec.
      injection Htoggle as <- <-.
      destruct (IH h refs'' h2 Hvalid Hrec) as ((extra & ->) & Hres).
      split; [exists extra; reflexivity|].
      rewrite resolve_cons, lookup_app_l, Hsource by exact Hl.
      f_equal. exact Hres.
Qed.

Lemma toggle_sources st soundId :
  wellFormed st ->
  App.sources (App.toggleSoundVisibility st soundId)
  = map (flipIf soundId) (App.sources st).
Proof.
  intros Hwf. unfold App.toggleSoundVisibility, App.sources.
  destruct (App.toggleRefs _ _ _) as [refs h] eqn:Htoggle. simpl.
  apply (toggleRefs_map soundId _ _ refs h Hwf Htoggle).
Qed.

Lemma flipIf_twice soundId s : flipIf soundId (flipIf soundId s) = s.
Proof.
  unfold flipIf. destruct (String.eqb (id s) soundId) eqn:He.
  - simpl. rewrite He. destruct s; simpl. rewrite negb_involutive.
    reflexivity.
  - rewrite He. reflexivity.
Qed.

(** X12: in every state the App can reach, toggling a sound identifier
    negates the visibility of exactly the sources with that identifier and
    keeps every other source, every other field and the order of the list;
    toggling the same identifier twice gives the list back. *)
Theorem toggle_flips_matching_sources
    (past : list App.action) (soundId : string) :
  App.sources (App.toggleSoundVisibility (App.run App.initial past) soundId)
  = map (flipIf soundId) (App.sources (App.run App.initial past))
  /\ App.sources
       (App.toggleSoundVisibility
          (App.toggleSoundVisibility (App.run App.initial past) soundId)
          soundId)
     = App.sources (App.run App.initial past).
Proof.
  assert (Hwf : wellFormed (App.run App.initial past)).
  { apply run_wellFormed. unfold wellFormed. simpl. constructor. }
  assert (Hwf' : wellFormed
            (App.toggleSoundVisibility (App.run App.initial past) soundId)).
  { apply (applyUpdate_wellFormed _ (App.ToggleSoundVisibility soundId) Hwf). }
  split; [apply toggle_sources, Hwf|].
  rewrite (toggle_sources _ soundId Hwf'), (toggle_sources _ soundId Hwf).
  rewrite map_map. rewrite <- (map_id (App.sources _)) at 2.
  apply map_ext. intros s. apply flipIf_twice.
Qed.

(** *** The census of a frame *)

Lemma census_app p (a b : list SonarView.DrawCommand) :
  census p (a ++ b) = (census p a + census p b)%nat.
Proof. unfold census. rewrite List.filter_app, length_app. reflexivity. Qed.

Lemma drawAudioSource_census h l center :
  (l < length h)%nat ->
  census isMarker (fst (SonarView.drawAudioSource h l center)) = 1%nat
  /\ census isWave (fst (SonarView.drawAudioSource h l center)) = 3%nat
  /\ census isLabel (fst (SonarView.drawAudioSource h l center)) = 0%nat.
Proof.
  intros Hl. destruct (lookup_lt_is_Some_2 h l Hl) as [source Hsource].
  unfold SonarView.drawAudioSource, Store.read. rewrite Hsource.
  repeat split; reflexivity.
Qed.

Lemma drawAudioSources_census refs : forall h center,
  Forall (fun l => (l < length h)%nat) refs ->
  census isMarker (fst (SonarView.drawAudioSources h refs center))
  = length refs
  /\ census isWave (fst (SonarView.drawAudioSources h refs center))
     = (3 * length refs)%nat
  /\ census isLabel (fst (SonarView.drawAudioSources h refs center)) = 0%nat.
Proof.
  induction refs as [|l rest IH]; intros h center Hvalid.
  - simpl. auto.
  - apply Forall_cons_1 in Hvalid as [Hl Hvalid].
    cbn [SonarView.drawAudioSources].
    pose proof (drawAudioSource_store h l center) as Hrel.
    destruct (drawAudioSource_census h l center Hl) as (S1 & S2 & S3).
    destruct (SonarView.drawAudioSource h l center) as [cmds h1].
    cbn [fst snd] in *.
    assert (Hvalid1 : Forall (fun k => (k < length h1)%nat) rest).
    { rewrite <- (Forall2_length _ _ _ Hrel). exact Hvalid. }
    destruct (IH h1 center Hvalid1) as (I1 & I2 & I3).
    destruct (SonarView.drawAudioSources h1 rest center) as [cmds' h2].
    cbn [fst] in *. rewrite !census_app, S1, S2, S3, I1, I2, I3.
    cbn [length]. repeat split; lia.
Qed.

Lemma drawLabelsFrom_census sources : forall index len center,
  census isLabel (SonarView.drawLabelsFrom index len sources center)
  = length sources
  /\ census isMarker (SonarView.drawLabelsFrom index len sources center)
     = 0%nat
  /\ census isWave (SonarView.drawLabelsFrom index len sources center)
     = 0%nat.
Proof.
  induction sources as [|s rest IH]; intros index len center; [auto|].
  destruct (IH (S index) len center) as (I1 & I2 & I3).
  unfold census in *. simpl. rewrite I1, I2, I3. auto.
Qed.

Lemma resolve_length h refs :
  Forall (fun l => (l < length h)%nat) refs ->
  length (Store.resolve h refs) = length refs.
Proof.
  induction 1 as [|l rest Hl _ IH]; [reflexivity|].
  rewrite resolve_cons.
  destruct (lookup_lt_is_Some_2 h l Hl) as [s ->]. simpl. rewrite IH.
  reflexivity.
Qed.

Lemma filterRefs_cons h p l rest :
  Store.filterRefs h p (l :: rest)
  = if match h !! l with Some o => p o | None => false end
    then l :: Store.filterRefs h p rest
    else Store.filterRefs h p rest.
Proof. reflexivity. Qed.

Lemma visibleRefs_length h refs :
  Forall (fun l => (l < length h)%nat) refs ->
  length (Store.filterRefs h visible refs)
  = length (List.filter visible (Store.resolve h refs))
  /\ Forall (fun l => (l < length h)%nat) (Store.filterRefs h visible refs).
Proof.
  induction 1 as [|l rest Hl _ [IH1 IH2]]; [split; [reflexivity|constructor]|].
  rewrite filterRefs_cons, resolve_cons.
  destruct (lookup_lt_is_Some_2 h l Hl) as [s Hs]. rewrite Hs.
  cbn [List.filter]. destruct (visible s).
  - split; [simpl; rewrite IH1; reflexivity | constructor; assumption].
  - split; assumption.
Qed.

(** X13: in every state the App can reach with the sonar view shown, a
    frame draws one marker, three wave rings and one label for each
    visible source and none for a hidden one: the number of markers is the
    count of "active sources" in the caption of the view. *)
Theorem frame_draws_the_visible_sources (past : list App.action)
    (Hshown : App.showSonar (App.run App.initial past) = true) :
  census isMarker (fst (App.sonarFrame (App.run App.initial past)))
  = length (List.filter visible (App.sources (App.run App.initial past)))
  /\ census isLabel (fst (App.sonarFrame (App.run App.initial past)))
     = length (List.filter visible (App.sources (App.run App.initial past)))
  /\ census isWave (fst (App.sonarFrame (App.run App.initial past)))
     = (3 * length (List.filter visible
                      (App.sources (App.run App.initial past))))%nat.
Proof.
  assert (Hwf : wellFormed (App.run App.initial past)).
  { apply run_wellFormed. unfold wellFormed. simpl. constructor. }
  set (st := App.run App.initial past) in *.
  unfold App.sonarFrame. rewrite Hshown.
  destruct (visibleRefs_length (App.store st) (App.audioSources st) Hwf)
    as [Hcount Hvalid].
  fold (App.visibleRefs st) in Hcount, Hvalid.
  fold (App.sources st) in Hcount.
  unfold SonarView.animate.
  destruct (drawAudioSources_census (App.visibleRefs st) (App.store st)
              (SonarView.listenerPosition (App.sonar st)) Hvalid)
    as (C1 & C2 & C3).
  pose proof (drawAudioSources_store (App.visibleRefs st) (App.store st)
                (SonarView.listenerPosition (App.sonar st))) as Hrel.
  destruct (SonarView.drawAudioSources _ _ _) as [cmds h1].
  cbn [fst snd] in *.
  assert (Hvalid1 : Forall (fun l => (l < length h1)%nat)
                           (App.visibleRefs st)).
  { rewrite <- (Forall2_length _ _ _ Hrel). exact Hvalid. }
  destruct (drawLabelsFrom_census (Store.resolve h1 (App.visibleRefs st)) 0
              (length (Store.resolve h1 (App.visibleRefs st)))
              (SonarView.listenerPosition (App.sonar st)))
    as (L1 & L2 & L3).
  fold (SonarView.drawLabels (Store.resolve h1 (App.visibleRefs st))
          (SonarView.listenerPosition (App.sonar st))) in L1, L2, L3.
  rewrite (resolve_length h1 _ Hvalid1) in L1.
  rewrite !census_app, C1, C2, C3, L1, L2, L3, <- Hcount.
  destruct (App.isRecording st); cbn; repeat split; lia.
Qed.

Lemma frame_draws_the_visible_sources_witness :
  App.showSonar
    (App.run App.initial
       [App.HandleAudioAnalysis [sampleSource; hiddenSource]]) = true
  /\ census isMarker
       (fst (App.sonarFrame
               (App.run App.initial
                  [App.HandleAudioAnalysis [sampleSource; hiddenSource]])))
     = length (List.filter visible
                 (App.sources
                    (App.run App.initial
                       [App.HandleAudioAnalysis
                          [sampleSource; hiddenSource]]))).
Proof.
  split; [reflexivity|].
  exact (proj1 (frame_draws_the_visible_sources
                  [App.HandleAudioAnalysis [sampleSource; hiddenSource]]
                  eq_refl)).
Defined.

End ToggleAndFrame.

(** ** SonarView: where the markers and the labels of a frame are *)

Section SonarPlacementInFrame.

Lemma markerPoint_polar s center :
  SonarView.markerPoint s center
  = polar center (SonarView.NtoR (numberOfDigits (digitsOf (id s))) * 0.5)
          (distance s * 5).
Proof.
  unfold SonarView.markerPoint, SonarView.markerAngle, polar.
  rewrite idHash_digits. reflexivity.
Qed.

Lemma markerOf_related center (l l' : list AudioSource) :
  Forall2 samePosFree l l' ->
  map (markerOf center) l' = map (markerOf center) l.
Proof.
  induction 1 as [|s s' l l' Hs _ IH]; [reflexivity|].
  simpl. rewrite IH. f_equal.
  destruct Hs as ((Hid & _ & _ & Hdb & _ & Hdist & Hcolor) & _).
  unfold markerOf. rewrite Hid, Hdb, Hdist, Hcolor. reflexivity.
Qed.

Lemma labelOf_related center len (l l' : list AudioSource) : forall start,
  Forall2 samePosFree l l' ->
  imap (fun i => labelOf center len (start + i)) l'
  = imap (fun i => labelOf center len (start + i)) l.
Proof.
  intros start H. revert start.
  induction H as [|s s' l l' Hs _ IH]; intros start; [reflexivity|].
  cbn [imap]. f_equal.
  - destruct Hs as ((_ & Hname & _ & Hdb & _ & _ & Hcolor) & _).
    unfold labelOf. rewrite Hname, Hdb, Hcolor. reflexivity.
  - rewrite (imap_ext _ (fun i => labelOf center len (S start + i)) l')
      by (intros i x _; simpl; f_equal; lia).
    rewrite (imap_ext (_ ∘ S) (fun i => labelOf center len (S start + i)) l)
      by (intros i x _; simpl; f_equal; lia).
    apply IH.
Qed.

Lemma drawAudioSources_markers refs : forall h center,
  Forall (fun l => (l < length h)%nat) refs ->
  List.filter isMarker (fst (SonarView.drawAudioSources h refs center))
  = map (markerOf center) (Store.resolve h refs).
Proof.
  induction refs as [|l rest IH]; intros h center Hvalid; [reflexivity|].
  apply Forall_cons_1 in Hvalid as [Hl Hvalid].
  cbn [SonarView.drawAudioSources]. rewrite resolve_cons.
  pose proof (drawAudioSource_store h l center) as Hrel.
  destruct (lookup_lt_is_Some_2 h l Hl) as [source Hsource].
  assert (Hcmds : List.filter isMarker
                    (fst (SonarView.drawAudioSource h l center))
                  = [markerOf center source]).
  { unfold SonarView.drawAudioSource, Store.read. rewrite Hsource.
    cbn. rewrite markerPoint_polar. reflexivity. }
  rewrite Hsource.
  destruct (SonarView.drawAudioSource h l center) as [cmds h1].
  cbn [fst snd] in *.
  assert (Hvalid1 : Forall (fun k => (k < length h1)%nat) rest).
  { rewrite <- (Forall2_length _ _ _ Hrel). exact Hvalid. }
  specialize (IH h1 center Hvalid1).
  destruct (SonarView.drawAudioSources h1 rest center) as [cmds' h2].
  cbn [fst] in *. rewrite List.filter_app, Hcmds, IH.
  cbn [app map]. f_equal.
  apply markerOf_related, resolve_related, Hrel.
Qed.

Lemma drawLabelsFrom_labels sources : forall start len center,
  SonarView.drawLabelsFrom start len sources center
  = imap (fun i => labelOf center len (start + i)) sources.
Proof.
  induction sources as [|s rest IH]; intros start len center; [reflexivity|].
  cbn [SonarView.drawLabelsFrom imap]. f_equal.
  - unfold labelOf, SonarView.labelPoint, polar. rewrite Nat.add_0_r.
    reflexivity.
  - rewrite IH. apply imap_ext. intros i x _. simpl. f_equal. lia.
Qed.

Lemma census_none p (frame : list SonarView.DrawCommand) :
  census p frame = 0%nat -> List.filter p frame = [].
Proof. unfold census. apply nil_length_inv. Qed.

Lemma census_all p (frame : list SonarView.DrawCommand) :
  census p frame = length frame -> List.filter p frame = frame.
Proof.
  unfold census. induction frame as [|c frame IH]; [reflexivity|].
  simpl. destruct (p c); simpl; intros H.
  - f_equal. apply IH. lia.
  - pose proof (List.filter_length_le p frame). lia.
Qed.

Lemma resolve_filterRefs h refs :
  Forall (fun l => (l < length h)%nat) refs ->
  Store.resolve h (Store.filterRefs h visible refs)
  = List.filter visible (Store.resolve h refs).
Proof.
  induction 1 as [|l rest Hl _ IH]; [reflexivity|].
  rewrite filterRefs_cons, resolve_cons.
  destruct (lookup_lt_is_Some_2 h l Hl) as [s Hs]. rewrite Hs.
  cbn [List.filter]. destruct (visible s); [|exact IH].
  rewrite resolve_cons, Hs, IH. reflexivity.
Qed.

(** C9: in every state the App can reach with the sonar view shown, the
    markers a frame draws are, in order, those of the visible sources --
    each at the angle 0.5 * (the integer the digits of its identifier
    form, 0 without a digit) and at the radius 5 * distance from the
    listener, wherever the listener has been dragged -- and the labels it
    draws are those of the visible sources, the label of a source being at
    the angle 2 pi * (index / number of visible sources) for its index
    among the visible sources, at the radius 280 from the listener: the
    place of a label does not depend on the identifier or the distance
    that place the marker.  A hidden source has neither. *)
Theorem marker_and_label_placement (past : list App.action)
    (Hshown : App.showSonar (App.run App.initial past) = true) :
  List.filter isMarker (fst (App.sonarFrame (App.run App.initial past)))
  = map (markerOf (SonarView.listenerPosition
                     (App.sonar (App.run App.initial past))))
        (List.filter visible (App.sources (App.run App.initial past)))
  /\ List.filter isLabel (fst (App.sonarFrame (App.run App.initial past)))
     = imap (labelOf (SonarView.listenerPosition
                        (App.sonar (App.run App.initial past)))
                     (length (List.filter visible
                                (App.sources (App.run App.initial past)))))
            (List.filter visible (App.sources (App.run App.initial past))).
Proof.
  assert (Hwf : wellFormed (App.run App.initial past)).
  { apply run_wellFormed. unfold wellFormed. simpl. constructor. }
  set (st := App.run App.initial past) in *.
  set (center := SonarView.listenerPosition (App.sonar st)).
  unfold App.sonarFrame. rewrite Hshown.
  destruct (visibleRefs_length (App.store st) (App.audioSources st) Hwf)
    as [_ Hvalid].
  pose proof (resolve_filterRefs (App.store st) (App.audioSources st) Hwf)
    as Hshown_sources.
  fold (App.visibleRefs st) in Hvalid, Hshown_sources.
  fold (App.sources st) in Hshown_sources.
  unfold SonarView.animate. fold center.
  pose proof (drawAudioSources_markers (App.visibleRefs st) (App.store st)
                center Hvalid) as Hmarkers.
  destruct (drawAudioSources_census (App.visibleRefs st) (App.store st)
              center Hvalid) as (_ & _ & C3).
  pose proof (drawAudioSources_store (App.visibleRefs st) (App.store st)
                center) as Hrel.
  destruct (SonarView.drawAudioSources _ _ _) as [cmds h1].
  cbn [fst snd] in *.
  set (shown := Store.resolve h1 (App.visibleRefs st)).
  assert (Hrel' : Forall2 samePosFree
                    (List.filter visible (App.sources st)) shown).
  { rewrite <- Hshown_sources. apply resolve_related, Hrel. }
  destruct (drawLabelsFrom_census shown 0 (length shown) center)
    as (L1 & L2 & _).
  fold (SonarView.drawLabels shown center) in L1, L2.
  assert (Hlabels : SonarView.drawLabels shown center
                    = imap (labelOf center
                              (length (List.filter visible (App.sources st))))
                           (List.filter visible (App.sources st))).
  { unfold SonarView.drawLabels. rewrite drawLabelsFrom_labels.
    rewrite <- (Forall2_length _ _ _ Hrel').
    apply (labelOf_related center _ _ _ 0%nat Hrel'). }
  assert (Hrest_m : forall b : bool,
            List.filter isMarker
              (SonarView.drawListener center
                 ++ (if b then SonarView.drawPulse (App.sonar st) center
                     else [])
                 ++ SonarView.drawLabels shown center) = []).
  { intros b. rewrite !List.filter_app, (census_none _ _ L2).
    destruct b; reflexivity. }
  assert (Hrest_l : forall b : bool,
            List.filter isLabel
              (SonarView.drawListener center
                 ++ (if b then SonarView.drawPulse (App.sonar st) center
                     else [])
                 ++ SonarView.drawLabels shown center)
            = SonarView.drawLabels shown center).
  { intros b.
    rewrite !List.filter_app,
      (census_all isLabel (SonarView.drawLabels shown center)).
    - destruct b; reflexivity.
    - rewrite L1. unfold SonarView.drawLabels.
      rewrite drawLabelsFrom_labels, length_imap. reflexivity. }
  split.
  - rewrite !List.filter_app, Hmarkers, Hshown_sources.
    rewrite <- !List.filter_app, Hrest_m. cbn. apply app_nil_r.
  - rewrite !List.filter_app, (census_none _ _ C3).
    rewrite <- !List.filter_app, Hrest_l. cbn. exact Hlabels.
Qed.

Lemma marker_and_label_placement_witness :
  App.showSonar
    (App.run App.initial
       [App.HandleAudioAnalysis [sampleSource; hiddenSource]]) = true
  /\ List.filter isMarker
       (fst (App.sonarFrame
               (App.run App.initial
                  [App.HandleAudioAnalysis [sampleSource; hiddenSource]])))
     = map (markerOf
              (SonarView.listenerPosition
                 (App.sonar
                    (App.run App.initial
                       [App.HandleAudioAnalysis
                          [sampleSource; hiddenSource]]))))
           (List.filter visible
              (App.sources
                 (App.run App.initial
                    [App.HandleAudioAnalysis
                       [sampleSource; hiddenSource]]))).
Proof.
  split; [reflexivity|].
  exact (proj1 (marker_and_label_placement
                  [App.HandleAudioAnalysis [sampleSource; hiddenSource]]
                  eq_refl)).
Defined.

End SonarPlacementInFrame.

(** ** AudioAnalyzer and ReportGenerator: the figures shown *)

Section Figures.
Import AudioAnalyzer.

Lemma countType_cons t s rest :
  countType t (s :: rest)
  = ((if decide (type s = t) then 1 else 0) + countType t rest)%nat.
Proof.
  unfold countType. rewrite filter_cons.
  destruct (decide (type s = t)); reflexivity.
Qed.

Lemma counts_partition audioSources :
  (countType noise audioSources + countType voice audioSources
   + countType music audioSources + countType ambient audioSources
   + countType unknown audioSources = length audioSources)%nat.
Proof.
  induction audioSources as [|s rest IH]; [reflexivity|].
  rewrite !countType_cons. simpl length.
  destruct (type s);
    repeat (destruct (decide _) as [?|?]; try discriminate; try congruence);
    lia.
Qed.

Lemma maxOf_bounds l :
  l <> [] ->
  exists m, JS.maxOf l = JS.Fin m /\ m ∈ l /\ Forall (fun d => d <= m) l.
Proof.
  intros Hne. destruct l as [|d l]; [congruence|].
  destruct (fold_Rmax_bounds l d) as (H1 & H2 & H3).
  exists (fold_left Rmax l d). split; [reflexivity|]. split.
  - destruct H3 as [-> | H3];
      [apply list_elem_of_here | apply list_elem_of_further, H3].
  - constructor; assumption.
Qed.

(** X14: whatever the random draws, the counts by category of the result
    record add up to its totalSources (the five categories partition the
    list), its confidence is 85 + 10 r for the first draw r, between 85
    and 95, and its number of anomalies is 0, 1 or 2. *)
Theorem result_counts_and_random_fields
    (audioSources : list AudioSource) (rnd : Random.oracle)
    (Hvalid : Random.valid rnd) :
  exists r,
    Random.run (generateAnalysisResults audioSources) rnd = Some r
    /\ totalSources r = length audioSources
    /\ (d_noise (sourceDistribution r) + d_voice (sourceDistribution r)
        + d_music (sourceDistribution r) + d_ambient (sourceDistribution r)
        + d_unknown (sourceDistribution r) = totalSources r)%nat
    /\ mlConfidence r = 85 + rnd 0%nat * 10
    /\ 85 <= mlConfidence r <= 95
    /\ (0 <= anomalies r <= 2)%Z.
Proof.
  eexists. split; [reflexivity|]. cbn -[JS.floor].
  split; [reflexivity|]. split; [apply counts_partition|].
  pose proof (Hvalid 0%nat) as H0. pose proof (Hvalid 1%nat) as H1.
  split; [reflexivity|]. split; [lra|].
  pose proof (floor_scaled (rnd 1%nat) 3 H1 ltac:(lia)). lia.
Qed.

Lemma result_counts_and_random_fields_witness :
  Random.valid zeroOracle
  /\ exists r,
       Random.run (generateAnalysisResults [sampleSource]) zeroOracle
       = Some r
       /\ totalSources r = length [sampleSource].
Proof.
  split; [exact zeroOracle_valid|].
  destruct (result_counts_and_random_fields [sampleSource] zeroOracle
              zeroOracle_valid) as (r & Hr & Ht & _).
  exists r. split; assumption.
Defined.

Lemma ambientDecibels_bounds audioSources m :
  Forall (fun s => 0 <= decibel s <= m) audioSources ->
  0 <= ambientDecibels audioSources <= m * INR (length audioSources).
Proof.
  unfold ambientDecibels.
  induction 1 as [|s rest Hs _ IH].
  - simpl. lra.
  - rewrite filter_cons. change (length (s :: rest)) with (S (length rest)).
    rewrite S_INR. destruct (decide (type s = ambient)); simpl; nra.
Qed.

(** X15: for a non-empty list of sources the peak level and the dominant
    frequency of the result record are finite, each the value of one of
    the sources that no source exceeds; when the levels are not negative
    the noise level is finite and not negative.  None of the figures shown
    is NaN or -Infinity. *)
Theorem peak_and_noise_are_finite
    (audioSources : list AudioSource) (rnd : Random.oracle)
    (Hne : audioSources <> [])
    (Hlevels : Forall (fun s => 0 <= decibel s) audioSources) :
  exists r peak dominant noiseFloor,
    Random.run (generateAnalysisResults audioSources) rnd = Some r
    /\ peakDecibel r = JS.Fin peak
    /\ peak ∈ map decibel audioSources
    /\ Forall (fun d => d <= peak) (map decibel audioSources)
    /\ dominantFrequency r = JS.Fin dominant
    /\ dominant ∈ map frequency audioSources
    /\ Forall (fun f => f <= dominant) (map frequency audioSources)
    /\ noiseLevel r = JS.Fin noiseFloor
    /\ 0 <= noiseFloor.
Proof.
  destruct (maxOf_bounds (map decibel audioSources)) as (m & Hm & Hin & Hall).
  { destruct audioSources; [congruence | discriminate]. }
  destruct (maxOf_bounds (map frequency audioSources))
    as (f & Hf & Hfin & Hfall).
  { destruct audioSources; [congruence | discriminate]. }
  assert (Hlen : 0 < INR (length audioSources)).
  { destruct audioSources; [congruence|]. apply lt_0_INR. simpl. lia. }
  assert (Hbounds : Forall (fun s => 0 <= decibel s <= m) audioSources).
  { apply Forall_forall. intros s Hs. split.
    - exact (proj1 (Forall_forall _ _) Hlevels s Hs).
    - apply (proj1 (Forall_forall _ _) Hall).
      apply list_elem_of_In, in_map, list_elem_of_In, Hs. }
  apply ambientDecibels_bounds in Hbounds.
  eexists.
  exists m, f, (ambientDecibels audioSources / INR (length audioSources)).
  split; [reflexivity|]. cbn -[JS.floor JS.maxOf].
  split; [exact Hm|]. split; [exact Hin|]. split; [exact Hall|].
  split; [exact Hf|]. split; [exact Hfin|]. split; [exact Hfall|].
  split.
  { rewrite backgroundNoise_ambient. unfold JS.div.
    destruct (decide (INR (length audioSources) = 0)); [lra|].
    unfold JS.or_zero. destruct (decide (_ = 0)) as [Hz|_];
      [rewrite Hz|]; reflexivity. }
  apply Rmult_le_pos; [lra|]. left. apply Rinv_0_lt_compat. exact Hlen.
Qed.

Lemma peak_and_noise_are_finite_witness :
  [sampleSource] <> []
  /\ Forall (fun s => 0 <= decibel s) [sampleSource]
  /\ exists r peak,
       Random.run (generateAnalysisResults [sampleSource]) zeroOracle
       = Some r
       /\ peakDecibel r = JS.Fin peak
       /\ peak ∈ map decibel [sampleSource].
Proof.
  assert (H1 : [sampleSource] <> []) by discriminate.
  assert (H2 : Forall (fun s => 0 <= decibel s) [sampleSource]).
  { repeat constructor. simpl. lra. }
  split; [exact H1|]. split; [exact H2|].
  destruct (peak_and_noise_are_finite [sampleSource] zeroOracle H1 H2)
    as (r & peak & _ & _ & Hr & Hp & Hin & _).
  exists r, peak. split; [exact Hr|]. split; [exact Hp | exact Hin].
Defined.

(** X16: over a clock whose readings never decrease, every value given to
    [setAnalysisProgress] is between 0 and 100: the bar never overshoots,
    however late the timers fire. *)
Theorem progress_stays_within_0_and_100 (clock : list Z)
    (Hclock : Sorted Z.le clock) :
  Forall (fun r => 0 <= snd r <= 100) (startAnalysis clock).
Proof.
  assert (Htot : 0 < IZR (totalDuration analysisStages)).
  { rewrite analysisStages_total. lra. }
  assert (Hss : StronglySorted Z.le clock).
  { apply Sorted_StronglySorted; [|exact Hclock].
    intros a b c. apply Z.le_trans. }
  destruct (runStages_facts (IZR (totalDuration analysisStages)) Htot
              analysisStages 0 clock analysisStages_positive Hss)
    as (Q1 & _ & _).
  assert (Hw : weightOf analysisStages (IZR (totalDuration analysisStages))
               = 100).
  { unfold weightOf. field. lra. }
  unfold startAnalysis. constructor.
  - simpl. lra.
  - eapply Forall_impl; [exact Q1|]. simpl. intros r Hr. lra.
Qed.

Lemma progress_stays_within_0_and_100_witness :
  Sorted Z.le sampleClock
  /\ Forall (fun r => 0 <= snd r <= 100) (startAnalysis sampleClock).
Proof.
  split; [exact sampleClock_sorted|].
  exact (progress_stays_within_0_and_100 sampleClock sampleClock_sorted).
Defined.

End Figures.

Section ReportFigures.
Import ReportGenerator.

Lemma noisy_iff_peak l m :
  m ∈ map decibel l -> Forall (fun d => d <= m) (map decibel l) ->
  (0 < length (filter (fun s => (70 < decibel s)%R) l))%nat <-> 70 < m.
Proof.
  intros Hin Hall. split.
  - intros Hpos.
    destruct (filter (fun s => 70 < decibel s) l) as [|s rest] eqn:Hf;
      [simpl in Hpos; lia|].
    assert (Hs : s ∈ filter (fun s => 70 < decibel s) l)
      by (rewrite Hf; apply list_elem_of_here).
    apply list_elem_of_filter in Hs as [Hs70 Hs].
    rewrite Forall_forall in Hall.
    assert (decibel s <= m).
    { apply Hall. apply list_elem_of_In, in_map, list_elem_of_In, Hs. }
    lra.
  - intros Hm. apply list_elem_of_In, in_map_iff in Hin as (s & Hs & Hin).
    assert (Hs' : s ∈ filter (fun s => 70 < decibel s) l).
    { apply list_elem_of_filter. split; [lra | apply list_elem_of_In, Hin]. }
    destruct (filter (fun s => 70 < decibel s) l);
      [apply elem_of_nil in Hs'; contradiction | simpl; lia].
Qed.

(** X17: for a non-empty source list the report is rendered with one row
    per source, a finite peak that is the level of one of the sources and
    that no source exceeds, a finite average, and a count of noisy sources
    that is at most the number of sources and is positive -- the alert is
    shown -- exactly when the peak exceeds 70. *)
Theorem report_figures_are_consistent
    (audioSources : list AudioSource)
    (analysisData : option AudioAnalyzer.AnalysisResults) (datasetSize : R)
    (Hne : audioSources <> []) :
  exists r peak average,
    render audioSources analysisData datasetSize = Rendered r
    /\ length (rows r) = length audioSources
    /\ sourcesDetected r = length audioSources
    /\ highestDb r = JS.Fin peak
    /\ averageDb r = JS.Fin average
    /\ peak ∈ map decibel audioSources
    /\ Forall (fun d => d <= peak) (map decibel audioSources)
    /\ (noisySources r <= sourcesDetected r)%nat
    /\ ((0 < noisySources r)%nat <-> 70 < peak).
Proof.
  destruct (maxOf_bounds (map decibel audioSources)) as (m & Hm & Hin & Hall).
  { destruct audioSources; [congruence | discriminate]. }
  assert (Hlen : 0 < INR (length audioSources)).
  { destruct audioSources; [congruence|]. apply lt_0_INR. simpl. lia. }
  unfold render.
  destruct (decide (length audioSources = 0%nat)) as [H0|_].
  { destruct audioSources; [congruence | discriminate]. }
  eexists. exists m,
    (fold_left (fun sum s => sum + decibel s) audioSources 0
     / INR (length audioSources)).
  split; [reflexivity|].
  cbn [rows sourcesDetected highestDb averageDb noisySources].
  split; [apply length_map|]. split; [reflexivity|]. split; [exact Hm|].
  split.
  { unfold JS.div. destruct (decide (INR (length audioSources) = 0)); [lra|].
    reflexivity. }
  split; [exact Hin|]. split; [exact Hall|].
  split; [apply length_filter|].
  apply noisy_iff_peak; assumption.
Qed.

Lemma report_figures_are_consistent_witness :
  [sampleSource; hiddenSource] <> []
  /\ exists r,
       render [sampleSource; hiddenSource] None 1 = Rendered r
       /\ length (rows r) = 2%nat.
Proof.
  assert (H : [sampleSource; hiddenSource] <> []) by discriminate.
  split; [exact H|].
  destruct (report_figures_are_consistent [sampleSource; hiddenSource]
              None 1 H) as (r & _ & _ & Hr & Hrows & _).
  exists r. split; [exact Hr | exact Hrows].
Defined.

End ReportFigures.

(** ** AudioUploader: selecting and removing files *)

Section UploadedFiles.
Import AudioUploader.

Lemma size_fold_from files : forall acc,
  fold_left (fun acc file => (acc + file_size file)%N) files acc
  = (acc + totalBytes files)%N.
Proof.
  unfold totalBytes.
  induction files as [|f rest IH]; intros acc; simpl; [lia|].
  rewrite IH. lia.
Qed.

Lemma totalSize_bytes files :
  totalSize files = IZR (Z.of_N (totalBytes files)) / (1024 * 1024).
Proof. unfold totalSize. rewrite size_fold_from. reflexivity. Qed.

Lemma totalBytes_app a b :
  totalBytes (a ++ b) = (totalBytes a + totalBytes b)%N.
Proof.
  unfold totalBytes. induction a as [|f a IH]; simpl; [reflexivity|].
  rewrite IH. lia.
Qed.

Lemma totalSize_app a b : totalSize (a ++ b) = totalSize a + totalSize b.
Proof.
  rewrite !totalSize_bytes, totalBytes_app, N2Z.inj_add, plus_IZR.
  field.
Qed.

Lemma totalSize_nonneg files : 0 <= totalSize files.
Proof.
  rewrite totalSize_bytes.
  apply Rmult_le_pos; [apply IZR_le; lia|].
  left. apply Rinv_0_lt_compat. lra.
Qed.

(** *** The audio test *)

Lemma prefix_iff (p s : string) :
  String.prefix p s = true <-> exists rest, s = (p ++ rest)%string.
Proof.
  revert s. induction p as [|a p IH]; intros s.
  - split; [intros _; exists s; reflexivity | destruct s; reflexivity].
  - destruct s as [|b s]; simpl.
    + split; [discriminate | intros [rest Hrest]; discriminate Hrest].
    + destruct (ascii_dec a b) as [->|Hne].
      * rewrite IH. split; intros [rest Hrest]; exists rest.
        -- rewrite Hrest. reflexivity.
        -- injection Hrest as ->. reflexivity.
      * split; [discriminate|]. intros [rest Hrest].
        injection Hrest as Hab _. congruence.
Qed.

Lemma substring_all (s : string) : substring 0 (String.length s) s = s.
Proof. induction s as [|c s IH]; simpl; [reflexivity | rewrite IH; reflexivity]. Qed.

Lemma substring_after (stem suffix : string) :
  substring (String.length stem) (String.length suffix) (stem ++ suffix)
  = suffix.
Proof.
  induction stem as [|c stem IH]; simpl; [apply substring_all | exact IH].
Qed.

Lemma substring_split (s : string) : forall m,
  (m <= String.length s)%nat ->
  s = (substring 0 m s ++ substring m (String.length s - m) s)%string.
Proof.
  induction s as [|c s IH]; intros m Hm.
  - destruct m; [reflexivity | simpl in Hm; lia].
  - destruct m as [|m].
    + cbn [substring String.append]. rewrite Nat.sub_0_r.
      symmetry. apply (substring_all (String c s)).
    + simpl in Hm. cbn [substring String.append String.length Nat.sub].
      f_equal. apply IH. lia.
Qed.

Lemma length_append (a b : string) :
  String.length (a ++ b) = (String.length a + String.length b)%nat.
Proof. induction a; simpl; congruence. Qed.

Lemma endsWith_iff (suffix s : string) :
  endsWith suffix s = true <-> exists stem, s = (stem ++ suffix)%string.
Proof.
  unfold endsWith. rewrite andb_true_iff, Nat.leb_le, String.eqb_eq. split.
  - intros [Hle Hsub].
    exists (substring 0 (String.length s - String.length suffix) s).
    rewrite <- Hsub at 2.
    replace (String.length suffix)
      with (String.length s
            - (String.length s - String.length suffix))%nat at 3 by lia.
    apply substring_split. lia.
  - intros [stem ->]. rewrite length_append. split; [lia|].
    replace (String.length stem + String.length suffix
             - String.length suffix)%nat
      with (String.length stem) by lia.
    apply substring_after.
Qed.

Lemma lowercase_app (a b : string) :
  lowercase (a ++ b) = (lowercase a ++ lowercase b)%string.
Proof. induction a as [|c a IH]; simpl; [reflexivity | rewrite IH; reflexivity]. Qed.

Lemma lowercase_split (x y : string) : forall s,
  lowercase s = (x ++ y)%string ->
  exists a b, s = (a ++ b)%string /\ lowercase a = x /\ lowercase b = y.
Proof.
  induction x as [|c x IH]; intros s Hs.
  - exists EmptyString, s. repeat split. exact Hs.
  - destruct s as [|d s]; [discriminate Hs|].
    simpl in Hs. injection Hs as Hc Hs.
    destruct (IH s Hs) as (a & b & -> & Ha & Hb).
    exists (String d a), b. simpl. rewrite Hc, Ha. auto.
Qed.

Lemma isAudio_iff (f : File) : isAudio f = true <-> namedAsAudio f.
Proof.
  unfold isAudio, namedAsAudio.
  rewrite orb_true_iff, prefix_iff, existsb_exists.
  apply or_iff_compat_l. split.
  - intros (suffix & Hin & Hends). apply endsWith_iff in Hends as [x Hx].
    destruct (lowercase_split x suffix _ Hx) as (stem & ext & Hname & _ & Hext).
    exists stem, ext. split; [exact Hname|].
    rewrite Hext. apply list_elem_of_In, Hin.
  - intros (stem & ext & Hname & Hext).
    exists (lowercase ext). split; [apply list_elem_of_In, Hext|].
    apply endsWith_iff. exists (lowercase stem).
    rewrite Hname. apply lowercase_app.
Qed.

Lemma filter_sublist {A} (p : A -> bool) (l : list A) :
  sublist (List.filter p l) l.
Proof.
  induction l as [|a l IH]; simpl; [constructor|].
  destruct (p a); [apply sublist_skip | apply sublist_cons]; exact IH.
Qed.

(** X18: the files a selection adds are those of the selected files whose
    MIME type begins with audio/ or whose name ends with .mp3, .wav, .ogg,
    .m4a, .aac or .flac in any case of the letters; they are added in the
    order of the selection, after the files already uploaded; an analysis
    is started, over all the uploaded files, exactly when a file was
    added. *)
Theorem selection_keeps_audio_files (uploadedFiles files : list File) :
  exists added,
    newUploadedFiles (handleFileSelect uploadedFiles files)
    = uploadedFiles ++ added
    /\ sublist added files
    /\ (forall f, f ∈ added <-> f ∈ files /\ namedAsAudio f)
    /\ toAnalyze (handleFileSelect uploadedFiles files)
       = (if decide (added = []) then None
          else Some (uploadedFiles ++ added)).
Proof.
  exists (List.filter isAudio files).
  split; [reflexivity|]. split; [apply filter_sublist|]. split.
  - intros f. rewrite <- isAudio_iff.
    split; intros H.
    + apply list_elem_of_In, filter_In in H as [Hin Ha].
      split; [apply list_elem_of_In, Hin | exact Ha].
    + destruct H as [Hin Ha]. apply list_elem_of_In, filter_In.
      split; [apply list_elem_of_In, Hin | exact Ha].
  - unfold handleFileSelect. cbn [toAnalyze].
    destruct (List.filter isAudio files); reflexivity.
Qed.

(** A file with an upper-case extension and no MIME type is kept; a text
    file is not. *)
Example isAudio_by_extension :
  isAudio (mkFile "Interview.MP3" "" 10) = true
  /\ isAudio (mkFile "notes.txt" "text/plain" 10) = false
  /\ isAudio (mkFile "mp3" "" 10) = false.
Proof. repeat split; reflexivity. Qed.

(** X19: the size a selection reports is the size of the files already
    uploaded plus the bytes of the added audio files over 1024 * 1024: it
    never decreases, and it is not negative. *)
Theorem reported_size_accumulates (uploadedFiles files : list File) :
  reportedSize (handleFileSelect uploadedFiles files)
  = totalSize uploadedFiles
    + IZR (Z.of_N (totalBytes (List.filter isAudio files))) / (1024 * 1024)
  /\ totalSize uploadedFiles
     <= reportedSize (handleFileSelect uploadedFiles files)
  /\ 0 <= totalSize uploadedFiles.
Proof.
  assert (H : reportedSize (handleFileSelect uploadedFiles files)
              = totalSize uploadedFiles
                + totalSize (List.filter isAudio files)).
  { unfold handleFileSelect. simpl. apply totalSize_app. }
  pose proof (totalSize_nonneg (List.filter isAudio files)) as Hnn.
  split.
  { rewrite H. f_equal. apply totalSize_bytes. }
  split; [lra | apply totalSize_nonneg].
Qed.

(** *** Removing a file *)

Lemma withoutIndex_spec files : forall start index,
  withoutIndex start index files
  = if decide (start <= index)%nat
    then take (index - start) files ++ drop (S (index - start)) files
    else files.
Proof.
  induction files as [|f rest IH]; intros start index; simpl.
  - destruct (decide (start <= index)%nat); [|reflexivity].
    rewrite take_nil. reflexivity.
  - destruct (decide (start = index)) as [->|Hne].
    + rewrite IH.
      destruct (decide (S index <= index)%nat); [lia|].
      destruct (decide (index <= index)%nat); [|lia].
      replace (index - index)%nat with 0%nat by lia. reflexivity.
    + rewrite IH. destruct (decide (start <= index)%nat) as [Hle|Hgt].
      * destruct (decide (S start <= index)%nat); [|lia].
        replace (index - start)%nat with (S (index - S start)) by lia.
        reflexivity.
      * destruct (decide (S start <= index)%nat); [lia | reflexivity].
Qed.

(** X20: removing the file of index i keeps the other files in order; when
    i is the index of a file f, one file fewer remains and the reported
    size is the previous size minus the bytes of f over 1024 * 1024; an
    index past the end removes nothing; the remaining files are analysed
    again unless none is left. *)
Theorem removal_drops_one_file (uploadedFiles : list File) (index : nat) :
  remainingFiles (removeFile uploadedFiles index)
  = take index uploadedFiles ++ drop (S index) uploadedFiles
  /\ (forall f, uploadedFiles !! index = Some f ->
        S (length (remainingFiles (removeFile uploadedFiles index)))
        = length uploadedFiles
        /\ remainingSize (removeFile uploadedFiles index)
           = totalSize uploadedFiles
             - IZR (Z.of_N (file_size f)) / (1024 * 1024))
  /\ (uploadedFiles !! index = None ->
        remainingFiles (removeFile uploadedFiles index) = uploadedFiles)
  /\ (reanalyze (removeFile uploadedFiles index)
      = if decide (remainingFiles (removeFile uploadedFiles index) = [])
        then None
        else Some (remainingFiles (removeFile uploadedFiles index))).
Proof.
  assert (Hrem : remainingFiles (removeFile uploadedFiles index)
                 = take index uploadedFiles ++ drop (S index) uploadedFiles).
  { unfold removeFile. simpl. rewrite withoutIndex_spec.
    destruct (decide (0 <= index)%nat); [|lia].
    rewrite Nat.sub_0_r. reflexivity. }
  split; [exact Hrem|]. split; [|split].
  - intros f Hf.
    assert (Hsplit : uploadedFiles
                     = take index uploadedFiles
                       ++ f :: drop (S index) uploadedFiles).
    { symmetry. apply take_drop_middle, Hf. }
    split.
    + rewrite Hrem. rewrite Hsplit at 3. rewrite !length_app. simpl. lia.
    + unfold removeFile. cbn [remainingSize].
      fold (remainingFiles (removeFile uploadedFiles index)).
      change (withoutIndex 0 index uploadedFiles)
        with (remainingFiles (removeFile uploadedFiles index)).
      rewrite Hrem. rewrite Hsplit at 3.
      rewrite !totalSize_app.
      replace (f :: drop (S index) uploadedFiles)
        with ([f] ++ drop (S index) uploadedFiles) by reflexivity.
      rewrite totalSize_app.
      assert (Hf1 : totalSize [f]
                    = IZR (Z.of_N (file_size f)) / (1024 * 1024)).
      { rewrite totalSize_bytes. unfold totalBytes. simpl.
        rewrite N.add_0_r. reflexivity. }
      rewrite Hf1. lra.
  - intros Hnone. rewrite Hrem.
    apply lookup_ge_None in Hnone.
    rewrite take_ge, drop_ge by lia. apply app_nil_r.
  - unfold removeFile. simpl.
    destruct (withoutIndex 0 index uploadedFiles); reflexivity.
Qed.

End UploadedFiles.

(** ** The App after an upload or a removal *)

Section AfterUpload.
Import AudioUploader.

Lemma mockSource_figures file fileIndex sourceIndex :
  succeeds (mockSource file fileIndex sourceIndex) uploadedFigures.
Proof.
  unfold mockSource.
  eapply succeeds_bind; [apply succeeds_random|]. intros t Ht.
  destruct (category_defined (JS.floor (t * 5))) as [c Hc].
  { apply (floor_scaled t 5 Ht). lia. }
  eapply succeeds_bind; [apply (succeeds_lift _ c Hc)|]. intros ty ->.
  eapply succeeds_bind; [apply succeeds_random|]. intros d Hd.
  eapply succeeds_bind; [apply succeeds_random|]. intros f Hf.
  do 3 (eapply succeeds_bind; [apply succeeds_random|]; intros ? _).
  eapply succeeds_bind; [apply succeeds_random|]. intros r Hr.
  eapply succeeds_bind; [apply succeeds_random|]. intros hue _.
  apply succeeds_ret. unfold uploadedFigures. simpl. lra.
Qed.

Lemma analyzeFiles_groups (P : AudioSource -> Prop) files :
  (forall file i j, succeeds (mockSource file i j) P) ->
  succeeds (analyzeFiles files)
           (fun l => exists groups,
              l = concat groups /\ length groups = length files
              /\ Forall (fun g => (2 <= length g <= 4)%nat /\ Forall P g)
                        groups).
Proof.
  intros HP. unfold analyzeFiles. apply succeeds_flatMap. intros file k.
  unfold sourcesOfFile.
  eapply succeeds_bind; [apply succeeds_random|]. intros n Hn.
  pose proof (floor_scaled n 3 Hn ltac:(lia)) as Hf.
  intros rnd i Hvalid.
  destruct (succeeds_tabulate (mockSource file k) P
              (Z.to_nat (2 + JS.floor (n * 3))) (HP file k) 0%nat rnd i Hvalid)
    as (g & j & Hrun & Hlen & Hg).
  exists g, j. split; [exact Hrun|]. split; [lia | exact Hg].
Qed.

Lemma concat_groups {A} (P : A -> Prop) (groups : list (list A)) :
  Forall (fun g => (2 <= length g <= 4)%nat /\ Forall P g) groups ->
  (2 * length groups <= length (concat groups) <= 4 * length groups)%nat
  /\ Forall P (concat groups).
Proof.
  induction 1 as [|g rest [Hlen Hg] _ [IH1 IH2]]; simpl.
  - split; [lia | constructor].
  - rewrite length_app. split; [lia|]. apply Forall_app. split; assumption.
Qed.

(** X21: under every oracle with draws in [0, 1), an upload that adds k
    audio files to an empty uploader delivers between 2 k and 4 k sources
    to the App, each with a frequency between 100 and 1100 and a distance
    between 1 and 26, and the dataset size the App then holds is the sum
    of frequency * 0.001 over these sources, whatever the sizes of the
    files are. *)
Theorem source_count_after_upload
    (st : App.state) (files : list File) (rnd : Random.oracle)
    (Hvalid : Random.valid rnd)
    (Haudio : List.filter isAudio files <> []) :
  exists st',
    App.upload st files rnd = Some st'
    /\ (2 * length (List.filter isAudio files)
        <= length (App.sources st')
        <= 4 * length (List.filter isAudio files))%nat
    /\ Forall uploadedFigures (App.sources st')
    /\ App.datasetSize st'
       = fold_left (fun a s => a + frequency s * 0.001) (App.sources st') 0.
Proof.
  destruct (succeeds_run _ _ rnd
              (analyzeFiles_groups uploadedFigures
                 (List.filter isAudio files) mockSource_figures) Hvalid)
    as (objs & Hrun & groups & -> & Hlen & Hgroups).
  destruct (concat_groups _ _ Hgroups) as [Hcount Hall].
  rewrite Hlen in Hcount.
  assert (Hup : App.upload st files rnd
                = Some (App.handleAudioAnalysis
                          (App.setDatasetSize st
                             (reportedSize (handleFileSelect [] files)))
                          (concat groups))).
  { unfold App.upload, handleFileSelect. simpl.
    destruct (List.filter isAudio files) as [|f fs] eqn:Hf; [congruence|].
    simpl. rewrite Hrun. reflexivity. }
  eexists. split; [exact Hup|].
  destruct (handleAudioAnalysis_sources
              (App.setDatasetSize st
                 (reportedSize (handleFileSelect [] files)))
              (concat groups)) as [Hsrc _].
  rewrite Hsrc.
  split; [exact Hcount|]. split; [exact Hall|].
  unfold App.handleAudioAnalysis. rewrite allocAll_spec. reflexivity.
Qed.

Lemma source_count_after_upload_witness :
  Random.valid zeroOracle
  /\ List.filter isAudio [sampleFile] <> []
  /\ exists st',
       App.upload App.initial [sampleFile] zeroOracle = Some st'
       /\ (2 * length (List.filter isAudio [sampleFile])
           <= length (App.sources st')
           <= 4 * length (List.filter isAudio [sampleFile]))%nat.
Proof.
  assert (H : List.filter isAudio [sampleFile] <> []) by discriminate.
  split; [exact zeroOracle_valid|]. split; [exact H|].
  destruct (source_count_after_upload App.initial [sampleFile] zeroOracle
              zeroOracle_valid H) as (st' & Hup & Hcount & _).
  exists st'. split; [exact Hup | exact Hcount].
Defined.

(** X22: when a removal leaves no file, the App's source list is emptied at
    once and its dataset size is 0, so the report falls back to "No
    Analysis Data Available" and a frame of the sonar view has no
    marker. *)
Theorem removing_the_last_file
    (st : App.state) (uploadedFiles : list File) (index : nat)
    (rnd : Random.oracle)
    (Hlast : remainingFiles (removeFile uploadedFiles index) = []) :
  exists st',
    App.removeUploaded st uploadedFiles index rnd = Some st'
    /\ App.sources st' = []
    /\ App.datasetSize st' = 0
    /\ App.reportView st' = ReportGenerator.NoAnalysisDataAvailable
    /\ census isMarker (fst (App.sonarFrame st')) = 0%nat.
Proof.
  unfold App.removeUploaded.
  assert (Hre : reanalyze (removeFile uploadedFiles index) = None).
  { unfold removeFile in *. simpl in *. rewrite Hlast. reflexivity. }
  rewrite Hre. eexists. split; [reflexivity|].
  unfold App.handleAudioAnalysis. simpl.
  split; [reflexivity|]. split; [reflexivity|]. split; [reflexivity|].
  unfold App.sonarFrame. simpl.
  destruct (App.showSonar st); [|reflexivity].
  unfold SonarView.animate. simpl.
  destruct (App.isRecording st); reflexivity.
Qed.

Lemma removing_the_last_file_witness :
  remainingFiles (removeFile [sampleFile] 0) = []
  /\ exists st',
       App.removeUploaded App.initial [sampleFile] 0 zeroOracle = Some st'
       /\ App.sources st' = [].
Proof.
  split; [reflexivity|].
  destruct (removing_the_last_file App.initial [sampleFile] 0%nat zeroOracle
              eq_refl) as (st' & Hrem & Hsrc & _).
  exists st'. split; [exact Hrem | exact Hsrc].
Defined.

Lemma analyzeRecordedAudio_distances :
  succeeds AudioRecorder.analyzeRecordedAudio
           (Forall (fun s => 2 <= distance s <= 30)).
Proof.
  intros rnd i Hvalid.
  eexists _, _. split; [reflexivity|].
  pose proof (Hvalid (5 + i)%nat). pose proof (Hvalid (11 + i)%nat).
  pose proof (Hvalid (17 + i)%nat). simpl in *.
  constructor; [simpl; lra|]. constructor; [simpl; lra|].
  constructor; [simpl; lra|]. constructor.
Qed.

(** X23: the marker of a source is drawn at the radius distance * 5 from
    the listener, and under every oracle with draws in [0, 1) that radius
    is between 5 and 130 for the sources of uploaded files and between 10
    and 150 for the sources of a recording: no marker of a generated
    source is drawn beyond the third range circle. *)
Theorem generated_markers_are_in_range
    (files : list File) (rnd : Random.oracle) (Hvalid : Random.valid rnd) :
  (exists l,
      Random.run (analyzeFiles files) rnd = Some l
      /\ Forall (fun s => 5 <= distance s * 5 <= 130) l)
  /\ (exists l,
        Random.run AudioRecorder.analyzeRecordedAudio rnd = Some l
        /\ Forall (fun s => 10 <= distance s * 5 <= 150) l)
  /\ (forall s center,
        SonarView.markerPoint s center
        = polar center (SonarView.markerAngle s) (distance s * 5))
  /\ (forall center,
        SonarView.drawRangeCircles center !! 2%nat
        = Some (SonarView.RangeCircle center (INR 3 * 50) 30)).
Proof.
  split; [|split; [|split; [reflexivity | intros center; reflexivity]]].
  - destruct (succeeds_run _ _ rnd
                (analyzeFiles_groups uploadedFigures files
                   mockSource_figures) Hvalid)
      as (objs & Hrun & groups & -> & _ & Hgroups).
    destruct (concat_groups _ _ Hgroups) as [_ Hall].
    eexists. split; [exact Hrun|].
    eapply Forall_impl; [exact Hall|]. cbv beta.
    intros s [_ [Hlo Hhi]]. lra.
  - destruct (succeeds_run _ _ rnd analyzeRecordedAudio_distances Hvalid)
      as (l & Hrun & Hall).
    exists l. split; [exact Hrun|].
    eapply Forall_impl; [exact Hall|]. cbv beta.
    intros s [Hlo Hhi]. lra.
Qed.

Lemma generated_markers_are_in_range_witness :
  Random.valid zeroOracle
  /\ exists l,
       Random.run AudioRecorder.analyzeRecordedAudio zeroOracle = Some l
       /\ Forall (fun s => 10 <= distance s * 5 <= 150) l.
Proof.
  split; [exact zeroOracle_valid|].
  exact (proj1 (proj2 (generated_markers_are_in_range [sampleFile]
                         zeroOracle zeroOracle_valid))).
Defined.

End AfterUpload.

(** ** Identifiers of the uploaded sources *)

Section UploadedIds.
Import AudioUploader.

Lemma digitsValue_uint d : forall acc,
  SonarView.digitsValue acc (NilEmpty.string_of_uint d)
  = N.of_nat (Nat.of_uint_acc d (N.to_nat acc)).
Proof.
  induction d; intros acc; cbn [NilEmpty.string_of_uint SonarView.digitsValue
                                 Nat.of_uint_acc];
    [lia | rewrite IHd; do 2 f_equal; rewrite Nat.tail_mul_spec;
           match goal with
           | |- context [N_of_ascii ?c] =>
               let v := eval vm_compute in (N_of_ascii c - 48)%N in
               change (N_of_ascii c - 48)%N with v
           end; lia ..].
Qed.

Lemma digitsValue_decimal n acc :
  SonarView.digitsValue acc (decimal n)
  = N.of_nat (n + N.to_nat acc * 10 ^ DecimalNat.Unsigned.usize (Nat.to_uint n)).
Proof.
  unfold decimal. rewrite digitsValue_uint, DecimalNat.Unsigned.of_uint_acc_spec.
  rewrite <- DecimalNat.Unsigned.of_uint_alt, DecimalNat.Unsigned.of_to.
  reflexivity.
Qed.

Lemma decimal_inj n n' : decimal n = decimal n' -> n = n'.
Proof.
  intros Heq.
  pose proof (digitsValue_decimal n 0) as H1.
  pose proof (digitsValue_decimal n' 0) as H2.
  rewrite Heq in H1. rewrite H1 in H2. simpl in H2. lia.
Qed.

Lemma digitsOnly_uint d : digitsOnly (NilEmpty.string_of_uint d) = true.
Proof. induction d; simpl; auto. Qed.

Lemma digitsOnly_strip s : digitsOnly s = true -> SonarView.stripNonDigits s = s.
Proof.
  induction s as [|c rest IH]; simpl; [reflexivity|].
  intros H. apply andb_true_iff in H as [Hc Hrest].
  rewrite Hc, IH by exact Hrest. reflexivity.
Qed.

Lemma stripNonDigits_app a b :
  SonarView.stripNonDigits (a ++ b)
  = (SonarView.stripNonDigits a ++ SonarView.stripNonDigits b)%string.
Proof.
  induction a as [|c a IH]; simpl; [reflexivity|].
  destruct (SonarView.isDigit c); simpl; rewrite IH; reflexivity.
Qed.

Lemma digitsValue_app a b : forall acc,
  SonarView.digitsValue acc (a ++ b)
  = SonarView.digitsValue (SonarView.digitsValue acc a) b.
Proof.
  induction a as [|c a IH]; intros acc; simpl; [reflexivity | apply IH].
Qed.

Lemma orZero_parseInt s :
  SonarView.orZero (SonarView.parseInt s) = SonarView.digitsValue 0 s.
Proof. destruct s; reflexivity. Qed.

Lemma usize_small j :
  (j < 10)%nat -> DecimalNat.Unsigned.usize (Nat.to_uint j) = 1%nat.
Proof.
  intros Hj. do 10 (destruct j as [|j]; [reflexivity|]). lia.
Qed.

Lemma uploadedId_hash i j :
  (j < 10)%nat ->
  SonarView.orZero
    (SonarView.parseInt (SonarView.stripNonDigits (uploadedId i j)))
  = N.of_nat (10 * i + j).
Proof.
  intros Hj. unfold uploadedId.
  rewrite !stripNonDigits_app.
  rewrite (digitsOnly_strip (decimal i)) by apply digitsOnly_uint.
  rewrite (digitsOnly_strip (decimal j)) by apply digitsOnly_uint.
  change (SonarView.stripNonDigits "file-") with EmptyString.
  change (SonarView.stripNonDigits "-source-") with EmptyString.
  cbn [String.append].
  rewrite orZero_parseInt, digitsValue_app, !digitsValue_decimal.
  rewrite (usize_small j Hj). f_equal.
  change (N.to_nat 0) with 0%nat. rewrite Nat.mul_0_l, Nat.add_0_r.
  rewrite Nat2N.id. change (10 ^ 1)%nat with 10%nat. lia.
Qed.

(** X24: the source of index j < 10 that the uploader makes for the file of
    index i has the identifier file-i-source-j, and the sonar view draws
    its marker at the angle 0.5 * (10 i + j) radians: the sources of one
    file are half a radian apart, those of consecutive files five radians
    apart. *)
Theorem uploaded_source_angle
    (file : File) (i j : nat) (rnd : Random.oracle) (n n' : nat)
    (s : AudioSource)
    (Hj : (j < 10)%nat)
    (Hrun : mockSource file i j rnd n = Some (s, n')) :
  id s = uploadedId i j
  /\ SonarView.markerAngle s = 0.5 * (10 * INR i + INR j).
Proof.
  assert (Hid : id s = uploadedId i j).
  { unfold mockSource, Random.bind, Random.random, Random.lift, Random.ret
      in Hrun.
    destruct (category (JS.floor (rnd n * 5))); [|discriminate].
    injection Hrun as <- _. reflexivity. }
  split; [exact Hid|].
  unfold SonarView.markerAngle. rewrite Hid, (uploadedId_hash i j Hj).
  unfold SonarView.NtoR. rewrite nat_N_Z, <- INR_IZR_INZ.
  rewrite plus_INR, mult_INR.
  replace (INR 10) with 10 by (rewrite INR_IZR_INZ; reflexivity).
  lra.
Qed.

Lemma uploaded_source_angle_witness :
  (1 < 10)%nat
  /\ mockSource sampleFile 0 1 zeroOracle 0%nat = Some (zeroSource 1, 8%nat)
  /\ SonarView.markerAngle (zeroSource 1) = 0.5 * (10 * INR 0 + INR 1).
Proof.
  assert (H1 : (1 < 10)%nat) by lia.
  assert (H2 : mockSource sampleFile 0 1 zeroOracle 0%nat
               = Some (zeroSource 1, 8%nat)).
  { unfold mockSource, Random.bind, Random.random, Random.lift, Random.ret,
      zeroOracle.
    rewrite floor_of_zero. reflexivity. }
  split; [exact H1|]. split; [exact H2|].
  exact (proj2 (uploaded_source_angle sampleFile 0 1 zeroOracle 0%nat 8%nat
                  (zeroSource 1) H1 H2)).
Defined.

(** *** The identifiers are pairwise distinct *)

Lemma digits_then_dash a : forall a' r r',
  digitsOnly a = true -> digitsOnly a' = true ->
  (a ++ String "-" r)%string = (a' ++ String "-" r')%string ->
  a = a' /\ r = r'.
Proof.
  induction a as [|c a IH]; intros [|c' a'] r r' Ha Ha' Heq;
    cbn [String.append digitsOnly] in *.
  - injection Heq as ->. split; reflexivity.
  - injection Heq as <- _. discriminate Ha'.
  - injection Heq as -> _. discriminate Ha.
  - injection Heq as -> Hrest.
    apply andb_true_iff in Ha as [_ Ha], Ha' as [_ Ha'].
    destruct (IH a' r r' Ha Ha' Hrest) as [-> ->]. split; reflexivity.
Qed.

Lemma uploadedId_inj i j i' j' :
  uploadedId i j = uploadedId i' j' -> i = i' /\ j = j'.
Proof.
  unfold uploadedId. intros Heq.
  cbn [String.append] in Heq. injection Heq as Heq.
  apply digits_then_dash in Heq as [Hi Hj];
    [| apply digitsOnly_uint | apply digitsOnly_uint].
  split; [apply decimal_inj, Hi|].
  injection Hj as Hj. apply decimal_inj, Hj.
Qed.

Lemma uploadedIds_index x : forall counts start,
  In x (uploadedIds start counts) ->
  exists i j, (start <= i)%nat /\ x = uploadedId i j.
Proof.
  induction counts as [|n rest IH]; intros start Hin; simpl in Hin.
  - destruct Hin.
  - apply in_app_or in Hin as [Hin | Hin].
    + apply in_map_iff in Hin as (j & <- & _). exists start, j.
      split; [lia | reflexivity].
    + destruct (IH (S start) Hin) as (i & j & Hi & ->). exists i, j.
      split; [lia | reflexivity].
Qed.

Lemma NoDup_map_inj {A B} (f : A -> B) (l : list A) :
  (forall x y, f x = f y -> x = y) -> NoDup l -> NoDup (map f l).
Proof.
  intros Hf Hl. induction Hl as [|x l Hx Hl IH]; simpl; constructor.
  - intros Hin. apply list_elem_of_In, in_map_iff in Hin as (y & Heq & Hy).
    apply Hf in Heq. subst y. apply Hx, list_elem_of_In, Hy.
  - exact IH.
Qed.

Lemma uploadedIds_NoDup counts : forall start,
  NoDup (uploadedIds start counts).
Proof.
  induction counts as [|n rest IH]; intros start; simpl.
  - constructor.
  - apply NoDup_app. split; [|split].
    + apply NoDup_map_inj; [|apply NoDup_seq].
      intros j j' Heq. apply (uploadedId_inj _ _ _ _ Heq).
    + intros x Hx Hx'. apply list_elem_of_In in Hx, Hx'.
      apply in_map_iff in Hx as (j & <- & _).
      apply uploadedIds_index in Hx' as (i' & j' & Hi' & Heq).
      apply uploadedId_inj in Heq as [-> _]. lia.
    + apply IH.
Qed.

Lemma mockSource_id file i j :
  succeeds (mockSource file i j) (fun s => id s = uploadedId i j).
Proof.
  unfold mockSource.
  eapply succeeds_bind; [apply succeeds_random|]. intros t Ht.
  destruct (category_defined (JS.floor (t * 5))) as [c Hc].
  { apply (floor_scaled t 5 Ht). lia. }
  eapply succeeds_bind; [apply (succeeds_lift _ c Hc)|]. intros ty ->.
  do 7 (eapply succeeds_bind; [apply succeeds_random|]; intros ? _).
  apply succeeds_ret. reflexivity.
Qed.

Lemma tabulate_ids file i n : forall start,
  succeeds (Random.tabulate n start (mockSource file i))
           (fun l => map id l = map (uploadedId i) (seq start n)).
Proof.
  induction n as [|n IH]; intros start; simpl.
  - apply succeeds_ret. reflexivity.
  - eapply succeeds_bind; [apply mockSource_id|]. intros s Hs.
    eapply succeeds_bind; [apply IH|]. intros rest Hrest.
    apply succeeds_ret. simpl. rewrite Hs, Hrest. reflexivity.
Qed.

Lemma flatMap_ids files : forall start,
  succeeds (Random.flatMap files start sourcesOfFile)
           (fun l => exists counts,
              length counts = length files
              /\ Forall (fun n => (2 <= n <= 4)%nat) counts
              /\ map id l = uploadedIds start counts).
Proof.
  induction files as [|file rest IH]; intros start; simpl.
  - apply succeeds_ret. exists []. repeat split. constructor.
  - eapply succeeds_bind
      with (P := fun g => exists n, (2 <= n <= 4)%nat
                            /\ map id g = map (uploadedId start) (seq 0 n)).
    + unfold sourcesOfFile.
      eapply succeeds_bind; [apply succeeds_random|]. intros n Hn.
      pose proof (floor_scaled n 3 Hn ltac:(lia)) as Hf.
      intros rnd k Hvalid.
      destruct (tabulate_ids file start (Z.to_nat (2 + JS.floor (n * 3)))
                  0%nat rnd k Hvalid) as (g & k' & Hrun & Hg).
      exists g, k'. split; [exact Hrun|].
      exists (Z.to_nat (2 + JS.floor (n * 3))). split; [lia | exact Hg].
    + intros g (n & Hn & Hg).
      eapply succeeds_bind; [apply IH|].
      intros zs (counts & Hlen & Hcounts & Hzs).
      apply succeeds_ret. exists (n :: counts).
      split; [simpl; lia|]. split; [constructor; assumption|].
      rewrite map_app, Hg, Hzs. reflexivity.
Qed.

(** X25: the identifiers of the sources an upload generates are, file after
    file, file-i-source-0 ... file-i-source-(n_i - 1) with 2 <= n_i <= 4
    sources for the file of index i; no identifier occurs twice, so that a
    toggle by identifier, and a React key, names one source. *)
Theorem uploaded_ids_are_distinct
    (files : list File) (rnd : Random.oracle)
    (Hvalid : Random.valid rnd) :
  exists l counts,
    Random.run (analyzeFiles files) rnd = Some l
    /\ length counts = length files
    /\ Forall (fun n => (2 <= n <= 4)%nat) counts
    /\ map id l = uploadedIds 0 counts
    /\ NoDup (map id l).
Proof.
  destruct (succeeds_run _ _ rnd (flatMap_ids files 0%nat) Hvalid)
    as (l & Hrun & counts & Hlen & Hcounts & Hids).
  exists l, counts. split; [exact Hrun|]. split; [exact Hlen|].
  split; [exact Hcounts|]. split; [exact Hids|].
  rewrite Hids. apply uploadedIds_NoDup.
Qed.

Lemma uploaded_ids_are_distinct_witness :
  Random.valid zeroOracle
  /\ exists l counts,
       Random.run (analyzeFiles [sampleFile; sampleFile]) zeroOracle = Some l
       /\ length counts = 2%nat
       /\ Forall (fun n => (2 <= n <= 4)%nat) counts
       /\ map id l = uploadedIds 0 counts
       /\ NoDup (map id l).
Proof.
  split; [exact zeroOracle_valid|].
  exact (uploaded_ids_are_distinct [sampleFile; sampleFile] zeroOracle
           zeroOracle_valid).
Defined.

(** *** A toggle after an upload *)

Lemma flipIf_other soundId (l : list AudioSource) :
  ~ In soundId (map id l) -> map (flipIf soundId) l = l.
Proof.
  induction l as [|a l IH]; simpl; intros Hnot; [reflexivity|].
  rewrite IH by tauto. f_equal. unfold flipIf.
  destruct (String.eqb_spec (id a) soundId) as [Heq|_]; [|reflexivity].
  exfalso. apply Hnot. left. exact Heq.
Qed.

Lemma flipIf_at (l : list AudioSource) : forall k s,
  NoDup (map id l) -> l !! k = Some s ->
  map (flipIf (id s)) l = <[k := flipIf (id s) s]> l.
Proof.
  induction l as [|a l IH]; intros k s Hnd Hk; [discriminate Hk|].
  simpl in Hnd. apply NoDup_cons in Hnd as [Ha Hnd].
  destruct k as [|k]; simpl in Hk |- *.
  - injection Hk as ->. f_equal. apply flipIf_other.
    intros Hin. apply Ha, list_elem_of_In, Hin.
  - rewrite (IH k s Hnd Hk). f_equal. unfold flipIf.
    destruct (String.eqb_spec (id a) (id s)) as [Heq|_]; [|reflexivity].
    exfalso. apply Ha. rewrite Heq. apply list_elem_of_In, in_map.
    apply list_elem_of_In. eapply list_elem_of_lookup_2, Hk.
Qed.

(** X26: after an upload with at least one audio file, a toggle with the
    identifier of the source at position k of the list changes the source
    at position k, and no other: the list after the toggle is the list
    before with the visibility of that one source negated. *)
Theorem toggle_after_upload_changes_one_source
    (st : App.state) (files : list File) (rnd : Random.oracle)
    (Hvalid : Random.valid rnd)
    (Haudio : List.filter isAudio files <> []) :
  exists st',
    App.upload st files rnd = Some st'
    /\ forall k s,
         App.sources st' !! k = Some s ->
         App.sources (App.toggleSoundVisibility st' (id s))
         = <[k := flipIf (id s) s]> (App.sources st').
Proof.
  destruct (succeeds_run _ _ rnd
              (flatMap_ids (List.filter isAudio files) 0%nat) Hvalid)
    as (objs & Hrun & counts & _ & _ & Hids).
  assert (Hup : App.upload st files rnd
                = Some (App.handleAudioAnalysis
                          (App.setDatasetSize st
                             (reportedSize (handleFileSelect [] files)))
                          objs)).
  { unfold App.upload, handleFileSelect. simpl.
    destruct (List.filter isAudio files) as [|f fs] eqn:Hf; [congruence|].
    simpl. fold (analyzeFiles (f :: fs)) in Hrun. rewrite Hrun.
    reflexivity. }
  eexists. split; [exact Hup|]. intros k s Hk.
  destruct (handleAudioAnalysis_sources
              (App.setDatasetSize st
                 (reportedSize (handleFileSelect [] files))) objs)
    as [Hsources Hwf].
  rewrite (toggle_sources _ (id s) Hwf). rewrite Hsources in Hk |- *.
  apply flipIf_at; [|exact Hk]. rewrite Hids. apply uploadedIds_NoDup.
Qed.

Lemma toggle_after_upload_changes_one_source_witness :
  Random.valid zeroOracle
  /\ List.filter isAudio [sampleFile] = [sampleFile]
  /\ exists st',
       App.upload App.initial [sampleFile] zeroOracle = Some st'
       /\ forall k s,
            App.sources st' !! k = Some s ->
            App.sources (App.toggleSoundVisibility st' (id s))
            = <[k := flipIf (id s) s]> (App.sources st').
Proof.
  assert (Haudio : List.filter isAudio [sampleFile] = [sampleFile])
    by reflexivity.
  split; [exact zeroOracle_valid|]. split; [exact Haudio|].
  apply (toggle_after_upload_changes_one_source App.initial [sampleFile]
           zeroOracle zeroOracle_valid).
  rewrite Haudio. discriminate.
Defined.

End UploadedIds.

(** ** The elapsed time of a recording *)

Section ElapsedTime.
Import RecordingTime.

Lemma length_uint d :
  String.length (NilEmpty.string_of_uint d) = DecimalNat.Unsigned.usize d.
Proof. induction d; simpl; congruence. Qed.

Lemma of_uint_acc_bound d : forall acc,
  (Nat.of_uint_acc d acc < (acc + 1) * 10 ^ DecimalNat.Unsigned.usize d)%nat.
Proof.
  induction d; intros acc;
    cbn [Nat.of_uint_acc DecimalNat.Unsigned.usize];
    [simpl; lia | rewrite Nat.tail_mul_spec, Nat.pow_succ_r';
                  match goal with
                  | |- (Nat.of_uint_acc _ ?a < _)%nat =>
                      specialize (IHd a)
                  end; nia ..].
Qed.

Lemma decimal_bound n :
  (n < 10 ^ String.length (AudioUploader.decimal n))%nat.
Proof.
  unfold AudioUploader.decimal. rewrite length_uint.
  pose proof (of_uint_acc_bound (Nat.to_uint n) 0) as H.
  fold (Nat.of_uint (Nat.to_uint n)) in H.
  rewrite DecimalNat.Unsigned.of_to in H. simpl in H. lia.
Qed.

Lemma decimal_short n :
  (n < 100)%nat ->
  (1 <= String.length (AudioUploader.decimal n) <= 2)%nat.
Proof.
  intros Hn.
  assert (Hall : forallb
            (fun k => let len := String.length (AudioUploader.decimal k) in
                      (1 <=? len)%nat && (len <=? 2)%nat)
            (seq 0 100) = true) by (vm_compute; reflexivity).
  rewrite forallb_forall in Hall.
  specialize (Hall n ltac:(apply in_seq; lia)). cbv zeta in Hall.
  apply andb_true_iff in Hall as [H1 H2].
  apply Nat.leb_le in H1, H2. lia.
Qed.

Lemma length_replicate n c : String.length (replicate n c) = n.
Proof. induction n; simpl; congruence. Qed.

Lemma length_padStart t c s :
  String.length (padStart t c s) = Nat.max t (String.length s).
Proof.
  unfold padStart. rewrite length_append, length_replicate. lia.
Qed.

Lemma readNat_decimal n : readNat (AudioUploader.decimal n) = Some n.
Proof.
  unfold readNat, AudioUploader.decimal.
  rewrite NilEmpty.usu, DecimalNat.Unsigned.of_to. reflexivity.
Qed.

Lemma readNat_padStart t s n :
  readNat s = Some n -> readNat (padStart t "0" s) = Some n.
Proof.
  unfold padStart. intros Hs.
  induction (t - String.length s)%nat as [|k IH]; simpl; [exact Hs|].
  unfold readNat in IH |- *. cbn [NilEmpty.uint_of_string].
  destruct (NilEmpty.uint_of_string (replicate k "0" ++ s)) as [d|];
    [|discriminate IH].
  exact IH.
Qed.

(** X27: the text shown for a recording time is minutes, a colon and
    seconds; read back as numbers the two fields are the quotient and the
    remainder of the time by 60; the seconds always take two characters,
    the minutes take two exactly when the time is under 100 minutes. *)
Theorem formatTime_reads_back (seconds : nat) :
  exists mins secs,
    formatTime seconds = (mins ++ ":" ++ secs)%string
    /\ readNat mins = Some (seconds / 60)%nat
    /\ readNat secs = Some (seconds mod 60)%nat
    /\ String.length secs = 2%nat
    /\ (String.length mins = 2%nat <-> (seconds < 100 * 60)%nat).
Proof.
  exists (padStart 2 "0" (AudioUploader.decimal (seconds / 60))),
         (padStart 2 "0" (AudioUploader.decimal (seconds mod 60))).
  split; [reflexivity|].
  split; [apply readNat_padStart, readNat_decimal|].
  split; [apply readNat_padStart, readNat_decimal|].
  rewrite !length_padStart.
  pose proof (Nat.mod_upper_bound seconds 60 ltac:(lia)) as Hsecs.
  pose proof (decimal_short (seconds mod 60) ltac:(lia)) as Hs.
  split; [lia|].
  pose proof (Nat.div_mod_eq seconds 60) as Hdiv.
  split.
  - intros Hlen. pose proof (decimal_bound (seconds / 60)) as Hb.
    assert (Hle : (String.length (AudioUploader.decimal (seconds / 60)) <= 2)%nat)
      by lia.
    assert (Hpow : (10 ^ String.length (AudioUploader.decimal (seconds / 60))
                    <= 10 ^ 2)%nat) by (apply Nat.pow_le_mono_r; lia).
    change (10 ^ 2)%nat with 100%nat in Hpow.
    assert (Hq : (seconds / 60 < 100)%nat)
      by (eapply Nat.lt_le_trans; [exact Hb | exact Hpow]).
    clear Hb Hpow Hle Hlen Hs. lia.
  - intros Hlt.
    pose proof (decimal_short (seconds / 60) ltac:(lia)) as Hm. lia.
Qed.

End ElapsedTime.
